(** * Data-Annotation: annotation store, chunked persistence and export

    A shallow embedding of the calibration data model of the OCR annotation
    tool (js/canvas.js, js/batch-processor.js, js/storage.js,
    js/progress-manager.js, js/dashboard.js, the API manager and the main
    controller), followed by the properties established about it.

    Conventions of the embedding.
    - A JavaScript number is a [num]: a finite rational, [+Infinity],
      [-Infinity] or [NaN]; the sign of zero is not represented.  The
      operations [num_add], [num_sub], [num_mul] and [num_div] compute the
      exact result, which is the result of the JavaScript operator wherever
      it is a double, as on the integers and the dyadic values they are
      evaluated at below.  Module [Binary64] gives the operators with their
      rounding to the nearest double; the coordinate round trip, the region
      normaliser and the drawing of a box are stated on it.
    - A JavaScript [Map] or plain object used as a dictionary is a [gmap];
      where iteration order matters an association list is used instead.
    - [Date.now()] is an explicit argument [now] of the operation reading it.
    - [x || d] on an optional field is a [match] on an [option]. *)

From Stdlib Require Import ZArith QArith Qround Qabs Qminmax Qpower Lia Lqa.
From Stdlib Require Import List Ascii String Permutation Sorted.
From stdpp Require Import gmap strings list pretty.

Local Open Scope Z_scope.

(* ===================================================================== *)
(** ** JavaScript numbers *)
(* ===================================================================== *)

Inductive num : Type :=
| Fin (q : Q)
| PInf
| NInf
| NaN.

Definition num_of_Z (z : Z) : num := Fin (inject_Z z).

(** [Math.round]: nearest integer, ties towards [+Infinity]. *)
Definition Math_round (n : num) : num :=
  match n with
  | Fin q => Fin (inject_Z (Qfloor (q + (1 # 2))))
  | _ => n
  end.

(** The infinity whose sign is that of [q] times [pos]; [NaN] at zero. *)
Definition signed_inf (q : Q) (pos : bool) : num :=
  match (q ?= 0)%Q with
  | Gt => if pos then PInf else NInf
  | Lt => if pos then NInf else PInf
  | Eq => NaN
  end.

Definition num_mul (a b : num) : num :=
  match a, b with
  | NaN, _ | _, NaN => NaN
  | Fin x, Fin y => Fin (x * y)
  | Fin x, PInf | PInf, Fin x => signed_inf x true
  | Fin x, NInf | NInf, Fin x => signed_inf x false
  | PInf, PInf | NInf, NInf => PInf
  | PInf, NInf | NInf, PInf => NInf
  end.

Definition num_div (a b : num) : num :=
  match a, b with
  | NaN, _ | _, NaN => NaN
  | Fin x, Fin y =>
      if Qeq_bool y 0 then signed_inf x true else Fin (x / y)
  | Fin _, PInf | Fin _, NInf => Fin 0
  | PInf, Fin y => match (y ?= 0)%Q with Lt => NInf | _ => PInf end
  | NInf, Fin y => match (y ?= 0)%Q with Lt => PInf | _ => NInf end
  | PInf, PInf | PInf, NInf | NInf, PInf | NInf, NInf => NaN
  end.

Definition num_sub (a b : num) : num :=
  match a, b with
  | NaN, _ | _, NaN => NaN
  | Fin x, Fin y => Fin (x - y)
  | Fin _, PInf => NInf
  | Fin _, NInf => PInf
  | PInf, Fin _ | PInf, NInf => PInf
  | NInf, Fin _ | NInf, PInf => NInf
  | PInf, PInf | NInf, NInf => NaN
  end.

(** Binary minimum and maximum as [Math.min] / [Math.max] compute them. *)
Definition num_min (a b : num) : num :=
  match a, b with
  | NaN, _ | _, NaN => NaN
  | NInf, _ | _, NInf => NInf
  | PInf, x | x, PInf => x
  | Fin x, Fin y => if Qle_bool x y then Fin x else Fin y
  end.

Definition num_max (a b : num) : num :=
  match a, b with
  | NaN, _ | _, NaN => NaN
  | PInf, _ | _, PInf => PInf
  | NInf, x | x, NInf => x
  | Fin x, Fin y => if Qle_bool x y then Fin y else Fin x
  end.

Definition num_add (a b : num) : num :=
  match a, b with
  | NaN, _ | _, NaN => NaN
  | Fin x, Fin y => Fin (x + y)
  | PInf, NInf | NInf, PInf => NaN
  | PInf, _ | _, PInf => PInf
  | NInf, _ | _, NInf => NInf
  end.

(** [a <= b] on numbers; every comparison with [NaN] is false. *)
Definition num_leb (a b : num) : bool :=
  match a, b with
  | NaN, _ | _, NaN => false
  | Fin x, Fin y => Qle_bool x y
  | NInf, _ | _, PInf => true
  | PInf, _ | _, NInf => false
  end.

(** [Math.min(...xs)] and [Math.max(...xs)]; on no argument they return
    [Infinity] and [-Infinity]. *)
Definition Math_min (xs : list num) : num := fold_right num_min PInf xs.
Definition Math_max (xs : list num) : num := fold_right num_max NInf xs.

(* ===================================================================== *)
(** ** Double-precision arithmetic *)
(* ===================================================================== *)

(** The arithmetic operators of JavaScript round their exact result to the
    nearest double (IEEE 754 binary64, a tie going to the even significand).
    The operations of this module do so: applied to doubles they return the
    double the operator returns, up to the sign of zero. *)
Module Binary64.
Local Open Scope Q_scope.

Definition pow2 (e : Z) : Q := Qpower 2 e.

(** The exponent [e] with [2^e <= a < 2^(e+1)], for [a > 0]. *)
Definition ilog2 (a : Q) : Z :=
  let k := (Z.log2 (Qnum a) - Z.log2 (Zpos (Qden a)))%Z in
  if Qle_bool (pow2 k) a then k else (k - 1)%Z.

(** The nearest integer, a tie going to the even one. *)
Definition nearest_even (q : Q) : Z :=
  let f := Qfloor q in
  match Qcompare (q - inject_Z f) (1 # 2) with
  | Lt => f
  | Gt => (f + 1)%Z
  | Eq => if Z.even f then f else (f + 1)%Z
  end.

(** The double nearest to [a > 0]: a multiple of [2^e], where [e] is the
    exponent of [a] less the 52 fraction bits, and at least the exponent of
    the subnormal numbers; [None] when it exceeds the largest double. *)
Definition round_magnitude (a : Q) : option Q :=
  let e := Z.max (ilog2 a - 52) (-1074) in
  let r := inject_Z (nearest_even (a / pow2 e)) * pow2 e in
  if Qle_bool (pow2 1024) r then None else Some r.

Definition round (q : Q) : num :=
  match Qnum q with
  | Z0 => Fin 0
  | Zpos _ => match round_magnitude q with Some r => Fin r | None => PInf end
  | Zneg _ =>
      match round_magnitude (- q) with Some r => Fin (- r) | None => NInf end
  end.

(** [a * b], [a / b] and [a - b]. *)
Definition mul (a b : num) : num :=
  match a, b with
  | Fin x, Fin y => round (x * y)
  | _, _ => num_mul a b
  end.

Definition div (a b : num) : num :=
  match a, b with
  | Fin x, Fin y => if Qeq_bool y 0 then signed_inf x true else round (x / y)
  | _, _ => num_div a b
  end.

Definition sub (a b : num) : num :=
  match a, b with
  | Fin x, Fin y => round (x - y)
  | _, _ => num_sub a b
  end.

End Binary64.

(* ===================================================================== *)
(** ** Rectangles and image metadata *)
(* ===================================================================== *)

Module Rect.
Record t : Type := mk { left : num; top : num; width : num; height : num }.
End Rect.

Record ImageInfo : Type := mkImageInfo {
  originalWidth : num;
  originalHeight : num;
  displayWidth : num;
  displayHeight : num;
  scale : num
}.

(* ===================================================================== *)
(** ** js/canvas.js: CanvasManager *)
(* ===================================================================== *)

Module CanvasManager.

(** [displayToOriginalCoords(displayRegion)], with [this.imageInfo] passed
    explicitly ([None] while no image has been loaded). *)
Definition displayToOriginalCoords
    (imageInfo : option ImageInfo) (displayRegion : Rect.t) : Rect.t :=
  match imageInfo with
  | None => displayRegion
  | Some info =>
      let scale := scale info in
      Rect.mk (Math_round (num_div (Rect.left displayRegion) scale))
              (Math_round (num_div (Rect.top displayRegion) scale))
              (Math_round (num_div (Rect.width displayRegion) scale))
              (Math_round (num_div (Rect.height displayRegion) scale))
  end.

(** [originalToDisplayCoords(originalRegion)]. *)
Definition originalToDisplayCoords
    (imageInfo : option ImageInfo) (originalRegion : Rect.t) : Rect.t :=
  match imageInfo with
  | None => originalRegion
  | Some info =>
      let scale := scale info in
      Rect.mk (Math_round (num_mul (Rect.left originalRegion) scale))
              (Math_round (num_mul (Rect.top originalRegion) scale))
              (Math_round (num_mul (Rect.width originalRegion) scale))
              (Math_round (num_mul (Rect.height originalRegion) scale))
  end.

(** The two conversions on doubles: the quotient and the product are rounded
    to the nearest double before [Math.round] is applied. *)
Module Doubles.

Definition displayToOriginalCoords
    (imageInfo : option ImageInfo) (displayRegion : Rect.t) : Rect.t :=
  match imageInfo with
  | None => displayRegion
  | Some info =>
      let scale := scale info in
      Rect.mk (Math_round (Binary64.div (Rect.left displayRegion) scale))
              (Math_round (Binary64.div (Rect.top displayRegion) scale))
              (Math_round (Binary64.div (Rect.width displayRegion) scale))
              (Math_round (Binary64.div (Rect.height displayRegion) scale))
  end.

Definition originalToDisplayCoords
    (imageInfo : option ImageInfo) (originalRegion : Rect.t) : Rect.t :=
  match imageInfo with
  | None => originalRegion
  | Some info =>
      let scale := scale info in
      Rect.mk (Math_round (Binary64.mul (Rect.left originalRegion) scale))
              (Math_round (Binary64.mul (Rect.top originalRegion) scale))
              (Math_round (Binary64.mul (Rect.width originalRegion) scale))
              (Math_round (Binary64.mul (Rect.height originalRegion) scale))
  end.

End Doubles.

(** An entry of [this.annotationBoxes]. *)
Record Box : Type := mkBox { box_region : Rect.t; highlighted : bool }.

(** [this.imageInfo], [this.annotationBoxes] (a [Map] from annotation id to
    box, in insertion order) and [this.highlightedId]. *)
Record t : Type := mk {
  imageInfo : option ImageInfo;
  annotationBoxes : list (Z * Box);
  highlightedId : option Z
}.


(** [map.get(id)] and [map.set(id, box)] on the box map: setting a key the
    map holds keeps its position, a new key goes last. *)
Fixpoint boxes_get (id : Z) (boxes : list (Z * Box)) : option Box :=
  match boxes with
  | [] => None
  | (k, b) :: rest => if decide (k = id) then Some b else boxes_get id rest
  end.

Fixpoint boxes_set (id : Z) (box : Box) (boxes : list (Z * Box))
  : list (Z * Box) :=
  match boxes with
  | [] => [(id, box)]
  | (k, b) :: rest =>
      if decide (k = id) then (k, box) :: rest
      else (k, b) :: boxes_set id box rest
  end.

(** [drawAnnotationBox(region, id)]; painting is not part of the state. *)
Definition drawAnnotationBox (region : Rect.t) (id : Z) (st : t) : t :=
  let displayRegion := originalToDisplayCoords (imageInfo st) region in
  mk (imageInfo st)
     (boxes_set id (mkBox displayRegion false) (annotationBoxes st))
     (highlightedId st).



(** The test of [getAnnotationIdAtPoint] on one box. *)
Definition box_contains (region : Rect.t) (x y : num) : bool :=
  num_leb (Rect.left region) x
  && num_leb x (num_add (Rect.left region) (Rect.width region))
  && num_leb (Rect.top region) y
  && num_leb y (num_add (Rect.top region) (Rect.height region)).

(** [getAnnotationIdAtPoint(x, y)]; [None] is [null]. *)
Fixpoint find_box (x y : num) (boxes : list (Z * Box)) : option Z :=
  match boxes with
  | [] => None
  | (id, boxInfo) :: rest =>
      if box_contains (box_region boxInfo) x y then Some id
      else find_box x y rest
  end.

Definition getAnnotationIdAtPoint (x y : num) (st : t) : option Z :=
  find_box x y (annotationBoxes st).

End CanvasManager.

(* ===================================================================== *)
(** ** JavaScript values shared by the modules *)
(* ===================================================================== *)

(** [a || d] on an optional string: [undefined] and [''] are falsy. *)
Definition or_string (a : option string) (d : string) : string :=
  match a with
  | Some s => if String.eqb s "" then d else s
  | None => d
  end.

Definition or_opt_string (a b : option string) : option string :=
  match a with
  | Some s => if String.eqb s "" then b else a
  | None => b
  end.

Definition truthy_string (a : option string) : bool :=
  match a with
  | Some s => negb (String.eqb s "")
  | None => false
  end.

(** Truthiness of a number: [0] and [NaN] are falsy. *)
Definition num_truthy (n : num) : bool :=
  match n with
  | Fin q => negb (Qeq_bool q 0)
  | NaN => false
  | _ => true
  end.

Definition or_num (a : option num) (d : num) : num :=
  match a with
  | Some n => if num_truthy n then n else d
  | None => d
  end.

(** [a < b] on numbers; every comparison with [NaN] is false. *)
Definition num_ltb (a b : num) : bool :=
  match a, b with
  | NaN, _ | _, NaN => false
  | Fin x, Fin y => negb (Qle_bool y x)
  | NInf, NInf | PInf, _ => false
  | NInf, _ | Fin _, PInf => true
  | Fin _, NInf => false
  end.

Definition Math_abs (n : num) : num :=
  match n with
  | Fin q => Fin (Qabs q)
  | NInf => PInf
  | _ => n
  end.

(** An element of a region array, as the pattern [[x, y]] and then
    [Math.min] and [Math.max] see it: a value that can be iterated (an
    array, a string), given by the numbers its first two elements convert
    to ([NaN] for one that is absent or is no number), or a value that
    cannot ([null], a number, a boolean, a plain object, a hole of the
    array). *)
Inductive Corner : Type :=
| CornerPair (x y : num)
| CornerNotIterable.

(** A region as an OCR service reports it in [text_region] / [bbox]:
    absent, some value that is not an array (with its truthiness), or an
    array. *)
Inductive BBox : Type :=
| BUndefined
| BNonArray (truthy : bool)
| BArray (pts : list Corner).

Definition bbox_truthy (b : BBox) : bool :=
  match b with
  | BUndefined => false
  | BNonArray t => t
  | BArray _ => true
  end.

Definition or_bbox (a b : BBox) : BBox := if bbox_truthy a then a else b.

(** A point object [{x, y}] of the vertex-list location format. *)
Record Point : Type := mkPoint { px : num; py : num }.

(** The [location] of a recognised word: a rectangle object or an array of
    points. *)
Inductive Location : Type :=
| LocRect (r : Rect.t)
| LocPoints (ps : list Point).

Module WordItem.
Record t : Type := mk {
  text : option string;
  text_region : BBox;
  words : option string;
  location : option Location;
  confidence : option num;
  id : option Z
}.
End WordItem.

Module OcrResult.
Record t : Type := mk {
  words_result_num : nat;
  words_result : option (list WordItem.t)
}.
End OcrResult.

Module Annotation.
Record t : Type := mk {
  id : Z;
  text : option string;
  region : option Location;
  isManual : bool
}.
End Annotation.

(* ===================================================================== *)
(** ** API manager: normalisation of PaddleOCR responses *)
(* ===================================================================== *)

Module APIManager.

(** The exception a function of the manager ends with. *)
Inductive thrown : Type :=
| TypeError.

(** [convertBboxToLocation(bbox)].  The destructuring pattern reads the
    first four elements of the array, each as a pair; one that cannot be
    iterated makes it throw. *)
Definition convertBboxToLocation (bbox : BBox) : Rect.t + thrown :=
  match bbox with
  | BArray (p1 :: p2 :: p3 :: p4 :: _) =>
      match p1, p2, p3, p4 with
      | CornerPair x1 y1, CornerPair x2 y2, CornerPair x3 y3,
        CornerPair x4 y4 =>
          let left := Math_min [x1; x2; x3; x4] in
          let top := Math_min [y1; y2; y3; y4] in
          let right := Math_max [x1; x2; x3; x4] in
          let bottom := Math_max [y1; y2; y3; y4] in
          inl (Rect.mk (Math_round left) (Math_round top)
                 (Math_round (Binary64.sub right left))
                 (Math_round (Binary64.sub bottom top)))
      | _, _, _, _ => inr TypeError
      end
  | _ => inl (Rect.mk (num_of_Z 0) (num_of_Z 0) (num_of_Z 100) (num_of_Z 30))
  end.

(** An item of [paddleResult.results]. *)
Record PaddleItem : Type := mkPaddleItem {
  item_text : option string;
  item_words : option string;
  item_text_region : BBox;
  item_bbox : BBox;
  item_confidence : option num
}.

(** An element of the legacy array response: a triple
    [[bbox, text, confidence]] or anything else. *)
Inductive LegacyItem : Type :=
| LegacyTriple (bbox : BBox) (text : option string) (confidence : option num)
| LegacyOther.

Inductive PaddleResult : Type :=
| PaddleObject (results : list PaddleItem)
| PaddleArray (items : list LegacyItem)
| PaddleOther.

(** [items.map(callback)] from [index] on, for a callback that can throw:
    the first exception ends the loop and is the outcome of the call. *)
Fixpoint map_from {A B : Type} (callback : A -> nat -> B + thrown)
    (index : nat) (items : list A) : list B + thrown :=
  match items with
  | [] => inl []
  | item :: rest =>
      match callback item index with
      | inr e => inr e
      | inl value =>
          match map_from callback (S index) rest with
          | inr e => inr e
          | inl values => inl (value :: values)
          end
      end
  end.

(** The callbacks of the two [map] calls of [formatPaddleResult]. *)
Definition formatLegacyItem (now : Z) (item : LegacyItem) (index : nat)
  : option WordItem.t + thrown :=
  match item with
  | LegacyTriple bbox text confidence =>
      match convertBboxToLocation bbox with
      | inl location =>
          inl (Some (WordItem.mk text bbox text (Some (LocRect location))
                       (Some (or_num confidence (num_of_Z 1)))
                       (Some (now + Z.of_nat index))))
      | inr e => inr e
      end
  | LegacyOther => inl None
  end.

Definition formatItem (now : Z) (item : PaddleItem) (index : nat)
  : WordItem.t + thrown :=
  let text := or_string (or_opt_string (item_text item) (item_words item)) "" in
  let region := or_bbox (item_text_region item) (item_bbox item) in
  match convertBboxToLocation region with
  | inl location =>
      inl (WordItem.mk (Some text) region (Some text)
             (Some (LocRect location))
             (Some (or_num (item_confidence item) (num_of_Z 1)))
             (Some (now + Z.of_nat index)))
  | inr e => inr e
  end.

(** [formatPaddleResult(paddleResult)]; [now] is the value of [Date.now()]. *)
Definition formatPaddleResult (now : Z) (paddleResult : PaddleResult)
  : OcrResult.t + thrown :=
  match paddleResult with
  | PaddleArray items =>
      match map_from (formatLegacyItem now) 0 items with
      | inl mapped =>
          let formattedResults := omap id mapped in
          inl (OcrResult.mk (length formattedResults) (Some formattedResults))
      | inr e => inr e
      end
  | PaddleOther => inl (OcrResult.mk 0 (Some []))
  | PaddleObject results =>
      match map_from (formatItem now) 0 results with
      | inl formattedResults =>
          inl (OcrResult.mk (length formattedResults) (Some formattedResults))
      | inr e => inr e
      end
  end.

(** The fields of a browser [File] the manager reads. *)
Record File : Type := mkFile {
  file_name : string;
  file_type : string;
  file_size : N
}.

(** [getSupportedFormats()]. *)
Definition getSupportedFormats : list string :=
  ["image/jpeg"; "image/png"; "image/gif"; "image/bmp"]%string.

(** [isFormatSupported(file)]. *)
Definition isFormatSupported (file : File) : bool :=
  bool_decide (file_type file ∈ getSupportedFormats).

(** [getFileSizeLimit()]: 4 MB in bytes. *)
Definition getFileSizeLimit : N := 4 * 1024 * 1024.

(** [isFileSizeValid(file)]. *)
Definition isFileSizeValid (file : File) : bool :=
  (file_size file <=? getFileSizeLimit)%N.

(** The two messages [validateImageFile] can push, by what they report;
    their wording is not represented. *)
Inductive ValidationError : Type :=
| UnsupportedFormat (type : string)
| FileTooLarge (size limit : N).

Record Validation : Type := mkValidation {
  valid : bool;
  errors : list ValidationError
}.

(** [validateImageFile(file)]. *)
Definition validateImageFile (file : File) : Validation :=
  let errors := [] in
  let errors :=
    if negb (isFormatSupported file)
    then errors ++ [UnsupportedFormat (file_type file)] else errors in
  let errors :=
    if negb (isFileSizeValid file)
    then errors ++ [FileTooLarge (file_size file) getFileSizeLimit]
    else errors in
  mkValidation (length errors =? 0)%nat errors.

Record Validations : Type := mkValidations {
  valid_files : list File;
  invalid_files : list (File * list ValidationError)
}.

(** [validateImageFiles(files)]. *)
Definition validateImageFiles (files : list File) : Validations :=
  fold_left
    (fun results file =>
       let validation := validateImageFile file in
       if valid validation then
         mkValidations (valid_files results ++ [file]) (invalid_files results)
       else
         mkValidations (valid_files results)
           (invalid_files results ++ [(file, errors validation)]))
    files (mkValidations [] []).

(** An entry of the [results] object of [processLocalImageFolder]: the OCR
    result of the file, or the empty result with the message of the error
    that was caught. *)
Record FolderEntry : Type := mkFolderEntry {
  entry_result : OcrResult.t;
  entry_error : option string
}.

(** The object [processLocalImageFolder] resolves with. *)
Record FolderRun : Type := mkFolderRun {
  totalFiles : nat;
  successCount : Z;
  errorCount : nat;
  results : gmap string FolderEntry;
  run_errors : list (string * string)
}.

(** The loop of [processLocalImageFolder]; [paddleOCR file] is the result
    [this.paddleOCR(imageFile)] resolves with, or the message of the error
    it throws. *)
Definition processLocalImageFolder_loop
    (paddleOCR : File -> OcrResult.t + string) (imageFiles : list File)
  : gmap string FolderEntry * list (string * string) :=
  fold_left
    (fun state imageFile =>
       let '(results, errors) := state in
       match paddleOCR imageFile with
       | inl ocrResult =>
           (<[file_name imageFile := mkFolderEntry ocrResult None]> results,
            errors)
       | inr message =>
           (<[file_name imageFile :=
                mkFolderEntry (OcrResult.mk 0 (Some [])) (Some message)]>
              results,
            errors ++ [(file_name imageFile, message)])
       end)
    imageFiles (∅, []).

(** [processLocalImageFolder(imageFiles)]; [None] is the error thrown when
    no file is given. *)
Definition processLocalImageFolder
    (paddleOCR : File -> OcrResult.t + string) (imageFiles : list File)
  : option FolderRun :=
  match imageFiles with
  | [] => None
  | _ =>
      let '(results, errors) :=
        processLocalImageFolder_loop paddleOCR imageFiles in
      let successCount := Z.of_nat (size results) - Z.of_nat (length errors) in
      Some (mkFolderRun (length imageFiles) successCount (length errors)
              results errors)
  end.

End APIManager.

(* ===================================================================== *)
(** ** Folder data model *)
(* ===================================================================== *)

(** The base64 data URL of an image, as a sequence of characters. *)
Abbreviation payload := (list ascii).

Module ImageFile.
Record t : Type := mk {
  name : string;
  type : string;
  size : nat;
  lastModified : Z;
  dataURL : option payload
}.
End ImageFile.

(** The value stored under an image name in [folder.annotations]. *)
Module AnnotationEntry.
Record t : Type := mk {
  imageName : string;
  textRegions : option (list Annotation.t)
}.
End AnnotationEntry.

Module Metadata.
Record t : Type := mk {
  totalImages : nat;
  processedImages : nat;
  calibratedImages : nat
}.
End Metadata.

(** A folder object as the application passes it around: every field may be
    absent. *)
Module Folder.
Record t : Type := mk {
  id : option Z;
  name : option string;
  folderName : option string;
  status : option string;
  imageFiles : option (list ImageFile.t);
  ocrResults : option (gmap string OcrResult.t);
  annotations : option (gmap string AnnotationEntry.t);
  createdAt : option string;
  updatedAt : option string;
  metadata : option Metadata.t
}.
End Folder.

(* ===================================================================== *)
(** ** js/storage.js: StorageManager *)
(* ===================================================================== *)

Module StorageManager.

(** A record of the [folders] object store, without its key. *)
Record FolderRecord : Type := mkFolderRecord {
  folderName : option string;
  status : string;
  imageFiles : list ImageFile.t;
  ocrResults : gmap string OcrResult.t;
  annotations : gmap string AnnotationEntry.t;
  createdAt : string;
  updatedAt : string;
  metadata : Metadata.t
}.

(** The [folders] object store ([keyPath: 'id', autoIncrement: true]): its
    records by key and the current value of its key generator. *)
Record DB : Type := mkDB {
  folders : gmap Z FolderRecord;
  keyGenerator : Z
}.

Definition emptyDB : DB := mkDB ∅ 1.

Inductive error : Type :=
| DatabaseNotInitialised
| FolderNotFound
| TypeError
| ConstraintError.

(** Settlement of a promise. *)
Inductive outcome (A : Type) : Type :=
| Resolved (a : A)
| Rejected (e : error).
Arguments Resolved {A} a.
Arguments Rejected {A} e.

(** The object a read of the store returns: the record with its key in
    [id].  It has no [name] field. *)
Definition to_folder (id : Z) (r : FolderRecord) : Folder.t :=
  Folder.mk (Some id) None (folderName r) (Some (status r))
    (Some (imageFiles r)) (Some (ocrResults r)) (Some (annotations r))
    (Some (createdAt r)) (Some (updatedAt r)) (Some (metadata r)).

(** The last key a key generator hands out: once its current number has
    passed [2^53], generating a key fails. *)
Definition maxGeneratedKey : Z := 2 ^ 53.

(** [store.put(record)] with an explicit key.  The key generator is moved
    past the key, capped at [2^53], when it is not beyond it already. *)
Definition store_put (db : DB) (key : Z) (r : FolderRecord) : DB :=
  let value := Z.min key maxGeneratedKey in
  mkDB (<[key := r]> (folders db))
       (if keyGenerator db <=? value then value + 1 else keyGenerator db).

(** [store.add(record)] without key: the key generator supplies it, and
    the request fails with a [ConstraintError] when the generator is
    exhausted or the key is taken. *)
Definition store_add (db : DB) (r : FolderRecord) : outcome (DB * Z) :=
  let key := keyGenerator db in
  if maxGeneratedKey <? key then Rejected ConstraintError
  else
  match folders db !! key with
  | Some _ => Rejected ConstraintError
  | None => Resolved (mkDB (<[key := r]> (folders db)) (key + 1), key)
  end.

(** [saveFolder(folderData)]; [now] is [new Date().toISOString()].  The
    result carries the new store, the key and the written record. *)
Definition saveFolder (db : option DB) (now : string) (folderData : Folder.t)
  : outcome (DB * Z * FolderRecord) :=
  match db with
  | None => Rejected DatabaseNotInitialised
  | Some db =>
      let folderRecord :=
        mkFolderRecord
          (Folder.name folderData)
          (or_string (Folder.status folderData) "unprocessed")
          (default [] (Folder.imageFiles folderData))
          (default ∅ (Folder.ocrResults folderData))
          (default ∅ (Folder.annotations folderData))
          (or_string (Folder.createdAt folderData) now)
          now
          (Metadata.mk
             (default 0%nat (length <$> Folder.imageFiles folderData))
             (size (default ∅ (Folder.ocrResults folderData)))
             (size (default ∅ (Folder.annotations folderData)))) in
      match Folder.id folderData with
      | Some id =>
          if id =? 0 then
            match store_add db folderRecord with
            | Resolved (db', key) => Resolved (db', key, folderRecord)
            | Rejected e => Rejected e
            end
          else Resolved (store_put db id folderRecord, id, folderRecord)
      | None =>
          match store_add db folderRecord with
          | Resolved (db', key) => Resolved (db', key, folderRecord)
          | Rejected e => Rejected e
          end
      end
  end.

(** [getFolderById(id)]. *)
Definition getFolderById (db : option DB) (id : Z)
  : outcome (option Folder.t) :=
  match db with
  | None => Rejected DatabaseNotInitialised
  | Some db => Resolved (to_folder id <$> folders db !! id)
  end.

(** [{ ...a, ...b }] on dictionaries: the entries of [b] win. *)
Definition spread {V : Type} (a b : gmap string V) : gmap string V := b ∪ a.

(** [updateFolderOCRResults(id, ocrResults)]; [now] is the time read by the
    function itself, [now_save] the one read by [saveFolder]. *)
Definition updateFolderOCRResults (db : option DB) (now now_save : string)
    (id : Z) (ocrResults : gmap string OcrResult.t)
  : outcome (DB * Z * FolderRecord) :=
  match getFolderById db id with
  | Rejected e => Rejected e
  | Resolved None => Rejected FolderNotFound
  | Resolved (Some folder) =>
      let merged := spread (default ∅ (Folder.ocrResults folder)) ocrResults in
      match Folder.metadata folder with
      | None => Rejected TypeError
      | Some metadata =>
          let metadata :=
            Metadata.mk (Metadata.totalImages metadata) (size merged)
                        (Metadata.calibratedImages metadata) in
          let status :=
            if (Metadata.processedImages metadata
                =? Metadata.totalImages metadata)%nat
            then Some "processed"%string
            else Folder.status folder in
          saveFolder db now_save
            (Folder.mk (Folder.id folder) (Folder.name folder)
               (Folder.folderName folder) status (Folder.imageFiles folder)
               (Some merged) (Folder.annotations folder)
               (Folder.createdAt folder) (Some now) (Some metadata))
      end
  end.

(** [updateFolderAnnotations(id, annotations)]. *)
Definition updateFolderAnnotations (db : option DB) (now now_save : string)
    (id : Z) (annotations : gmap string AnnotationEntry.t)
  : outcome (DB * Z * FolderRecord) :=
  match getFolderById db id with
  | Rejected e => Rejected e
  | Resolved None => Rejected FolderNotFound
  | Resolved (Some folder) =>
      let merged := spread (default ∅ (Folder.annotations folder)) annotations in
      match Folder.metadata folder with
      | None => Rejected TypeError
      | Some metadata =>
          let metadata :=
            Metadata.mk (Metadata.totalImages metadata)
                        (Metadata.processedImages metadata) (size merged) in
          saveFolder db now_save
            (Folder.mk (Folder.id folder) (Folder.name folder)
               (Folder.folderName folder) (Folder.status folder)
               (Folder.imageFiles folder) (Folder.ocrResults folder)
               (Some merged) (Folder.createdAt folder) (Some now)
               (Some metadata))
      end
  end.

(** [updateFolderStatus(id, status)]; [now] is the time read by the
    function itself, [now_save] the one read by [saveFolder]. *)
Definition updateFolderStatus (db : option DB) (now now_save : string)
    (id : Z) (status : string) : outcome (DB * Z * FolderRecord) :=
  match getFolderById db id with
  | Rejected e => Rejected e
  | Resolved None => Rejected FolderNotFound
  | Resolved (Some folder) =>
      saveFolder db now_save
        (Folder.mk (Folder.id folder) (Folder.name folder)
           (Folder.folderName folder) (Some status) (Folder.imageFiles folder)
           (Folder.ocrResults folder) (Folder.annotations folder)
           (Folder.createdAt folder) (Some now) (Folder.metadata folder))
  end.

(** [deleteFolder(id)]: [store.delete] succeeds whether or not the key is
    present, and leaves the key generator alone. *)
Definition deleteFolder (db : option DB) (id : Z) : outcome DB :=
  match db with
  | None => Rejected DatabaseNotInitialised
  | Some db => Resolved (mkDB (delete id (folders db)) (keyGenerator db))
  end.

(** [clearAllData()]: [store.clear] does not reset the key generator. *)
Definition clearAllData (db : option DB) : outcome DB :=
  match db with
  | None => Rejected DatabaseNotInitialised
  | Some db => Resolved (mkDB ∅ (keyGenerator db))
  end.

(** The object [getStatistics] returns. *)
Record Statistics : Type := mkStatistics {
  totalFolders : nat;
  unprocessedFolders : nat;
  processedFolders : nat;
  calibratedFolders : nat;
  totalImages : nat;
  processedImages : nat;
  calibratedImages : nat
}.

(** [folders.filter(f => f.status === status).length]. *)
Definition count_status (status : string) (folders : list Folder.t) : nat :=
  length (filter (fun f => Folder.status f = Some status) folders).

(** [folders.reduce((sum, f) => sum + f.metadata.<counter>, 0)]; reading a
    counter of an absent [metadata] throws. *)
Definition sum_counter (counter : Metadata.t -> nat) (folders : list Folder.t)
  : outcome nat :=
  fold_left (fun sum f =>
               match sum, Folder.metadata f with
               | Resolved sum, Some metadata => Resolved (sum + counter metadata)%nat
               | Resolved _, None => Rejected TypeError
               | Rejected e, _ => Rejected e
               end)
            folders (Resolved 0%nat).

(** [getStatistics()], applied to the array [getAllFolders()] resolves
    with. *)
Definition getStatistics (folders : list Folder.t) : outcome Statistics :=
  match sum_counter Metadata.totalImages folders,
        sum_counter Metadata.processedImages folders,
        sum_counter Metadata.calibratedImages folders with
  | Resolved totalImages, Resolved processedImages,
    Resolved calibratedImages =>
      Resolved (mkStatistics (length folders)
                  (count_status "unprocessed" folders)
                  (count_status "processed" folders)
                  (count_status "calibrated" folders)
                  totalImages processedImages calibratedImages)
  | Rejected e, _, _ | _, Rejected e, _ | _, _, Rejected e => Rejected e
  end.

(** An element of the array [importData] resolves with. *)
Inductive ImportResult : Type :=
| ImportSuccess (id : Z) (folder : FolderRecord)
| ImportFailure (e : error) (folder : Folder.t).

(** The loop of [importData(data)] over [data.folders]; [now i] is the time
    [saveFolder] reads for the folder at position [i].  A failing save is
    recorded and the loop goes on. *)
Fixpoint importData_loop (now : nat -> string) (i : nat)
    (folders : list Folder.t) (db : option DB) (results : list ImportResult)
  : list ImportResult * option DB :=
  match folders with
  | [] => (results, db)
  | folderData :: rest =>
      match saveFolder db (now i) folderData with
      | Resolved (db', id, r) =>
          importData_loop now (S i) rest (Some db')
            (results ++ [ImportSuccess id r])
      | Rejected e =>
          importData_loop now (S i) rest db
            (results ++ [ImportFailure e folderData])
      end
  end.

(** [importData(data)] for [data.folders] an array. *)
Definition importData (db : option DB) (now : nat -> string)
    (folders : list Folder.t) : list ImportResult * option DB :=
  importData_loop now 0 folders db [].

End StorageManager.

(* ===================================================================== *)
(** ** js/batch-processor.js: CalibrationApp *)
(* ===================================================================== *)

Module CalibrationApp.

(** [this.state], [this.imageInfo] and [this.drawingState] of the
    calibration page.  Painting the canvas and the text list is not part of
    the state. *)
Record t : Type := mk {
  folderData : option Folder.t;
  imageFiles : list ImageFile.t;
  currentImageIndex : nat;
  annotations : gmap string (list Annotation.t);
  hasChanges : bool;
  imageInfo : option ImageInfo;
  isDrawing : bool;
  startX : num;
  startY : num
}.

Definition set_annotations (app : t) (imageName : string)
    (l : list Annotation.t) : t :=
  mk (folderData app) (imageFiles app) (currentImageIndex app)
     (<[imageName := l]> (annotations app)) (hasChanges app)
     (imageInfo app) (isDrawing app) (startX app) (startY app).

Definition set_hasChanges (app : t) (b : bool) : t :=
  mk (folderData app) (imageFiles app) (currentImageIndex app)
     (annotations app) b
     (imageInfo app) (isDrawing app) (startX app) (startY app).

Definition set_isDrawing (app : t) (b : bool) : t :=
  mk (folderData app) (imageFiles app) (currentImageIndex app)
     (annotations app) (hasChanges app)
     (imageInfo app) b (startX app) (startY app).

Definition set_folderData (app : t) (fd : option Folder.t) : t :=
  mk fd (imageFiles app) (currentImageIndex app)
     (annotations app) (hasChanges app)
     (imageInfo app) (isDrawing app) (startX app) (startY app).

(** [this.state.imageFiles[this.state.currentImageIndex].name]; reading
    [.name] of [undefined] throws, which is [None] here. *)
Definition currentFileName (app : t) : option string :=
  ImageFile.name <$> imageFiles app !! currentImageIndex app.

(** [this.state.annotations.get(name) || []]. *)
Definition get_annotations (app : t) (imageName : string)
  : list Annotation.t :=
  default [] (annotations app !! imageName).

(** The callback of [words_result.map] in [loadImageAnnotations]. *)
Definition seedAnnotation (now : Z) (index : nat) (item : WordItem.t)
  : Annotation.t :=
  let location :=
    match WordItem.location item with
    | None =>
        if truthy_string (WordItem.words item) then
          Some (LocRect
                  (Rect.mk (num_of_Z (50 + Z.of_nat index * 120))
                           (num_of_Z (50 + Z.of_nat (index / 3) * 40))
                           (num_of_Z 100) (num_of_Z 30)))
        else None
    | Some (LocPoints ps) =>
        let xs := map px ps in
        let ys := map py ps in
        Some (LocRect
                (Rect.mk (Math_min xs) (Math_min ys)
                         (num_sub (Math_max xs) (Math_min xs))
                         (num_sub (Math_max ys) (Math_min ys))))
    | Some (LocRect r) => Some (LocRect r)
    end in
  Annotation.mk (now + Z.of_nat index)
    (Some (or_string (or_opt_string (WordItem.text item)
                        (WordItem.words item)) ""))
    location false.

(** [loadImageAnnotations(imageName)]: seeds the annotation list of an
    image from its OCR result when the list is empty.  Reading
    [this.state.folderData.ocrResults] before a folder is loaded throws;
    the [catch] block leaves the state as it is. *)
Definition loadImageAnnotations (now : Z) (imageName : string) (app : t) : t :=
  let annotations := get_annotations app imageName in
  if (length annotations =? 0)%nat then
    match folderData app ≫= Folder.ocrResults with
    | Some ocrResults =>
        match ocrResults !! imageName with
        | Some ocrResult =>
            match OcrResult.words_result ocrResult with
            | Some words =>
                if (0 <? length words)%nat then
                  set_annotations app imageName
                    (imap (seedAnnotation now) words)
                else app
            | None => app
            end
        | None => app
        end
    | None => app
    end
  else app.

(** [deleteAnnotation(annotationId)]. *)
Definition deleteAnnotation (annotationId : Z) (app : t) : t :=
  match currentFileName app with
  | None => app
  | Some currentFileName =>
      let annotations := get_annotations app currentFileName in
      let annotations :=
        filter (fun ann => Annotation.id ann ≠ annotationId) annotations in
      set_hasChanges (set_annotations app currentFileName annotations) true
  end.

(** [addNewTextItem()]; the save it triggers is [saveAllAnnotations]
    below. *)
Definition addNewTextItem (now : Z) (app : t) : t :=
  match currentFileName app with
  | None => app
  | Some currentFileName =>
      let annotations := get_annotations app currentFileName in
      let newAnnotation :=
        Annotation.mk now (Some ""%string)
          (Some (LocRect (Rect.mk (num_of_Z 50) (num_of_Z 50)
                                  (num_of_Z 100) (num_of_Z 30))))
          true in
      set_hasChanges
        (set_annotations app currentFileName (annotations ++ [newAnnotation]))
        true
  end.

(** [clearAllText()], [confirmed] being the answer to the dialog; the save
    it triggers is [saveAllAnnotations] below. *)
Definition clearAllText (confirmed : bool) (app : t) : t :=
  if confirmed then
    match currentFileName app with
    | None => app
    | Some currentFileName =>
        set_hasChanges (set_annotations app currentFileName []) true
    end
  else app.

(** [calculateRegion(startX, startY, endX, endY)]. *)
Definition calculateRegion (startX startY endX endY : num) : Rect.t :=
  Rect.mk (Math_min [startX; endX]) (Math_min [startY; endY])
          (Math_abs (num_sub endX startX)) (Math_abs (num_sub endY startY)).

(** [displayToOriginalCoords(displayRegion)] of the calibration page. *)
Definition displayToOriginalCoords
    (imageInfo : option ImageInfo) (displayRegion : Rect.t) : Rect.t :=
  match imageInfo with
  | None => displayRegion
  | Some info =>
      let scale := scale info in
      Rect.mk (Math_round (num_div (Rect.left displayRegion) scale))
              (Math_round (num_div (Rect.top displayRegion) scale))
              (Math_round (num_div (Rect.width displayRegion) scale))
              (Math_round (num_div (Rect.height displayRegion) scale))
  end.

(** [handleMouseDown(e)]; [x] and [y] are the pointer coordinates relative
    to the canvas. *)
Definition handleMouseDown (x y : num) (app : t) : t :=
  mk (folderData app) (imageFiles app) (currentImageIndex app)
     (annotations app) (hasChanges app) (imageInfo app) true x y.

(** [handleMouseUp(e)]; [x] and [y] are the pointer coordinates relative to
    the canvas. *)
Definition handleMouseUp (now : Z) (x y : num) (app : t) : t :=
  if negb (isDrawing app) then app
  else
    let app := set_isDrawing app false in
    let region := calculateRegion (startX app) (startY app) x y in
    if num_ltb (Rect.width region) (num_of_Z 10)
       || num_ltb (Rect.height region) (num_of_Z 10)
    then app
    else
      let originalRegion := displayToOriginalCoords (imageInfo app) region in
      match currentFileName app with
      | None => app
      | Some currentFileName =>
          let annotations := get_annotations app currentFileName in
          let newAnnotation :=
            Annotation.mk now (Some ""%string) (Some (LocRect originalRegion))
              true in
          set_hasChanges
            (set_annotations app currentFileName
               (annotations ++ [newAnnotation]))
            true
      end.

(** [wordsArray.find(word => word.id === annotation.id)] followed by the
    assignments to [text] and [words] of the word found. *)
Fixpoint update_word (annotationId : Z) (value : string)
    (wordsArray : list WordItem.t) : list WordItem.t :=
  match wordsArray with
  | [] => []
  | word :: rest =>
      if decide (WordItem.id word = Some annotationId) then
        WordItem.mk (Some value) (WordItem.text_region word) (Some value)
          (WordItem.location word) (WordItem.confidence word)
          (WordItem.id word) :: rest
      else word :: update_word annotationId value rest
  end.

(** The copy of [folderData] the [input] handler installs: the OCR word
    carrying the id of the edited annotation receives the new text. *)
Definition sync_folderData (currentFileName : string) (annotationId : Z)
    (value : string) (fd : Folder.t) : Folder.t :=
  match Folder.ocrResults fd with
  | Some ocrResults =>
      match ocrResults !! currentFileName with
      | Some ocrResult =>
          match OcrResult.words_result ocrResult with
          | Some wordsArray =>
              Folder.mk (Folder.id fd) (Folder.name fd) (Folder.folderName fd)
                (Folder.status fd) (Folder.imageFiles fd)
                (Some (<[currentFileName :=
                           OcrResult.mk (OcrResult.words_result_num ocrResult)
                             (Some (update_word annotationId value wordsArray))]>
                         ocrResults))
                (Folder.annotations fd) (Folder.createdAt fd)
                (Folder.updatedAt fd) (Folder.metadata fd)
          | None => fd
          end
      | None => fd
      end
  | None => fd
  end.

(** The [input] handler of the text area bound to the annotation shown at
    position [index] of the current list: it replaces the text of that
    annotation and synchronises [folderData]. *)
Definition editAnnotationText (index : nat) (value : string) (app : t) : t :=
  match currentFileName app with
  | None => app
  | Some currentFileName =>
      match annotations app !! currentFileName with
      | None => app
      | Some l =>
          match l !! index with
          | None => app
          | Some ann =>
              let ann' :=
                Annotation.mk (Annotation.id ann) (Some value)
                  (Annotation.region ann) (Annotation.isManual ann) in
              let app :=
                set_hasChanges
                  (set_annotations app currentFileName (<[index := ann']> l))
                  true in
              set_folderData app
                (sync_folderData currentFileName (Annotation.id ann) value
                   <$> folderData app)
          end
      end
  end.

(** The state the constructor builds. *)
Definition initial : t :=
  mk None [] 0 ∅ false None false (num_of_Z 0) (num_of_Z 0).

(** [loadFolderData(folderId)] up to the loading of the first image: the
    folder read from the store becomes [folderData], its images and saved
    annotation lists are installed.  A missing folder or an uninitialised
    store ends in the [catch] block, which leaves the state as it is. *)
Definition loadFolderData (db : option StorageManager.DB) (folderId : Z)
    (app : t) : t :=
  match StorageManager.getFolderById db folderId with
  | StorageManager.Resolved (Some folderData) =>
      mk (Some folderData) (default [] (Folder.imageFiles folderData))
         (currentImageIndex app)
         (match Folder.annotations folderData with
          | Some entries =>
              ((fun annotation =>
                  default [] (AnnotationEntry.textRegions annotation))
                 <$> entries) ∪ annotations app
          | None => annotations app
          end)
         (hasChanges app) (imageInfo app) (isDrawing app) (startX app)
         (startY app)
  | _ => app
  end.

(** [saveAllAnnotations()]: every image of the folder receives an entry
    with its current list (empty when it has none), the two name fields are
    made equal, and the folder is saved; a failing save is only logged.
    The result is the new state and the new store. *)
Definition saveAllAnnotations (db : option StorageManager.DB) (now : string)
    (app : t) : t * option StorageManager.DB :=
  match folderData app with
  | None => (app, db)
  | Some fd =>
      let allAnnotations :=
        fold_left (fun all imageFile =>
                     let fileName := ImageFile.name imageFile in
                     <[fileName :=
                         AnnotationEntry.mk fileName
                           (Some (get_annotations app fileName))]> all)
                  (imageFiles app) ∅ in
      let finalName :=
        if negb (truthy_string (Folder.name fd))
           && negb (truthy_string (Folder.folderName fd))
        then "未命名文件夹"%string
        else or_string (Folder.name fd) (or_string (Folder.folderName fd) "") in
      let fd :=
        Folder.mk (Folder.id fd) (Some finalName) (Some finalName)
          (Folder.status fd) (Folder.imageFiles fd) (Folder.ocrResults fd)
          (Some allAnnotations) (Folder.createdAt fd) (Folder.updatedAt fd)
          (Folder.metadata fd) in
      let db :=
        match StorageManager.saveFolder db now fd with
        | StorageManager.Resolved (db', _, _) => Some db'
        | StorageManager.Rejected _ => db
        end in
      (mk (Some fd) (imageFiles app) (currentImageIndex app)
          (annotations app) false (imageInfo app) (isDrawing app)
          (startX app) (startY app),
       db)
  end.

(** [completeCalibration()]: all lists are saved, then the folder is saved
    once more with status ['calibrated']; [now] and [now'] are the times of
    the two saves. *)
Definition completeCalibration (db : option StorageManager.DB)
    (now now' : string) (app : t) : t * option StorageManager.DB :=
  match folderData app with
  | None => (app, db)
  | Some _ =>
      let '(app, db) := saveAllAnnotations db now app in
      match folderData app with
      | None => (app, db)
      | Some fd =>
          let fd :=
            Folder.mk (Folder.id fd) (Folder.name fd) (Folder.folderName fd)
              (Some "calibrated"%string) (Folder.imageFiles fd)
              (Folder.ocrResults fd) (Folder.annotations fd)
              (Folder.createdAt fd) (Folder.updatedAt fd)
              (Folder.metadata fd) in
          (set_folderData app (Some fd),
           match StorageManager.saveFolder db now' fd with
           | StorageManager.Resolved (db', _, _) => Some db'
           | StorageManager.Rejected _ => db
           end)
      end
  end.


(** [saveCurrentAnnotations()]: nothing happens without pending changes;
    otherwise the list of the current image is written into the folder
    object and the folder is saved.  A failing save, or a read of an absent
    current image or folder, ends in the [catch] block, which leaves
    [hasChanges] set. *)
Definition saveCurrentAnnotations (db : option StorageManager.DB)
    (now : string) (app : t) : t * option StorageManager.DB :=
  if negb (hasChanges app) then (app, db)
  else
    match currentFileName app with
    | None => (app, db)
    | Some currentFileName =>
        match folderData app with
        | None => (app, db)
        | Some fd =>
            let annotations := get_annotations app currentFileName in
            let fd :=
              Folder.mk (Folder.id fd) (Folder.name fd) (Folder.folderName fd)
                (Folder.status fd) (Folder.imageFiles fd)
                (Folder.ocrResults fd)
                (Some (<[currentFileName :=
                           AnnotationEntry.mk currentFileName
                             (Some annotations)]>
                         (default ∅ (Folder.annotations fd))))
                (Folder.createdAt fd) (Folder.updatedAt fd)
                (Folder.metadata fd) in
            let app := set_folderData app (Some fd) in
            match StorageManager.saveFolder db now fd with
            | StorageManager.Resolved (db', _, _) =>
                (set_hasChanges app false, Some db')
            | StorageManager.Rejected _ => (app, db)
            end
        end
    end.

End CalibrationApp.

(* ===================================================================== *)
(** ** Main controller: OCRAnnotationTool *)
(* ===================================================================== *)

Module OCRAnnotationTool.

Record t : Type := mk {
  imageFiles : list ImageFile.t;
  currentImageIndex : nat;
  ocrResults : gmap string OcrResult.t;
  annotations : gmap string (list Annotation.t)
}.

Definition set_annotations (app : t) (imageName : string)
    (l : list Annotation.t) : t :=
  mk (imageFiles app) (currentImageIndex app) (ocrResults app)
     (<[imageName := l]> (annotations app)).

Definition currentFileName (app : t) : option string :=
  ImageFile.name <$> imageFiles app !! currentImageIndex app.

Definition get_annotations (app : t) (imageName : string)
  : list Annotation.t :=
  default [] (annotations app !! imageName).

(** [generateDefaultRegion(index)]. *)
Definition generateDefaultRegion (index : nat) : Rect.t :=
  let boxHeight := 30 in
  let boxWidth := 200 in
  let startY := 50 + Z.of_nat index * (boxHeight + 10) in
  Rect.mk (num_of_Z 50) (num_of_Z startY)
          (num_of_Z boxWidth) (num_of_Z boxHeight).

(** [displayOCRResults(ocrResult)]. *)
Definition displayOCRResults (now : Z) (ocrResult : option OcrResult.t)
    (app : t) : t :=
  match ocrResult with
  | None => app
  | Some ocrResult =>
      match OcrResult.words_result ocrResult with
      | None => app
      | Some words =>
          match currentFileName app with
          | None => app
          | Some currentFileName =>
              let annotations := get_annotations app currentFileName in
              if (length annotations =? 0)%nat then
                set_annotations app currentFileName
                  (imap (fun index item =>
                           Annotation.mk (now + Z.of_nat index)
                             (WordItem.words item)
                             (Some (default
                                      (LocRect (generateDefaultRegion index))
                                      (WordItem.location item)))
                             false)
                        words)
              else app
          end
      end
  end.

(** [addNewTextBox()]. *)
Definition addNewTextBox (now : Z) (app : t) : t :=
  match currentFileName app with
  | None => app
  | Some currentFileName =>
      let annotations := get_annotations app currentFileName in
      let newAnnotation :=
        Annotation.mk now (Some ""%string)
          (Some (LocRect (generateDefaultRegion (length annotations)))) true in
      set_annotations app currentFileName (annotations ++ [newAnnotation])
  end.

(** [annotations.find(ann => ann.id === annotationId)] followed by the
    assignment to [annotation.text]. *)
Fixpoint update_first (annotationId : Z) (newText : string)
    (l : list Annotation.t) : option (list Annotation.t) :=
  match l with
  | [] => None
  | ann :: l' =>
      if decide (Annotation.id ann = annotationId) then
        Some (Annotation.mk (Annotation.id ann) (Some newText)
                (Annotation.region ann) (Annotation.isManual ann) :: l')
      else (fun r => ann :: r) <$> update_first annotationId newText l'
  end.

(** [updateAnnotationText(annotationId, newText)]. *)
Definition updateAnnotationText (annotationId : Z) (newText : string)
    (app : t) : t :=
  match currentFileName app with
  | None => app
  | Some currentFileName =>
      match update_first annotationId newText
              (get_annotations app currentFileName) with
      | Some l => set_annotations app currentFileName l
      | None => app
      end
  end.

(** [deleteAnnotation(annotationId)]. *)
Definition deleteAnnotation (annotationId : Z) (app : t) : t :=
  match currentFileName app with
  | None => app
  | Some currentFileName =>
      let annotations := get_annotations app currentFileName in
      set_annotations app currentFileName
        (filter (fun ann => Annotation.id ann ≠ annotationId) annotations)
  end.

(** [navigateImage(direction)]; loading the image that becomes current
    changes the canvas and the page, not [this.state]. *)
Definition navigateImage (direction : Z) (app : t) : t :=
  let newIndex := Z.of_nat (currentImageIndex app) + direction in
  if (0 <=? newIndex) && (newIndex <? Z.of_nat (length (imageFiles app)))
  then mk (imageFiles app) (Z.to_nat newIndex) (ocrResults app)
          (annotations app)
  else app.

End OCRAnnotationTool.

(* ===================================================================== *)
(** ** js/progress-manager.js: OptimizedStorageManager *)
(* ===================================================================== *)

Module ChunkMeta.
Record t : Type := mk { type : string; size : nat; lastModified : Z }.
End ChunkMeta.

(** A record of the [imageChunks] object store. *)
Module ChunkRecord.
Record t : Type := mk {
  id : string;
  folderId : Z;
  imageName : string;
  imageIndex : nat;
  chunkIndex : nat;
  totalChunks : nat;
  data : payload;
  metadata : ChunkMeta.t;
  createdAt : Z
}.
End ChunkRecord.

(** An image rebuilt from its chunks. *)
Module StoredImage.
Record t : Type := mk {
  name : string;
  type : string;
  size : nat;
  lastModified : Z;
  dataURL : payload;
  originalIndex : nat
}.
End StoredImage.

(** [array.sort((a, b) => key(a) - key(b))]: the stable sort by [key]. *)
Section StableSort.
Context {A : Type} (key : A -> nat).

Fixpoint sort_insert (x : A) (l : list A) : list A :=
  match l with
  | [] => [x]
  | y :: l' =>
      if (key x <=? key y)%nat then x :: y :: l' else y :: sort_insert x l'
  end.

Fixpoint sort_by (l : list A) : list A :=
  match l with
  | [] => []
  | x :: l' => sort_insert x (sort_by l')
  end.

End StableSort.

(** A record of the [annotations] object store of the optimised manager. *)
Module AnnotationRecord.
Record t : Type := mk {
  id : string;
  folderId : Z;
  imageName : string;
  data : AnnotationEntry.t;
  lastModified : Z
}.
End AnnotationRecord.

Module OptimizedStorageManager.

Inductive error : Type :=
| TypeError
| TransactionInactiveError.

(** Completion of a block that may throw. *)
Inductive completion (A : Type) : Type :=
| Normal (a : A)
| Throw (e : error).
Arguments Normal {A} a.
Arguments Throw {A} e.

(** [this.config.chunkSize]. *)
Definition config_chunkSize : nat := 1024 * 1024.

(** [Math.ceil(a / b)] on lengths, for [b > 0]. *)
Definition ceil_div (a b : nat) : nat :=
  if (a mod b =? 0)%nat then (a / b)%nat else S (a / b).

(** [s.slice(start, end)] for [0 <= start] and [0 <= end]. *)
Definition slice (start end_ : nat) (s : payload) : payload :=
  take (end_ - start) (drop start s).

(** The template literal [`${folderId}_${image.name}_${chunkIndex}`]. *)
Definition chunk_id (folderId : Z) (name : string) (chunkIndex : nat)
  : string :=
  (pretty folderId +:+ "_" +:+ name +:+ "_" +:+ pretty chunkIndex)%string.

(** The records one call of [saveImageInChunks] builds, in the order of
    the loop; [dataURL] is [image.dataURL], [now i] the value of [Date.now()]
    when chunk [i] is built. *)
Definition image_chunks (chunkSize : nat) (now : nat -> Z) (folderId : Z)
    (image : ImageFile.t) (dataURL : payload) (imageIndex : nat)
  : list ChunkRecord.t :=
  let totalChunks := ceil_div (length dataURL) chunkSize in
  map (fun chunkIndex =>
         let start := (chunkIndex * chunkSize)%nat in
         let end_ := Nat.min (start + chunkSize) (length dataURL) in
         let chunkData := slice start end_ dataURL in
         ChunkRecord.mk
           (chunk_id folderId (ImageFile.name image) chunkIndex)
           folderId (ImageFile.name image) imageIndex chunkIndex totalChunks
           chunkData
           (ChunkMeta.mk (ImageFile.type image) (ImageFile.size image)
                         (ImageFile.lastModified image))
           (now chunkIndex))
      (seq 0 totalChunks).

(** [deleteImageChunks(folderId, imageName)] on the records of the store. *)
Definition deleteImageChunks (folderId : Z) (imageName : string)
    (store : list ChunkRecord.t) : list ChunkRecord.t :=
  filter (fun chunk =>
            ~ (ChunkRecord.folderId chunk = folderId
               /\ ChunkRecord.imageName chunk = imageName))
         store.

(** [store.add(chunkRecord)] as [saveImageInChunks] issues it.  The
    [store] it is handed belongs to the transaction [processBatchImages]
    opened, through which no request has been made.  A transaction is
    active only while the task that created it, or a callback of one of its
    own requests, runs: once [await this.deleteImageChunks(...)] has
    returned, in a callback of the transaction that deleted, the first
    transaction is no longer active, and [add] throws before anything is
    written. *)
Definition add_after_await (chunkRecord : ChunkRecord.t) : completion unit :=
  Throw TransactionInactiveError.

(** The [for] loop of [saveImageInChunks] over the chunk records, in the
    order in which they are built: it ends with the first call that
    throws. *)
Fixpoint add_chunks (chunkRecords : list ChunkRecord.t) : completion unit :=
  match chunkRecords with
  | [] => Normal tt
  | chunkRecord :: rest =>
      match add_after_await chunkRecord with
      | Normal _ => add_chunks rest
      | Throw e => Throw e
      end
  end.

(** [saveImageInChunks(store, folderId, image, imageIndex)], with
    [image.dataURL] passed as [dataURL]: the old chunks of the image are
    deleted, in a transaction of their own, then the new ones are added
    through the transaction of the caller.  The result is the store the
    call leaves and how the call ends. *)
Definition saveImageInChunks (chunkSize : nat) (now : nat -> Z)
    (folderId : Z) (image : ImageFile.t) (dataURL : payload) (imageIndex : nat)
    (store : list ChunkRecord.t) : list ChunkRecord.t * completion unit :=
  let store := deleteImageChunks folderId (ImageFile.name image) store in
  (store,
   add_chunks (image_chunks chunkSize now folderId image dataURL imageIndex)).

(** [processBatchImages(folderId, imageBatch, startIndex)]: an image
    without data URL, or with an empty one, is passed over; a save that
    throws rejects the call, and the images after it are not looked at. *)
Fixpoint processBatchImages (chunkSize : nat) (now : nat -> Z)
    (folderId : Z) (imageBatch : list ImageFile.t) (startIndex : nat)
    (store : list ChunkRecord.t) : list ChunkRecord.t * completion unit :=
  match imageBatch with
  | [] => (store, Normal tt)
  | image :: rest =>
      match ImageFile.dataURL image with
      | Some (c :: s) =>
          match saveImageInChunks chunkSize now folderId image (c :: s)
                  startIndex store with
          | (store, Normal _) =>
              processBatchImages chunkSize now folderId rest (S startIndex)
                store
          | (store, Throw e) => (store, Throw e)
          end
      | _ => processBatchImages chunkSize now folderId rest (S startIndex) store
      end
  end.

(** The body of the [try] block of [reconstructImageFromChunks]. *)
Definition reconstruct_body (imageName : string) (chunks : list ChunkRecord.t)
  : completion (option StoredImage.t) :=
  let chunks := sort_by ChunkRecord.chunkIndex chunks in
  match chunks with
  | [] => Throw TypeError
  | first :: _ =>
      let totalChunks := ChunkRecord.totalChunks first in
      if negb (length chunks =? totalChunks)%nat then Normal None
      else
        let dataURL := concat (map ChunkRecord.data chunks) in
        let metadata := ChunkRecord.metadata first in
        Normal (Some (StoredImage.mk imageName
                        (ChunkMeta.type metadata) (ChunkMeta.size metadata)
                        (ChunkMeta.lastModified metadata) dataURL
                        (ChunkRecord.imageIndex first)))
  end.

(** [reconstructImageFromChunks(imageName, chunks)]: whatever the body
    throws is caught and becomes [null]. *)
Definition reconstructImageFromChunks (imageName : string)
    (chunks : list ChunkRecord.t) : option StoredImage.t :=
  match reconstruct_body imageName chunks with
  | Normal r => r
  | Throw _ => None
  end.

(** The [Map] from image name to chunk array built by the cursor loop, in
    insertion order. *)
Fixpoint chunks_push (imageName : string) (chunk : ChunkRecord.t)
    (chunks : list (string * list ChunkRecord.t))
  : list (string * list ChunkRecord.t) :=
  match chunks with
  | [] => [(imageName, [chunk])]
  | (k, cs) :: rest =>
      if decide (k = imageName) then (k, cs ++ [chunk]) :: rest
      else (k, cs) :: chunks_push imageName chunk rest
  end.

Definition group_chunks (cursor : list ChunkRecord.t)
  : list (string * list ChunkRecord.t) :=
  fold_left (fun chunks chunk =>
               chunks_push (ChunkRecord.imageName chunk) chunk chunks)
            cursor [].

(** [{ start, count }]. *)
Record Range : Type := mkRange { range_start : nat; range_count : nat }.

Definition in_range (range : option Range)
    (imageChunks : list ChunkRecord.t) : completion bool :=
  match range with
  | None => Normal true
  | Some range =>
      match imageChunks with
      | [] => Throw TypeError
      | first :: _ =>
          let imageIndex := ChunkRecord.imageIndex first in
          Normal (negb ((imageIndex <? range_start range)%nat
                        || (range_start range + range_count range
                            <=? imageIndex)%nat))
      end
  end.

(** The loop over the entries of the map in [getImageFiles]. *)
Fixpoint collect_images (range : option Range)
    (chunks : list (string * list ChunkRecord.t))
  : completion (list StoredImage.t) :=
  match chunks with
  | [] => Normal []
  | (imageName, imageChunks) :: rest =>
      match in_range range imageChunks with
      | Throw e => Throw e
      | Normal false => collect_images range rest
      | Normal true =>
          match collect_images range rest with
          | Throw e => Throw e
          | Normal imageFiles =>
              match reconstructImageFromChunks imageName imageChunks with
              | Some reconstructed => Normal (reconstructed :: imageFiles)
              | None => Normal imageFiles
              end
          end
      end
  end.

(** [getImageFiles(folderId, range)] on the records of the [imageChunks]
    store, listed in the order in which a cursor visits them.  [Normal] is
    a resolved promise; a thrown exception would leave it unsettled. *)
Definition getImageFiles (store : list ChunkRecord.t) (folderId : Z)
    (range : option Range) : completion (list StoredImage.t) :=
  let cursor :=
    filter (fun chunk => ChunkRecord.folderId chunk = folderId) store in
  match collect_images range (group_chunks cursor) with
  | Throw e => Throw e
  | Normal imageFiles =>
      Normal (sort_by StoredImage.originalIndex imageFiles)
  end.

(** The template literal [`${folderId}_${imageName}`]. *)
Definition annotation_id (folderId : Z) (imageName : string) : string :=
  (pretty folderId +:+ "_" +:+ imageName)%string.

(** The record [saveAnnotationData] builds for one entry of the
    [annotations] object; [now name] is the value of [Date.now()] when the
    record of image [name] is built. *)
Definition annotation_record (now : string -> Z) (folderId : Z)
    (entry : string * AnnotationEntry.t) : AnnotationRecord.t :=
  let imageName := fst entry in
  AnnotationRecord.mk (annotation_id folderId imageName) folderId imageName
    (snd entry) (now imageName).

(** The loop of [saveAnnotationData] over the entries of the object: each
    record is put under its id. *)
Definition put_annotations (now : string -> Z) (folderId : Z)
    (entries : list (string * AnnotationEntry.t))
    (store : gmap string AnnotationRecord.t) : gmap string AnnotationRecord.t :=
  fold_left
    (fun store entry =>
       let record := annotation_record now folderId entry in
       <[AnnotationRecord.id record := record]> store)
    entries store.

(** [saveAnnotationData(folderId, annotations)] on the [annotations] store,
    a map from record id to record.  Nothing is written for an absent or
    empty object. *)
Definition saveAnnotationData (now : string -> Z) (folderId : Z)
    (annotations : option (gmap string AnnotationEntry.t))
    (store : gmap string AnnotationRecord.t) : gmap string AnnotationRecord.t :=
  match annotations with
  | None => store
  | Some annotations =>
      if (size annotations =? 0)%nat then store
      else put_annotations now folderId (map_to_list annotations) store
  end.

(** [getAnnotationData(folderId)] on the records of the [annotations]
    store, listed in the order in which a cursor visits them. *)
Definition getAnnotationData (cursor : list AnnotationRecord.t) (folderId : Z)
  : gmap string AnnotationEntry.t :=
  fold_left
    (fun annotations record =>
       <[AnnotationRecord.imageName record := AnnotationRecord.data record]>
         annotations)
    (filter (fun record => AnnotationRecord.folderId record = folderId) cursor)
    ∅.

(** [this.config.maxMemoryCache]. *)
Definition config_maxMemoryCache : nat := 50.

Section MemoryCache.
Context {D : Type}.

(** A value of [this.memoryCache]. *)
Record CacheEntry : Type := mkCacheEntry { cache_data : D; timestamp : Z }.

(** [cache.get(key)], [cache.delete(key)] and [cache.set(key, entry)] on the
    [Map], in insertion order. *)
Fixpoint cache_get (key : string) (cache : list (string * CacheEntry))
  : option CacheEntry :=
  match cache with
  | [] => None
  | (k, e) :: rest => if decide (k = key) then Some e else cache_get key rest
  end.

Definition cache_delete (key : string) (cache : list (string * CacheEntry))
  : list (string * CacheEntry) :=
  filter (fun p => fst p <> key) cache.

Fixpoint cache_set (key : string) (entry : CacheEntry)
    (cache : list (string * CacheEntry)) : list (string * CacheEntry) :=
  match cache with
  | [] => [(key, entry)]
  | (k, e) :: rest =>
      if decide (k = key) then (k, entry) :: rest
      else (k, e) :: cache_set key entry rest
  end.

(** [updateMemoryCache(key, data)]; [now] is the value of [Date.now()].  On
    an empty map [keys().next().value] is [undefined], and deleting it does
    nothing. *)
Definition updateMemoryCache (maxMemoryCache : nat) (now : Z) (key : string)
    (data : D) (cache : list (string * CacheEntry))
  : list (string * CacheEntry) :=
  let cache :=
    if (maxMemoryCache <=? length cache)%nat then
      match cache with
      | (firstKey, _) :: _ => cache_delete firstKey cache
      | [] => cache
      end
    else cache in
  cache_set key (mkCacheEntry data now) cache.

End MemoryCache.

Section Pagination.
Context {F : Type}.

(** The cursor loop of [getAllFolders(options)]: [passes] is the test
    [!filter || this.applyFilter(folder, filter)], [cursor] the folders in
    the order in which the index cursor visits them. *)
Fixpoint page_loop (page pageSize : nat) (passes : F -> bool)
    (cursor : list F) (results : list F) (skipped collected : nat) : list F :=
  match cursor with
  | [] => results
  | folder :: rest =>
      if (collected <? pageSize)%nat then
        if passes folder then
          if (page * pageSize <=? skipped)%nat then
            page_loop page pageSize passes rest (results ++ [folder]) skipped
              (S collected)
          else
            page_loop page pageSize passes rest results (S skipped) collected
        else page_loop page pageSize passes rest results skipped collected
      else results
  end.

(** [getAllFolders({ page, pageSize, filter })]. *)
Definition getAllFolders (page pageSize : nat) (passes : F -> bool)
    (cursor : list F) : list F :=
  page_loop page pageSize passes cursor [] 0 0.

End Pagination.

End OptimizedStorageManager.

(* ===================================================================== *)
(** ** [JSON.stringify] on arrays of texts *)
(* ===================================================================== *)

Module JSON.

Definition dquote : ascii := "034"%char.
Definition backslash : ascii := "092"%char.

Definition hex_digit (n : N) : ascii :=
  match n with
  | 0 => "0" | 1 => "1" | 2 => "2" | 3 => "3" | 4 => "4" | 5 => "5"
  | 6 => "6" | 7 => "7" | 8 => "8" | 9 => "9" | 10 => "a" | 11 => "b"
  | 12 => "c" | 13 => "d" | 14 => "e" | _ => "f"
  end%N%char.

(** The escape sequence of one character inside a JSON string. *)
Definition quote_char (c : ascii) : string :=
  let n := N_of_ascii c in
  if (n =? 8)%N then String backslash "b"
  else if (n =? 9)%N then String backslash "t"
  else if (n =? 10)%N then String backslash "n"
  else if (n =? 12)%N then String backslash "f"
  else if (n =? 13)%N then String backslash "r"
  else if (n =? 34)%N then String backslash (String dquote "")
  else if (n =? 92)%N then String backslash (String backslash "")
  else if (n <? 32)%N then
    String backslash
      (String "u" (String "0" (String "0"
         (String (hex_digit (n / 16)) (String (hex_digit (n mod 16)) "")))))
  else String c "".

Fixpoint escape (s : string) : string :=
  match s with
  | EmptyString => ""
  | String c s' => quote_char c +:+ escape s'
  end.

(** A string element is quoted; [undefined] inside an array becomes
    [null]. *)
Definition element (x : option string) : string :=
  match x with
  | Some s => String dquote (escape s +:+ String dquote "")
  | None => "null"
  end.

Fixpoint elements (l : list (option string)) : string :=
  match l with
  | [] => ""
  | [x] => element x
  | x :: l' => element x +:+ "," +:+ elements l'
  end.

(** [JSON.stringify(a)] for [a] an array of texts or [undefined]; the
    latter gives [undefined]. *)
Definition stringify (a : option (list (option string))) : option string :=
  match a with
  | Some l => Some ("[" +:+ elements l +:+ "]")
  | None => None
  end.

End JSON.

(* ===================================================================== *)
(** ** js/dashboard.js: DashboardManager *)
(* ===================================================================== *)

Module DashboardManager.

Inductive Position : Type :=
| PosLocation (l : Location)
| PosBBox (b : BBox).

Record OcrRegion : Type := mkOcrRegion {
  ocr_text : string;
  ocr_position : Position;
  ocr_confidence : num
}.

Record OriginalOCR : Type := mkOriginalOCR {
  original_confidence : string;
  original_textRegions : list OcrRegion
}.

Record CalibratedRegion : Type := mkCalibratedRegion {
  cal_text : string;
  cal_position : option Location;
  cal_source : string;
  isManuallyAdded : bool
}.

Record CalibratedText : Type := mkCalibratedText {
  calibrated_confidence : string;
  calibrated_textRegions : list CalibratedRegion;
  fullText : string
}.

Record Modifications : Type := mkModifications {
  textChanged : bool;
  annotationsAdded : Z;
  annotationsDeleted : Z;
  totalEdits : Z
}.

Record ImageData : Type := mkImageData {
  originalOCR : option OriginalOCR;
  calibratedText : option CalibratedText;
  modifications : Modifications
}.

Record FolderInfo : Type := mkFolderInfo {
  info_name : option string;
  info_status : option string;
  info_totalImages : nat;
  processedAt : option string;
  calibratedAt : option string
}.

Record ExportResult : Type := mkExportResult {
  folderInfo : FolderInfo;
  images : gmap string ImageData
}.

(** [l.join(sep)] on strings. *)
Fixpoint join (sep : string) (l : list string) : string :=
  match l with
  | [] => ""
  | [x] => x
  | x :: l' => x +:+ sep +:+ join sep l'
  end.

Fixpoint trim_start (s : string) : string :=
  match s with
  | EmptyString => ""
  | String c s' => if Ascii.is_space c then trim_start s' else s
  end.

(** [s.trim()]. *)
Definition trim (s : string) : string :=
  String.rev (trim_start (String.rev (trim_start s))).

(** The [originalOCR] member built from [folder.ocrResults[imageName]]. *)
Definition export_originalOCR (ocrResult : OcrResult.t) : OriginalOCR :=
  mkOriginalOCR "OCR自动识别"
    (default []
       (map (fun item =>
               mkOcrRegion
                 (or_string (or_opt_string (WordItem.text item)
                               (WordItem.words item)) "")
                 (match WordItem.location item with
                  | Some l => PosLocation l
                  | None => PosBBox (WordItem.text_region item)
                  end)
                 (or_num (WordItem.confidence item) (Fin (8 # 10))))
          <$> OcrResult.words_result ocrResult)).

(** The [calibratedText] member built from the annotation list. *)
Definition export_calibratedText (textRegions : list Annotation.t)
  : CalibratedText :=
  mkCalibratedText "人工校准确认"
    (map (fun region =>
            mkCalibratedRegion
              (or_string (Annotation.text region) "")
              (Annotation.region region)
              (if Annotation.isManual region then "手动添加" else "OCR+校准")
              (Annotation.isManual region))
         textRegions)
    (trim (join " " (map (fun r => or_string (Annotation.text r) "")
                         textRegions))).

(** The [modifications] member computed when the image has an annotation
    entry. *)
Definition export_modifications (originalOCR : option OriginalOCR)
    (textRegions : list Annotation.t) : Modifications :=
  let originalCount :=
    Z.of_nat (default 0%nat
                (length <$> (original_textRegions <$> originalOCR))) in
  let calibratedCount := Z.of_nat (length textRegions) in
  let manualCount :=
    Z.of_nat (length (filter (fun r => Annotation.isManual r = true)
                             textRegions)) in
  mkModifications
    (negb (originalCount =? calibratedCount)
     || negb (bool_decide
                (JSON.stringify
                   (map (fun r => Some (ocr_text r))
                      <$> (original_textRegions <$> originalOCR))
                 = JSON.stringify
                     (Some (map Annotation.text
                              (filter (fun r => Annotation.isManual r = false)
                                      textRegions))))))
    manualCount
    (Z.max 0 (originalCount - (calibratedCount - manualCount)))
    (Z.abs (originalCount - calibratedCount) + manualCount).

(** The record built for one image by the callback of
    [folder.imageFiles.forEach]. *)
Definition export_image (folder : Folder.t) (imageName : string) : ImageData :=
  let originalOCR :=
    match Folder.ocrResults folder with
    | Some ocrResults => export_originalOCR <$> ocrResults !! imageName
    | None => None
    end in
  match Folder.annotations folder with
  | Some annotations =>
      match annotations !! imageName with
      | Some annotation =>
          let textRegions :=
            default [] (AnnotationEntry.textRegions annotation) in
          mkImageData originalOCR
            (Some (export_calibratedText textRegions))
            (export_modifications originalOCR textRegions)
      | None => mkImageData originalOCR None (mkModifications false 0 0 0)
      end
  | None => mkImageData originalOCR None (mkModifications false 0 0 0)
  end.

(** [processExportData(folder)]. *)
Definition processExportData (folder : Folder.t) : ExportResult :=
  mkExportResult
    (mkFolderInfo (Folder.folderName folder) (Folder.status folder)
       (default 0%nat (Metadata.totalImages <$> Folder.metadata folder))
       (Folder.createdAt folder) (Folder.updatedAt folder))
    (fold_left (fun images imageFile =>
                  let imageName := ImageFile.name imageFile in
                  <[imageName := export_image folder imageName]> images)
               (default [] (Folder.imageFiles folder)) ∅).

End DashboardManager.

(* ===================================================================== *)
(** ** js/batch-processor.js: BatchProcessor *)
(* ===================================================================== *)

Module BatchProcessor.

Section Batches.
Context {A : Type}.

(** The loop of [createBatches(items, batchSize)].  The loop ends when [i]
    reaches [items.length]; [fuel] bounds the number of iterations, and
    [None] stands for a loop the bound does not let finish. *)
Fixpoint createBatches_loop (fuel : nat) (items : list A) (batchSize i : nat)
    (batches : list (list A)) : option (list (list A)) :=
  if (i <? length items)%nat then
    match fuel with
    | O => None
    | S fuel =>
        createBatches_loop fuel items batchSize (i + batchSize)
          (batches ++ [take (i + batchSize - i) (drop i items)])
    end
  else Some batches.

(** [createBatches(items, batchSize)].  With a batch size of at least one
    the loop runs at most [items.length] times; with a batch size of zero
    and an item to process it never ends, which is [None]. *)
Definition createBatches (items : list A) (batchSize : nat)
  : option (list (list A)) :=
  createBatches_loop (length items) items batchSize 0 [].

End Batches.

(** [calculateTotalImages(folders)]. *)
Definition calculateTotalImages (folders : list Folder.t) : nat :=
  fold_left (fun total folder =>
               (total + default 0 (length <$> Folder.imageFiles folder))%nat)
            folders 0%nat.

(** An entry of the OCR queue, without its [processor] closure. *)
Record Job : Type := mkJob {
  job_id : string;
  job_folderId : option Z;
  job_folderName : option string;
  job_batch : list ImageFile.t;
  job_batchIndex : nat;
  job_totalBatches : nat
}.

(** The template literal [`${folder.id}_batch_${batchIndex}`]. *)
Definition make_job_id (id : option Z) (batchIndex : nat) : string :=
  (match id with Some id => pretty id | None => "undefined" end
   +:+ "_batch_" +:+ pretty batchIndex)%string.

(** [createOCRQueue(folders, apiManager)], with [this.options.batchSize]
    passed as [batchSize]. *)
Fixpoint createOCRQueue_loop (batchSize : nat) (folders : list Folder.t)
    (queue : list Job) : option (list Job) :=
  match folders with
  | [] => Some queue
  | folder :: rest =>
      match Folder.imageFiles folder with
      | Some (image :: images) =>
          match createBatches (image :: images) batchSize with
          | Some batches =>
              createOCRQueue_loop batchSize rest
                (queue
                 ++ imap (fun batchIndex batch =>
                            mkJob (make_job_id (Folder.id folder) batchIndex)
                              (Folder.id folder) (Folder.folderName folder)
                              batch batchIndex (length batches))
                         batches)
          | None => None
          end
      | _ => createOCRQueue_loop batchSize rest queue
      end
  end.

Definition createOCRQueue (batchSize : nat) (folders : list Folder.t)
  : option (list Job) :=
  createOCRQueue_loop batchSize folders [].

Section Retry.
Context {R E : Type}.

(** How one call of [job.processor()], raced against the timeout, ends. *)
Inductive attempt : Type :=
| Succeeds (result : R)
| Fails (error : E).

(** What [executeJobWithRetry] leaves behind: the result it returns or the
    error it throws ([None] is [undefined]), the number of calls of the
    processor and the time spent sleeping between attempts. *)
Record Execution : Type := mkExecution {
  outcome : R + option E;
  calls : nat;
  slept : nat
}.

(** The loop of [executeJobWithRetry(job)]: [remaining] attempts are left,
    the next one has number [attempt]; [processor k] is how the call made
    by attempt [k] ends. *)
Fixpoint retry_loop (retryCount retryDelay : nat) (processor : nat -> attempt)
    (remaining attempt : nat) (lastError : option E) (calls slept : nat)
  : Execution :=
  match remaining with
  | O => mkExecution (inr lastError) calls slept
  | S remaining =>
      match processor attempt with
      | Succeeds result => mkExecution (inl result) (S calls) slept
      | Fails error =>
          retry_loop retryCount retryDelay processor remaining (S attempt)
            (Some error) (S calls)
            (if (attempt <? retryCount)%nat
             then (slept + retryDelay * attempt)%nat else slept)
      end
  end.

(** [executeJobWithRetry(job)], with [this.options.retryCount] and
    [this.options.retryDelay] passed explicitly. *)
Definition executeJobWithRetry (retryCount retryDelay : nat)
    (processor : nat -> attempt) : Execution :=
  retry_loop retryCount retryDelay processor retryCount 1 None 0 0.

End Retry.

End BatchProcessor.

(* ===================================================================== *)
(** ** Vocabulary of the statements and sample data *)
(* ===================================================================== *)

(** The distance a component may move in a round trip through display
    space at scale [s]. *)
Definition roundtrip_tolerance (s : Q) : Q := ((1 # 2) + (1 # 2) / s)%Q.

(** What the two rounded double operations of a round trip add to it, for a
    component [x] at scale [s]. *)
Definition rounding_slack (s x : Q) : Q :=
  (Binary64.pow2 (-51) * (Qabs x + / s))%Q.

(** A number other than [Infinity], [-Infinity] and [NaN]. *)
Definition finite (n : num) : Prop :=
  match n with
  | Fin _ => True
  | _ => False
  end.





(** The rectangle returned for a region that cannot be used. *)
Definition placeholder : Rect.t :=
  Rect.mk (num_of_Z 0) (num_of_Z 0) (num_of_Z 100) (num_of_Z 30).

(** What every reachable state of the [folders] store satisfies: no record
    has key [0], the key generator has passed every key (up to its cap of
    [2^53]), and no record has an empty status. *)
Definition db_wf (db : StorageManager.DB) : Prop :=
  forall k r,
    StorageManager.folders db !! k = Some r ->
    k <> 0
    /\ Z.min k StorageManager.maxGeneratedKey < StorageManager.keyGenerator db
    /\ StorageManager.status r <> ""%string.

(** The states the [folders] store can reach: it starts empty and is
    changed by successful saves, by deletions and by clearing.  Every
    update of a folder goes through [saveFolder]. *)
Inductive reachable : StorageManager.DB -> Prop :=
| reachable_empty : reachable StorageManager.emptyDB
| reachable_save db now fd db' id r :
    reachable db ->
    StorageManager.saveFolder (Some db) now fd
    = StorageManager.Resolved (db', id, r) ->
    reachable db'
| reachable_delete db id db' :
    reachable db ->
    StorageManager.deleteFolder (Some db) id = StorageManager.Resolved db' ->
    reachable db'
| reachable_clear db db' :
    reachable db ->
    StorageManager.clearAllData (Some db) = StorageManager.Resolved db' ->
    reachable db'.

(** The counters of a record agree with its data. *)
Definition counters_ok (r : StorageManager.FolderRecord) : Prop :=
  Metadata.totalImages (StorageManager.metadata r)
  = length (StorageManager.imageFiles r)
  /\ Metadata.processedImages (StorageManager.metadata r)
     = size (StorageManager.ocrResults r)
  /\ Metadata.calibratedImages (StorageManager.metadata r)
     = size (StorageManager.annotations r).

(** The record [saveFolder] writes when it is handed a folder object read
    from the store under key [id] as record [r], at time [now]. *)
Definition resaved (now : string) (r : StorageManager.FolderRecord)
  : StorageManager.FolderRecord :=
  StorageManager.mkFolderRecord None (StorageManager.status r)
    (StorageManager.imageFiles r) (StorageManager.ocrResults r)
    (StorageManager.annotations r)
    (or_string (Some (StorageManager.createdAt r)) now) now
    (Metadata.mk (length (StorageManager.imageFiles r))
       (size (StorageManager.ocrResults r))
       (size (StorageManager.annotations r))).

(** The folder objects a read of the whole store returns, in some order. *)
Definition listing (db : StorageManager.DB) : list Folder.t :=
  map (fun p => StorageManager.to_folder (fst p) (snd p))
      (map_to_list (StorageManager.folders db)).

(** A folder whose status is one of the three the dashboard knows. *)
Definition known_status (f : Folder.t) : Prop :=
  Folder.status f = Some "unprocessed"%string
  \/ Folder.status f = Some "processed"%string
  \/ Folder.status f = Some "calibrated"%string.

(** Character [c] does not occur in [s]. *)
Fixpoint free (c : ascii) (s : string) : Prop :=
  match s with
  | EmptyString => True
  | String a s' => a <> c /\ free c s'
  end.

(** Every chunk record is stored under the id built from its folder, image
    name and chunk index. *)
Definition chunk_keys_ok (store : list ChunkRecord.t) : Prop :=
  Forall (fun c =>
            ChunkRecord.id c
            = OptimizedStorageManager.chunk_id (ChunkRecord.folderId c)
                (ChunkRecord.imageName c) (ChunkRecord.chunkIndex c))
         store.

(** Every annotation record is stored under the id built from its folder
    and image name. *)
Definition annotation_keys_ok (store : gmap string AnnotationRecord.t) : Prop :=
  forall id record,
    store !! id = Some record ->
    id = OptimizedStorageManager.annotation_id
           (AnnotationRecord.folderId record)
           (AnnotationRecord.imageName record).

(** Index [i] lies in the range [{ start, count }]. *)
Definition in_window (range : OptimizedStorageManager.Range) (i : nat) : Prop :=
  (OptimizedStorageManager.range_start range <= i
   < OptimizedStorageManager.range_start range
     + OptimizedStorageManager.range_count range)%nat.

(** The chunk records of an image of a folder agree on the index of the
    image. *)
Definition one_index_per_image (store : list ChunkRecord.t) (folderId : Z)
  : Prop :=
  forall c1 c2,
    c1 ∈ store -> c2 ∈ store ->
    ChunkRecord.folderId c1 = folderId -> ChunkRecord.folderId c2 = folderId ->
    ChunkRecord.imageName c1 = ChunkRecord.imageName c2 ->
    ChunkRecord.imageIndex c1 = ChunkRecord.imageIndex c2.

(** The images of a batch as they are expected back from the store: those
    with a non-empty data URL, numbered from [startIndex] by their position
    in the batch. *)
Fixpoint stored_images (startIndex : nat) (imageBatch : list ImageFile.t)
  : list StoredImage.t :=
  match imageBatch with
  | [] => []
  | image :: rest =>
      match ImageFile.dataURL image with
      | Some (c :: s) =>
          StoredImage.mk (ImageFile.name image) (ImageFile.type image)
            (ImageFile.size image) (ImageFile.lastModified image) (c :: s)
            startIndex
          :: stored_images (S startIndex) rest
      | _ => stored_images (S startIndex) rest
      end
  end.

(** The chunk records [saveImageInChunks] builds for the images of a
    batch that have data, image after image. *)
Fixpoint batch_chunks (chunkSize : nat) (now : nat -> Z) (folderId : Z)
    (startIndex : nat) (imageBatch : list ImageFile.t) : list ChunkRecord.t :=
  match imageBatch with
  | [] => []
  | image :: rest =>
      match ImageFile.dataURL image with
      | Some (c :: s) =>
          OptimizedStorageManager.image_chunks chunkSize now folderId image
            (c :: s) startIndex
      | _ => []
      end
      ++ batch_chunks chunkSize now folderId (S startIndex) rest
  end.

(** An image the batch writer passes over: it has no data URL, or an empty
    one. *)
Definition without_data (image : ImageFile.t) : Prop :=
  ImageFile.dataURL image = None \/ ImageFile.dataURL image = Some [].

(** A call that resolved rather than threw. *)
Definition succeeded {A B : Type} (x : A + B) : bool :=
  match x with
  | inl _ => true
  | inr _ => false
  end.

(** The folder object with its [metadata] field replaced. *)
Definition with_metadata (fd : Folder.t) (m : option Metadata.t) : Folder.t :=
  Folder.mk (Folder.id fd) (Folder.name fd) (Folder.folderName fd)
    (Folder.status fd) (Folder.imageFiles fd) (Folder.ocrResults fd)
    (Folder.annotations fd) (Folder.createdAt fd) (Folder.updatedAt fd) m.

(** The character a two-character escape sequence ending in [e] stands
    for. *)
Definition unescape_char (e : ascii) : ascii :=
  if Ascii.eqb e "b" then "008"
  else if Ascii.eqb e "t" then "009"
  else if Ascii.eqb e "n" then "010"
  else if Ascii.eqb e "f" then "012"
  else if Ascii.eqb e "r" then "013"
  else e.

(** The value of a lower-case hexadecimal digit. *)
Definition unhex (h : ascii) : N :=
  let n := N_of_ascii h in
  if (n <? 58)%N then (n - 48)%N else (n - 87)%N.

(** Reads an escaped string up to its closing quote: the text read and
    what follows the quote. *)
Fixpoint unescape (s : string) : option (string * string) :=
  match s with
  | EmptyString => None
  | String c s' =>
      if Ascii.eqb c JSON.dquote then Some (EmptyString, s')
      else if Ascii.eqb c JSON.backslash then
        match s' with
        | String e s'' =>
            if Ascii.eqb e "u" then
              match s'' with
              | String _ (String _ (String h1 (String h0 s3))) =>
                  match unescape s3 with
                  | Some (t, r) =>
                      Some (String (ascii_of_N (unhex h1 * 16 + unhex h0)) t, r)
                  | None => None
                  end
              | _ => None
              end
            else
              match unescape s'' with
              | Some (t, r) => Some (String (unescape_char e) t, r)
              | None => None
              end
        | EmptyString => None
        end
      else
        match unescape s' with
        | Some (t, r) => Some (String c t, r)
        | None => None
        end
  end.

(** What [JSON.elements] prints after the first element of an array that
    is followed by [r]. *)
Fixpoint elements_tail (l : list (option string)) (r : string) : string :=
  match l with
  | [] => r
  | x :: l' => "," +:+ JSON.element x +:+ elements_tail l' r
  end.

(** The chunk array the map holds for an image name. *)
Fixpoint chunks_get (imageName : string)
    (chunks : list (string * list ChunkRecord.t))
  : option (list ChunkRecord.t) :=
  match chunks with
  | [] => None
  | (k, cs) :: rest =>
      if decide (k = imageName) then Some cs else chunks_get imageName rest
  end.

(** The chunk records of one image of a folder, in store order. *)
Definition chunks_of (store : list ChunkRecord.t) (folderId : Z)
    (imageName : string) : list ChunkRecord.t :=
  filter (fun c => ChunkRecord.imageName c = imageName)
    (filter (fun c => ChunkRecord.folderId c = folderId) store).

(** The chunk set of an image is complete when the image has chunks, and
    as many as each of them records in [totalChunks]. *)
Definition complete (store : list ChunkRecord.t) (folderId : Z)
    (imageName : string) : Prop :=
  chunks_of store folderId imageName <> []
  /\ forall c, c ∈ chunks_of store folderId imageName ->
               length (chunks_of store folderId imageName)
               = ChunkRecord.totalChunks c.

(** The image has chunks, but fewer than each of them records. *)
Definition incomplete (store : list ChunkRecord.t) (folderId : Z)
    (imageName : string) : Prop :=
  chunks_of store folderId imageName <> []
  /\ forall c, c ∈ chunks_of store folderId imageName ->
               (length (chunks_of store folderId imageName)
                < ChunkRecord.totalChunks c)%nat.

(** A folder of two images, one of them recognised, carrying stale
    counters. *)
Definition sample_folder : Folder.t :=
  Folder.mk None (Some "scans"%string) None None
    (Some [ImageFile.mk "a.jpg" "image/jpeg" 10 0 None;
           ImageFile.mk "b.jpg" "image/jpeg" 12 0 None])
    (Some {["a.jpg"%string := OcrResult.mk 0 (Some [])]})
    None None None (Some (Metadata.mk 7 7 7)).

(** A stored folder of two images with one of them recognised. *)
Definition sample_stored : StorageManager.FolderRecord :=
  StorageManager.mkFolderRecord (Some "scans"%string) "unprocessed"
    [ImageFile.mk "a.jpg" "image/jpeg" 10 0 None;
     ImageFile.mk "b.jpg" "image/jpeg" 12 0 None]
    {["a.jpg"%string := OcrResult.mk 0 (Some [])]} ∅ "t0" "t0"
    (Metadata.mk 2 1 0).

(** A recognised word with a rectangle location. *)
Definition sample_word (text : string) (top : Z) : WordItem.t :=
  WordItem.mk (Some text) BUndefined (Some text)
    (Some (LocRect (Rect.mk (num_of_Z 10) (num_of_Z top)
                            (num_of_Z 40) (num_of_Z 20))))
    (Some (Fin (9 # 10))) None.

(** The calibration page showing image [a.jpg] of a folder whose OCR
    result for that image is [words]. *)
Definition sample_app (words : list WordItem.t) : CalibrationApp.t :=
  CalibrationApp.mk
    (Some
       (Folder.mk (Some 1) (Some "scans"%string) (Some "scans"%string)
          (Some "processed"%string)
          (Some [ImageFile.mk "a.jpg" "image/jpeg" 10 0 None])
          (Some {["a.jpg"%string := OcrResult.mk (length words) (Some words)]})
          None None None None))
    [ImageFile.mk "a.jpg" "image/jpeg" 10 0 None] 0 ∅ false None false
    (num_of_Z 0) (num_of_Z 0).

(** A store holding one processed folder whose only image, [a.jpg], has
    no OCR result: its recognition failed, and failed images are left out
    of [ocrResults]. *)
Definition unrecognised_db : StorageManager.DB :=
  StorageManager.mkDB
    {[1 := StorageManager.mkFolderRecord (Some "scans"%string) "processed"
             [ImageFile.mk "a.jpg" "image/jpeg" 10 0 None] ∅ ∅ "t0" "t0"
             (Metadata.mk 1 0 0)]}
    2.

(** That folder as the store returns it after the calibration page has
    completed it without any edit: the image has an empty annotation
    list. *)
Definition unrecognised_folder : Folder.t :=
  Folder.mk (Some 1) None (Some "scans"%string)
    (Some "calibrated"%string)
    (Some [ImageFile.mk "a.jpg" "image/jpeg" 10 0 None])
    (Some ∅)
    (Some {["a.jpg"%string := AnnotationEntry.mk "a.jpg" (Some [])]})
    (Some "t0"%string) (Some "t2"%string) (Some (Metadata.mk 1 0 1)).

(** A folder of three images written with chunk size 4, the middle chunk
    of [b.jpg] lost, the records listed in no particular order. *)
Definition damaged_store : list ChunkRecord.t :=
  let a := ImageFile.mk "a.jpg" "image/jpeg" 7 0 None in
  let b := ImageFile.mk "b.jpg" "image/jpeg" 10 0 None in
  let c := ImageFile.mk "c.jpg" "image/jpeg" 2 0 None in
  let ca :=
    OptimizedStorageManager.image_chunks 4 (fun _ => 0) 1 a
      (list_ascii_of_string "aaaaAAA") 0 in
  let cb :=
    OptimizedStorageManager.image_chunks 4 (fun _ => 0) 1 b
      (list_ascii_of_string "bbbbBBBBbb") 1 in
  let cc :=
    OptimizedStorageManager.image_chunks 4 (fun _ => 0) 1 c
      (list_ascii_of_string "cc") 2 in
  filter (fun r => ChunkRecord.chunkIndex r <> 1%nat) cb ++ cc ++ rev ca.

(* ===================================================================== *)
(** * Properties *)
(* ===================================================================== *)

(* ===================================================================== *)
(** ** Coordinate transform *)
(* ===================================================================== *)

Section Rounding.
Local Open Scope Q_scope.

Lemma round_upper (q : Q) : inject_Z (Qfloor (q + (1 # 2))) <= q + (1 # 2).
Proof. apply Qfloor_le. Qed.

Lemma round_lower (q : Q) : q - (1 # 2) < inject_Z (Qfloor (q + (1 # 2))).
Proof.
  pose proof (Qlt_floor (q + (1 # 2))) as H.
  rewrite inject_Z_plus in H.
  change (inject_Z 1) with 1 in H. lra.
Qed.

Lemma round_zero (q : Q) : q == 0 -> Qfloor (q + (1 # 2)) = 0%Z.
Proof.
  intros Hq.
  assert (H : q + (1 # 2) == 1 # 2) by (rewrite Hq; reflexivity).
  rewrite (Qfloor_comp _ _ H). reflexivity.
Qed.

(** One component of the round trip: scale, round, unscale, round. *)
Lemma roundtrip_component (s x : Q) :
  0 < s ->
  exists y : Q,
    Math_round (num_div (Math_round (num_mul (Fin x) (Fin s))) (Fin s)) = Fin y
    /\ Qabs (y - x) <= roundtrip_tolerance s.
Proof.
  intros Hs. cbn [num_mul Math_round num_div].
  destruct (Qeq_bool s 0) eqn:E.
  { apply Qeq_bool_iff in E. lra. }
  eexists. split; [reflexivity |].
  set (d := inject_Z (Qfloor (x * s + (1 # 2)))).
  pose proof (round_upper (x * s)) as Hd1.
  pose proof (round_lower (x * s)) as Hd2.
  pose proof (round_upper (d / s)) as Hy1.
  pose proof (round_lower (d / s)) as Hy2.
  fold d in Hd1, Hd2.
  set (y := inject_Z (Qfloor (d / s + (1 # 2)))) in *.
  unfold roundtrip_tolerance, Qdiv in *.
  assert (Hk : 0 < / s) by (apply Qinv_lt_0_compat; exact Hs).
  assert (Hsk : s * / s == 1) by (apply Qmult_inv_r; lra).
  set (k := / s) in *.
  assert (H1 : d * k <= (x * s + (1 # 2)) * k)
    by (apply Qmult_le_compat_r; lra).
  assert (H2 : (x * s - (1 # 2)) * k <= d * k)
    by (apply Qmult_le_compat_r; lra).
  assert (H3 : (x * s + (1 # 2)) * k == x + (1 # 2) * k).
  { transitivity (x * (s * k) + (1 # 2) * k); [ring | rewrite Hsk; ring]. }
  assert (H4 : (x * s - (1 # 2)) * k == x - (1 # 2) * k).
  { transitivity (x * (s * k) - (1 # 2) * k); [ring | rewrite Hsk; ring]. }
  rewrite H3 in H1. rewrite H4 in H2.
  apply Qabs_case; intros _; lra.
Qed.

















End Rounding.




(** The rounding of the two operations is felt.  At the double written
    [0.4] the component [1.25] is displayed at [1] (the product rounds to
    [0.5]) and comes back as [3] (the quotient rounds to [2.5]), which is
    further from [1.25] than [1/2 + 1/(2s)]; exact arithmetic would give
    [2]. *)
Lemma roundtrip_rounding_is_felt :
  let s := (3602879701896397 # 9007199254740992)%Q in
  let info :=
    mkImageInfo (num_of_Z 1000) (num_of_Z 1000) (num_of_Z 400) (num_of_Z 400)
      (Fin s) in
  let R := Rect.mk (Fin (5 # 4)) (Fin (5 # 4)) (Fin (5 # 4)) (Fin (5 # 4)) in
  CanvasManager.Doubles.originalToDisplayCoords (Some info) R
  = Rect.mk (Fin 1) (Fin 1) (Fin 1) (Fin 1)
  /\ CanvasManager.Doubles.displayToOriginalCoords (Some info)
       (CanvasManager.Doubles.originalToDisplayCoords (Some info) R)
     = Rect.mk (Fin 3) (Fin 3) (Fin 3) (Fin 3)
  /\ CanvasManager.displayToOriginalCoords (Some info)
       (CanvasManager.originalToDisplayCoords (Some info) R)
     = Rect.mk (Fin 2) (Fin 2) (Fin 2) (Fin 2)
  /\ ~ (Qabs (3 - (5 # 4)) <= roundtrip_tolerance s)%Q
  /\ (Qabs (3 - (5 # 4))
      <= roundtrip_tolerance s + rounding_slack s (5 # 4))%Q.
Proof.
  cbv zeta. repeat split; try (vm_compute; reflexivity).
  - vm_compute. intros H. apply H. reflexivity.
  - vm_compute. discriminate.
Qed.

(** Dividing a finite number by a zero scale never gives a finite number. *)
Lemma div_by_zero_not_finite (x : Q) :
  ~ finite (Math_round (num_div (Fin x) (Fin 0))).
Proof.
  cbn [num_div]. change (Qeq_bool 0 0) with true. cbv iota.
  unfold signed_inf. destruct (x ?= 0)%Q; cbn; tauto.
Qed.

(** C9 (as amended).  Before image metadata is available both conversions
    of the canvas manager, and the conversion of the calibration page,
    return the input rectangle unchanged, whatever it is.  The scale is not
    guarded: with metadata present and scale [0], original-to-display sends
    every finite rectangle to the zero rectangle and display-to-original
    returns the quotients by zero, none of which is finite. *)
Theorem missing_metadata_identity (R : Rect.t) :
  CanvasManager.displayToOriginalCoords None R = R
  /\ CanvasManager.originalToDisplayCoords None R = R
  /\ CalibrationApp.displayToOriginalCoords None R = R
  /\ (forall ow oh dw dh l t w h,
        CanvasManager.originalToDisplayCoords
          (Some (mkImageInfo ow oh dw dh (Fin 0)))
          (Rect.mk (Fin l) (Fin t) (Fin w) (Fin h))
        = Rect.mk (num_of_Z 0) (num_of_Z 0) (num_of_Z 0) (num_of_Z 0))
  /\ (forall ow oh dw dh l t w h,
        let R' :=
          CanvasManager.displayToOriginalCoords
            (Some (mkImageInfo ow oh dw dh (Fin 0)))
            (Rect.mk (Fin l) (Fin t) (Fin w) (Fin h)) in
        R' = CalibrationApp.displayToOriginalCoords
               (Some (mkImageInfo ow oh dw dh (Fin 0)))
               (Rect.mk (Fin l) (Fin t) (Fin w) (Fin h))
        /\ ~ finite (Rect.left R') /\ ~ finite (Rect.top R')
        /\ ~ finite (Rect.width R') /\ ~ finite (Rect.height R')).
Proof.
  repeat split; try reflexivity.
  - intros ow oh dw dh l t w h.
    unfold CanvasManager.originalToDisplayCoords, num_of_Z.
    cbn [scale Rect.left Rect.top Rect.width Rect.height num_mul Math_round].
    rewrite !round_zero by ring. reflexivity.
  - apply div_by_zero_not_finite.
  - apply div_by_zero_not_finite.
  - apply div_by_zero_not_finite.
  - apply div_by_zero_not_finite.
Qed.

(** C9, counterexample.  With metadata present and scale [0] neither
    conversion returns its input: the rectangle [(10, 20, 30, 40)] becomes
    the zero rectangle in one direction and [Infinity] in every component
    in the other. *)
Lemma zero_scale_not_identity :
  let info :=
    mkImageInfo (num_of_Z 800) (num_of_Z 600) (num_of_Z 0) (num_of_Z 0)
      (Fin 0) in
  let R := Rect.mk (Fin 10) (Fin 20) (Fin 30) (Fin 40) in
  CanvasManager.originalToDisplayCoords (Some info) R
  = Rect.mk (Fin 0) (Fin 0) (Fin 0) (Fin 0)
  /\ CanvasManager.originalToDisplayCoords (Some info) R <> R
  /\ CanvasManager.displayToOriginalCoords (Some info) R
     = Rect.mk PInf PInf PInf PInf
  /\ CanvasManager.displayToOriginalCoords (Some info) R <> R
  /\ CalibrationApp.displayToOriginalCoords (Some info) R <> R.
Proof.
  cbv zeta. repeat split; try (vm_compute; reflexivity);
    vm_compute; discriminate.
Qed.

(* ===================================================================== *)
(** ** Region normaliser *)
(* ===================================================================== *)





Section MapFrom.
Context {A B : Type} (callback : A -> nat -> B + APIManager.thrown).



End MapFrom.




(** C7, on a response.  A region of four elements the last of which is
    [null] passes the length guard and makes the normaliser throw; the
    response it belongs to is then not formatted, so that the word with the
    well-formed region is lost with it.  With the region shortened to three
    elements both words are kept. *)
Lemma malformed_corner_loses_words :
  let malformed :=
    BArray [CornerPair (num_of_Z 0) (num_of_Z 0);
            CornerPair (num_of_Z 10) (num_of_Z 0);
            CornerPair (num_of_Z 10) (num_of_Z 5); CornerNotIterable] in
  let short :=
    BArray [CornerPair (num_of_Z 0) (num_of_Z 0);
            CornerPair (num_of_Z 10) (num_of_Z 0);
            CornerPair (num_of_Z 10) (num_of_Z 5)] in
  let good :=
    BArray [CornerPair (num_of_Z 10) (num_of_Z 5);
            CornerPair (num_of_Z 110) (num_of_Z 8);
            CornerPair (num_of_Z 108) (num_of_Z 40);
            CornerPair (num_of_Z 8) (num_of_Z 36)] in
  let item region :=
    APIManager.mkPaddleItem (Some "word"%string) None region BUndefined None in
  APIManager.convertBboxToLocation good
  = inl (Rect.mk (num_of_Z 8) (num_of_Z 5) (num_of_Z 102) (num_of_Z 35))
  /\ APIManager.convertBboxToLocation malformed = inr APIManager.TypeError
  /\ APIManager.convertBboxToLocation short = inl placeholder
  /\ APIManager.formatPaddleResult 1000
       (APIManager.PaddleObject [item good; item malformed])
     = inr APIManager.TypeError
  /\ (exists words,
        APIManager.formatPaddleResult 1000
          (APIManager.PaddleObject [item good; item short])
        = inl (OcrResult.mk 2 (Some words))
        /\ length words = 2%nat).
Proof.
  cbv zeta. repeat split; try (vm_compute; reflexivity).
  eexists. split; [vm_compute; reflexivity | reflexivity].
Qed.

(* ===================================================================== *)
(** ** Folder store *)
(* ===================================================================== *)

Section FolderStore.
Import StorageManager.

Lemma or_string_nonempty (a : option string) (d : string) :
  d <> ""%string -> or_string a d <> ""%string.
Proof.
  intros Hd. unfold or_string. destruct a as [s |]; [| exact Hd].
  destruct (String.eqb s "") eqn:E; [exact Hd |].
  intros ->. discriminate.
Qed.

Lemma or_string_Some (s d : string) :
  s <> ""%string -> or_string (Some s) d = s.
Proof.
  intros Hs. unfold or_string.
  destruct (String.eqb_spec s ""); [contradiction | reflexivity].
Qed.

Lemma emptyDB_wf : db_wf emptyDB.
Proof. intros k r H. cbn in H. rewrite lookup_empty in H. discriminate. Qed.

Lemma store_add_wf (db : DB) (r : FolderRecord) :
  db_wf db -> 0 < keyGenerator db -> keyGenerator db <= maxGeneratedKey ->
  status r <> ""%string ->
  exists db', store_add db r = Resolved (db', keyGenerator db)
              /\ db_wf db' /\ 0 < keyGenerator db'
              /\ folders db' !! keyGenerator db = Some r.
Proof.
  intros Hwf Hpos Hmax Hst. unfold store_add.
  destruct (maxGeneratedKey <? keyGenerator db) eqn:Emax;
    [apply Z.ltb_lt in Emax; lia |].
  destruct (folders db !! keyGenerator db) as [r' |] eqn:E.
  { apply Hwf in E. lia. }
  eexists. split; [reflexivity |]. cbn. split; [| split; [lia |]].
  - intros k r0 Hk. cbn in Hk.
    destruct (decide (keyGenerator db = k)) as [<- | Hne].
    + rewrite lookup_insert_eq in Hk. injection Hk as <-.
      cbn. repeat split; [lia | lia | exact Hst].
    + rewrite lookup_insert_ne in Hk by exact Hne.
      apply Hwf in Hk. cbn. intuition lia.
  - apply lookup_insert_eq.
Qed.

(** Once the key generator has passed [2^53] no key is generated any
    more. *)
Lemma store_add_exhausted (db : DB) (r : FolderRecord) :
  maxGeneratedKey < keyGenerator db ->
  store_add db r = Rejected ConstraintError.
Proof.
  intros H. unfold store_add.
  destruct (maxGeneratedKey <? keyGenerator db) eqn:E; [reflexivity |].
  apply Z.ltb_ge in E. lia.
Qed.

(** A key that [store_add] hands out was not in use. *)
Lemma store_add_effect (db : DB) (r : FolderRecord) (db' : DB) (key : Z) :
  store_add db r = Resolved (db', key) ->
  key = keyGenerator db /\ key <= maxGeneratedKey
  /\ folders db !! key = None
  /\ db' = mkDB (<[key := r]> (folders db)) (key + 1).
Proof.
  unfold store_add.
  destruct (maxGeneratedKey <? keyGenerator db) eqn:Emax; [discriminate |].
  apply Z.ltb_ge in Emax.
  destruct (folders db !! keyGenerator db) eqn:E; [discriminate |].
  intros [= <- <-]. auto.
Qed.

Lemma store_put_wf (db : DB) (key : Z) (r : FolderRecord) :
  db_wf db -> 0 < keyGenerator db -> key <> 0 -> status r <> ""%string ->
  db_wf (store_put db key r) /\ 0 < keyGenerator (store_put db key r).
Proof.
  intros Hwf Hpos Hkey Hst. unfold store_put. split.
  - intros k r0 Hk. cbn in Hk |- *.
    destruct (decide (key = k)) as [<- | Hne].
    + rewrite lookup_insert_eq in Hk. injection Hk as <-.
      repeat split; [exact Hkey | | exact Hst].
      destruct (keyGenerator db <=? Z.min key maxGeneratedKey) eqn:E; lia.
    + rewrite lookup_insert_ne in Hk by exact Hne.
      apply Hwf in Hk.
      destruct (keyGenerator db <=? Z.min key maxGeneratedKey) eqn:E;
        intuition lia.
  - cbn. destruct (keyGenerator db <=? Z.min key maxGeneratedKey) eqn:E; lia.
Qed.

(** A folder object with a non-zero id is always saved, under that id. *)
Lemma saveFolder_put (db : DB) (now : string) (fd : Folder.t) (i : Z) :
  Folder.id fd = Some i -> i <> 0 ->
  exists r, saveFolder (Some db) now fd = Resolved (store_put db i r, i, r)
            /\ status r <> ""%string.
Proof.
  intros Hi Hne. unfold saveFolder. rewrite Hi.
  destruct (i =? 0) eqn:E; [apply Z.eqb_eq in E; contradiction |].
  eexists. split; [reflexivity |].
  apply or_string_nonempty. discriminate.
Qed.

(** A folder object without id is saved under the next key of the key
    generator as long as the generator has not passed [2^53]. *)
Lemma saveFolder_add (db : DB) (now : string) (fd : Folder.t) :
  Folder.id fd = None \/ Folder.id fd = Some 0 ->
  db_wf db -> 0 < keyGenerator db -> keyGenerator db <= maxGeneratedKey ->
  exists db' r,
    saveFolder (Some db) now fd = Resolved (db', keyGenerator db, r)
    /\ db_wf db' /\ 0 < keyGenerator db'.
Proof.
  intros Hid Hwf Hpos Hmax. unfold saveFolder.
  set (r := mkFolderRecord _ _ _ _ _ _ _ _).
  assert (Hst : status r <> ""%string)
    by (apply or_string_nonempty; discriminate).
  destruct (store_add_wf db r Hwf Hpos Hmax Hst)
    as (db1 & E1 & Hwf1 & Hpos1 & _).
  destruct Hid as [-> | ->]; cbn; rewrite E1; eauto 10.
Qed.

(** With the generator exhausted a folder object without id is
    rejected. *)
Lemma saveFolder_exhausted (db : DB) (now : string) (fd : Folder.t) :
  Folder.id fd = None \/ Folder.id fd = Some 0 ->
  maxGeneratedKey < keyGenerator db ->
  saveFolder (Some db) now fd = Rejected ConstraintError.
Proof.
  intros Hid Hmax. unfold saveFolder.
  destruct Hid as [-> | ->]; cbn;
    rewrite (store_add_exhausted _ _ Hmax); reflexivity.
Qed.

(** The key under which a folder object without id is saved. *)
Lemma saveFolder_generated (db : DB) (now : string) (fd : Folder.t)
    (db' : DB) (id : Z) (r : FolderRecord) :
  Folder.id fd = None \/ Folder.id fd = Some 0 ->
  saveFolder (Some db) now fd = Resolved (db', id, r) ->
  id = keyGenerator db /\ id <= maxGeneratedKey
  /\ folders db !! id = None.
Proof.
  intros Hid. unfold saveFolder.
  set (r0 := mkFolderRecord _ _ _ _ _ _ _ _).
  destruct Hid as [-> | ->]; cbn;
    (destruct (store_add db r0) as [[db1 key] | e] eqn:E; [| discriminate]);
    intros [= <- <- <-];
    apply store_add_effect in E as (? & ? & ? & _); auto.
Qed.

(** A successful [saveFolder] keeps the store well formed. *)
Lemma saveFolder_wf (db : DB) (now : string) (fd : Folder.t)
    (db' : DB) (id : Z) (r : FolderRecord) :
  db_wf db -> 0 < keyGenerator db ->
  saveFolder (Some db) now fd = Resolved (db', id, r) ->
  db_wf db' /\ 0 < keyGenerator db'.
Proof.
  intros Hwf Hpos Hsave.
  assert (Hcases : (exists i, Folder.id fd = Some i /\ i <> 0)
                   \/ (Folder.id fd = None \/ Folder.id fd = Some 0)).
  { destruct (Folder.id fd) as [i |]; [| auto].
    destruct (decide (i = 0)) as [-> | Hne]; [auto | left; eauto]. }
  destruct Hcases as [(i & Hi & Hne) | Hid].
  - destruct (saveFolder_put db now fd i Hi Hne) as (r1 & E1 & Hst).
    rewrite E1 in Hsave. injection Hsave as <- <- <-.
    apply store_put_wf; assumption.
  - destruct (Z_lt_le_dec maxGeneratedKey (keyGenerator db)) as [Hmax | Hmax].
    + rewrite (saveFolder_exhausted db now fd Hid Hmax) in Hsave.
      discriminate.
    + destruct (saveFolder_add db now fd Hid Hwf Hpos Hmax)
        as (db1 & r1 & E1 & Hwf1 & Hpos1).
      rewrite E1 in Hsave. injection Hsave as <- <- <-. auto.
Qed.

(** The record [saveFolder] writes, read off its definition. *)
Lemma saveFolder_record (db : option DB) (now : string) (fd : Folder.t)
    (db' : DB) (id : Z) (r : FolderRecord) :
  saveFolder db now fd = Resolved (db', id, r) ->
  folders db' !! id = Some r
  /\ r = mkFolderRecord (Folder.name fd)
           (or_string (Folder.status fd) "unprocessed")
           (default [] (Folder.imageFiles fd))
           (default ∅ (Folder.ocrResults fd))
           (default ∅ (Folder.annotations fd))
           (or_string (Folder.createdAt fd) now) now
           (Metadata.mk
              (default 0%nat (length <$> Folder.imageFiles fd))
              (size (default ∅ (Folder.ocrResults fd)))
              (size (default ∅ (Folder.annotations fd)))).
Proof.
  unfold saveFolder. destruct db as [db |]; [| discriminate].
  set (r0 := mkFolderRecord _ _ _ _ _ _ _ _).
  assert (Hadd : forall db1 key,
             store_add db r0 = Resolved (db1, key) ->
             folders db1 !! key = Some r0).
  { intros db1 key Hadd.
    apply store_add_effect in Hadd as (_ & _ & _ & ->).
    apply lookup_insert_eq. }
  destruct (Folder.id fd) as [i |].
  - destruct (i =? 0).
    + destruct (store_add db r0) as [[db1 key] | e] eqn:E; [| discriminate].
      intros [= <- <- <-]. split; [apply Hadd; reflexivity | reflexivity].
    + intros [= <- <- <-]. split; [apply lookup_insert_eq | reflexivity].
  - destruct (store_add db r0) as [[db1 key] | e] eqn:E; [| discriminate].
    intros [= <- <- <-]. split; [apply Hadd; reflexivity | reflexivity].
Qed.

End FolderStore.

(** C5.  After every successful [saveFolder] the record persisted under
    the returned key has [totalImages] equal to the length of its
    [imageFiles], [processedImages] equal to the number of keys of its
    [ocrResults] and [calibratedImages] equal to the number of keys of its
    [annotations]; the counters the caller passes in [metadata] play no
    part in the result. *)
Theorem saveFolder_counters (db : option StorageManager.DB) (now : string)
    (fd : Folder.t) (db' : StorageManager.DB) (id : Z)
    (r : StorageManager.FolderRecord) :
  StorageManager.saveFolder db now fd = StorageManager.Resolved (db', id, r) ->
  StorageManager.folders db' !! id = Some r
  /\ Metadata.totalImages (StorageManager.metadata r)
     = length (StorageManager.imageFiles r)
  /\ Metadata.processedImages (StorageManager.metadata r)
     = size (StorageManager.ocrResults r)
  /\ Metadata.calibratedImages (StorageManager.metadata r)
     = size (StorageManager.annotations r)
  /\ forall m, StorageManager.saveFolder db now (with_metadata fd m)
               = StorageManager.saveFolder db now fd.
Proof.
  intros H. apply saveFolder_record in H as [Hlook ->]. cbn.
  repeat split; try assumption.
  destruct (Folder.imageFiles fd); reflexivity.
Qed.

(** Saving [sample_folder] into the empty store: the stale counters are
    replaced. *)
Lemma saveFolder_counters_witness :
  exists db' id r,
    StorageManager.saveFolder (Some StorageManager.emptyDB) "t0" sample_folder
    = StorageManager.Resolved (db', id, r)
    /\ StorageManager.folders db' !! id = Some r
    /\ Metadata.totalImages (StorageManager.metadata r)
       = length (StorageManager.imageFiles r)
    /\ Metadata.processedImages (StorageManager.metadata r)
       = size (StorageManager.ocrResults r)
    /\ Metadata.calibratedImages (StorageManager.metadata r)
       = size (StorageManager.annotations r)
    /\ forall m,
         StorageManager.saveFolder (Some StorageManager.emptyDB) "t0"
           (with_metadata sample_folder m)
         = StorageManager.saveFolder (Some StorageManager.emptyDB) "t0"
             sample_folder.
Proof.
  eexists _, _, _. split; [reflexivity |].
  apply (saveFolder_counters (Some StorageManager.emptyDB) "t0" sample_folder).
  reflexivity.
Defined.

(** C10.  For a stored folder, [updateFolderOCRResults] resolves and
    persists a record whose OCR results are the stored ones overwritten by
    the given entries: the given image names map to the given results, all
    other names keep what they had.  [processedImages] is the key count of
    the merged map, and the status becomes ['processed'] exactly when that
    count equals the stored [metadata.totalImages]; otherwise it stays as it
    was.  Images and annotations are kept. *)
Theorem updateFolderOCRResults_merges (db : StorageManager.DB)
    (now now_save : string) (id : Z) (stored : StorageManager.FolderRecord)
    (ocrResults : gmap string OcrResult.t) :
  StorageManager.folders db !! id = Some stored ->
  id <> 0 ->
  StorageManager.status stored <> ""%string ->
  exists db' r,
    StorageManager.updateFolderOCRResults (Some db) now now_save id ocrResults
    = StorageManager.Resolved (db', id, r)
    /\ StorageManager.folders db' !! id = Some r
    /\ (forall name res,
          ocrResults !! name = Some res ->
          StorageManager.ocrResults r !! name = Some res)
    /\ (forall name,
          ocrResults !! name = None ->
          StorageManager.ocrResults r !! name
          = StorageManager.ocrResults stored !! name)
    /\ Metadata.processedImages (StorageManager.metadata r)
       = size (StorageManager.ocrResults r)
    /\ StorageManager.status r
       = (if (size (StorageManager.ocrResults r)
              =? Metadata.totalImages (StorageManager.metadata stored))%nat
          then "processed"%string
          else StorageManager.status stored)
    /\ StorageManager.imageFiles r = StorageManager.imageFiles stored
    /\ StorageManager.annotations r = StorageManager.annotations stored.
Proof.
  intros Hstored Hid Hstatus.
  unfold StorageManager.updateFolderOCRResults, StorageManager.getFolderById.
  rewrite Hstored. simpl.
  destruct (id =? 0) eqn:E0; [apply Z.eqb_eq in E0; contradiction |].
  eexists _, _. split; [reflexivity |]. simpl.
  unfold StorageManager.spread.
  split; [apply lookup_insert_eq |].
  split; [| split; [| split; [reflexivity | split; [| auto]]]].
  - intros name res Hres. apply lookup_union_Some_l. exact Hres.
  - intros name Hnone. apply lookup_union_r. exact Hnone.
  - destruct (_ =? _)%nat; [reflexivity |].
    apply or_string_Some. exact Hstatus.
Qed.

(** Adding the result of [b.jpg] to [sample_stored], which completes the
    folder. *)
Lemma updateFolderOCRResults_merges_witness :
  exists db' r,
    StorageManager.updateFolderOCRResults
      (Some (StorageManager.mkDB {[1 := sample_stored]} 2)) "t1" "t2" 1
      {["b.jpg"%string := OcrResult.mk 0 (Some [])]}
    = StorageManager.Resolved (db', 1, r)
    /\ StorageManager.folders db' !! 1 = Some r
    /\ (forall name res,
          ({["b.jpg"%string := OcrResult.mk 0 (Some [])]}
             : gmap string OcrResult.t) !! name = Some res ->
          StorageManager.ocrResults r !! name = Some res)
    /\ (forall name,
          ({["b.jpg"%string := OcrResult.mk 0 (Some [])]}
             : gmap string OcrResult.t) !! name = None ->
          StorageManager.ocrResults r !! name
          = StorageManager.ocrResults sample_stored !! name)
    /\ Metadata.processedImages (StorageManager.metadata r)
       = size (StorageManager.ocrResults r)
    /\ StorageManager.status r
       = (if (size (StorageManager.ocrResults r)
              =? Metadata.totalImages
                   (StorageManager.metadata sample_stored))%nat
          then "processed"%string
          else StorageManager.status sample_stored)
    /\ StorageManager.imageFiles r = StorageManager.imageFiles sample_stored
    /\ StorageManager.annotations r = StorageManager.annotations sample_stored.
Proof.
  apply (updateFolderOCRResults_merges
           (StorageManager.mkDB {[1 := sample_stored]} 2) "t1" "t2" 1
           sample_stored {["b.jpg"%string := OcrResult.mk 0 (Some [])]}).
  - reflexivity.
  - lia.
  - discriminate.
Defined.

(* ===================================================================== *)
(** ** Annotation store: seeding *)
(* ===================================================================== *)

Section Seeding.

Lemma calibration_get_set (app : CalibrationApp.t) (name : string)
    (l : list Annotation.t) :
  CalibrationApp.get_annotations (CalibrationApp.set_annotations app name l)
    name = l.
Proof.
  unfold CalibrationApp.get_annotations, CalibrationApp.set_annotations.
  cbn. rewrite lookup_insert_eq. reflexivity.
Qed.

Lemma tool_get_set (app : OCRAnnotationTool.t) (name : string)
    (l : list Annotation.t) :
  OCRAnnotationTool.get_annotations
    (OCRAnnotationTool.set_annotations app name l) name = l.
Proof.
  unfold OCRAnnotationTool.get_annotations, OCRAnnotationTool.set_annotations.
  cbn. rewrite lookup_insert_eq. reflexivity.
Qed.

Lemma length_zero_iff_nil {A : Type} (l : list A) :
  (length l =? 0)%nat = true <-> l = [].
Proof. destruct l; cbn; split; congruence. Qed.

(** A non-empty list stops [loadImageAnnotations] before it looks at the
    OCR results. *)
Lemma loadImageAnnotations_seeded (now : Z) (name : string)
    (app : CalibrationApp.t) :
  CalibrationApp.get_annotations app name <> [] ->
  CalibrationApp.loadImageAnnotations now name app = app.
Proof.
  intros H. unfold CalibrationApp.loadImageAnnotations.
  destruct (length _ =? 0)%nat eqn:E; [| reflexivity].
  apply length_zero_iff_nil in E. contradiction.
Qed.

(** Either an image cannot be seeded at all, or seeding leaves it with a
    non-empty list. *)
Lemma loadImageAnnotations_cases (t1 : Z) (name : string)
    (app : CalibrationApp.t) :
  (forall t, CalibrationApp.loadImageAnnotations t name app = app)
  \/ CalibrationApp.get_annotations
       (CalibrationApp.loadImageAnnotations t1 name app) name <> [].
Proof.
  unfold CalibrationApp.loadImageAnnotations.
  destruct (length _ =? 0)%nat eqn:E.
  2: { right. intros H. apply length_zero_iff_nil in H. congruence. }
  destruct (_ ≫= Folder.ocrResults) as [ocr |]; [| now left].
  destruct (ocr !! name) as [res |]; [| now left].
  destruct (OcrResult.words_result res) as [words |]; [| now left].
  destruct (0 <? length words)%nat eqn:Elen; [| now left].
  right. rewrite calibration_get_set. intros H.
  apply (f_equal length) in H. rewrite length_imap in H. cbn in H.
  apply Nat.ltb_lt in Elen. lia.
Qed.

Lemma loadImageAnnotations_twice (t1 t2 : Z) (name : string)
    (app : CalibrationApp.t) :
  CalibrationApp.loadImageAnnotations t2 name
    (CalibrationApp.loadImageAnnotations t1 name app)
  = CalibrationApp.loadImageAnnotations t1 name app.
Proof.
  destruct (loadImageAnnotations_cases t1 name app) as [H | H].
  - rewrite (H t1). apply H.
  - apply loadImageAnnotations_seeded. exact H.
Qed.

Lemma displayOCRResults_seeded (now : Z) (ocrResult : option OcrResult.t)
    (app : OCRAnnotationTool.t) (name : string) :
  OCRAnnotationTool.currentFileName app = Some name ->
  OCRAnnotationTool.get_annotations app name <> [] ->
  OCRAnnotationTool.displayOCRResults now ocrResult app = app.
Proof.
  intros Hname H. unfold OCRAnnotationTool.displayOCRResults.
  destruct ocrResult as [res |]; [| reflexivity].
  destruct (OcrResult.words_result res); [| reflexivity].
  rewrite Hname.
  destruct (length _ =? 0)%nat eqn:E; [| reflexivity].
  apply length_zero_iff_nil in E. contradiction.
Qed.

Lemma displayOCRResults_twice (t1 t2 : Z) (ocrResult : option OcrResult.t)
    (app : OCRAnnotationTool.t) :
  OCRAnnotationTool.annotations
    (OCRAnnotationTool.displayOCRResults t2 ocrResult
       (OCRAnnotationTool.displayOCRResults t1 ocrResult app))
  = OCRAnnotationTool.annotations
      (OCRAnnotationTool.displayOCRResults t1 ocrResult app).
Proof.
  unfold OCRAnnotationTool.displayOCRResults at 2 3.
  destruct ocrResult as [res |]; [| reflexivity].
  destruct (OcrResult.words_result res) as [words |] eqn:Ewords;
    [| cbn; rewrite Ewords; reflexivity].
  destruct (OCRAnnotationTool.currentFileName app) as [name |] eqn:Ename;
    [| cbn; rewrite Ewords, Ename; reflexivity].
  destruct (length _ =? 0)%nat eqn:E.
  2: { rewrite (displayOCRResults_seeded t2 _ app name); auto.
       intros H. apply length_zero_iff_nil in H. congruence. }
  destruct words as [| w ws].
  - unfold OCRAnnotationTool.displayOCRResults. rewrite Ewords. cbn.
    unfold OCRAnnotationTool.currentFileName in *. cbn. rewrite Ename.
    rewrite tool_get_set. cbn. apply insert_insert_eq.
  - rewrite (displayOCRResults_seeded t2 _ _ name); auto.
    rewrite tool_get_set. discriminate.
Qed.

End Seeding.

(** C1 (as amended).  Seeding is idempotent: on the calibration page and
    in the main controller, seeding an image twice from the same OCR output
    leaves the annotation lists that seeding once leaves, whatever the two
    clock readings; and whenever the image already has a non-empty list,
    seeding changes nothing at all, whatever OCR output is supplied.  A
    list that is absent or exists but is empty counts as not seeded:
    seeding then fills it from the OCR output, one annotation per word and
    in the order of the words, with the ids counted up from the clock
    reading. *)
Theorem seeding_idempotent :
  (forall t1 t2 name app,
      CalibrationApp.loadImageAnnotations t2 name
        (CalibrationApp.loadImageAnnotations t1 name app)
      = CalibrationApp.loadImageAnnotations t1 name app)
  /\ (forall now name app fd a l,
        CalibrationApp.annotations app !! name = Some (a :: l) ->
        CalibrationApp.loadImageAnnotations now name
          (CalibrationApp.set_folderData app fd)
        = CalibrationApp.set_folderData app fd)
  /\ (forall t1 t2 ocrResult app,
        OCRAnnotationTool.annotations
          (OCRAnnotationTool.displayOCRResults t2 ocrResult
             (OCRAnnotationTool.displayOCRResults t1 ocrResult app))
        = OCRAnnotationTool.annotations
            (OCRAnnotationTool.displayOCRResults t1 ocrResult app))
  /\ (forall now ocrResult app name a l,
        OCRAnnotationTool.currentFileName app = Some name ->
        OCRAnnotationTool.annotations app !! name = Some (a :: l) ->
        OCRAnnotationTool.displayOCRResults now ocrResult app = app)
  /\ (forall now name app fd ocrResults ocrResult word words,
        CalibrationApp.annotations app !! name = None
        \/ CalibrationApp.annotations app !! name = Some [] ->
        CalibrationApp.folderData app = Some fd ->
        Folder.ocrResults fd = Some ocrResults ->
        ocrResults !! name = Some ocrResult ->
        OcrResult.words_result ocrResult = Some (word :: words) ->
        CalibrationApp.annotations
          (CalibrationApp.loadImageAnnotations now name app) !! name
        = Some (imap (CalibrationApp.seedAnnotation now) (word :: words)))
  /\ (forall now ocrResult app name words,
        OCRAnnotationTool.annotations app !! name = None
        \/ OCRAnnotationTool.annotations app !! name = Some [] ->
        OCRAnnotationTool.currentFileName app = Some name ->
        OcrResult.words_result ocrResult = Some words ->
        exists seeded,
          OCRAnnotationTool.annotations
            (OCRAnnotationTool.displayOCRResults now (Some ocrResult) app)
            !! name
          = Some seeded
          /\ map Annotation.id seeded
             = imap (fun index _ => now + Z.of_nat index) words
          /\ map Annotation.text seeded = map WordItem.words words
          /\ Forall (fun ann => Annotation.isManual ann = false) seeded).
Proof.
  split; [exact loadImageAnnotations_twice |].
  split.
  { intros now name app fd a l H. apply loadImageAnnotations_seeded.
    unfold CalibrationApp.get_annotations. cbn. rewrite H. discriminate. }
  split; [exact displayOCRResults_twice |].
  split.
  { intros now ocrResult app name a l Hname H.
    apply (displayOCRResults_seeded now ocrResult app name Hname).
    unfold OCRAnnotationTool.get_annotations. rewrite H. discriminate. }
  split.
  { intros now name app fd ocrResults ocrResult word words Hl Hfd Hocr Hres
      Hwords.
    unfold CalibrationApp.loadImageAnnotations.
    assert (E : CalibrationApp.get_annotations app name = []).
    { unfold CalibrationApp.get_annotations.
      destruct Hl as [-> | ->]; reflexivity. }
    rewrite E, Hfd. cbn [length Nat.eqb mbind option_bind].
    rewrite Hocr, Hres, Hwords. cbn [length Nat.ltb Nat.leb].
    cbn [CalibrationApp.set_annotations CalibrationApp.annotations].
    apply lookup_insert_eq. }
  intros now ocrResult app name words Hl Hname Hwords.
  unfold OCRAnnotationTool.displayOCRResults.
  assert (E : OCRAnnotationTool.get_annotations app name = []).
  { unfold OCRAnnotationTool.get_annotations.
    destruct Hl as [-> | ->]; reflexivity. }
  rewrite Hwords, Hname, E. cbn [length Nat.eqb].
  cbn [OCRAnnotationTool.set_annotations OCRAnnotationTool.annotations].
  eexists. split; [apply lookup_insert_eq |].
  split; [| split].
  - change (map Annotation.id) with (fmap (M := list) Annotation.id).
    rewrite fmap_imap. apply imap_ext. intros; reflexivity.
  - change (map Annotation.text) with (fmap (M := list) Annotation.text).
    rewrite fmap_imap.
    rewrite (imap_ext _ (fun _ => WordItem.words)) by (intros; reflexivity).
    apply imap_const.
  - apply Forall_lookup. intros i ann Hi.
    rewrite list_lookup_imap in Hi.
    destruct (words !! i); [| discriminate]. injection Hi as <-.
    reflexivity.
Qed.

(** C1, counterexample.  The image is seeded with one annotation, the user
    deletes it, and the image is loaded again: its list exists (and is
    empty) before the second seeding, yet the second seeding is not a
    no-op; it brings the deleted annotation back under a new id. *)
Lemma reseeding_after_delete :
  let app1 :=
    CalibrationApp.loadImageAnnotations 1000 "a.jpg"
      (sample_app [sample_word "hello" 10]) in
  let app2 := CalibrationApp.deleteAnnotation 1000 app1 in
  let app3 := CalibrationApp.loadImageAnnotations 2000 "a.jpg" app2 in
  map Annotation.id <$> CalibrationApp.annotations app1 !! "a.jpg"
  = Some [1000]
  /\ CalibrationApp.annotations app2 !! "a.jpg" = Some []
  /\ map Annotation.id <$> CalibrationApp.annotations app3 !! "a.jpg"
     = Some [2000]
  /\ app3 <> app2.
Proof.
  cbv zeta. split; [vm_compute; reflexivity |].
  split; [vm_compute; reflexivity |].
  split; [vm_compute; reflexivity |].
  intros H.
  apply (f_equal (fun app => CalibrationApp.annotations app !! "a.jpg")) in H.
  vm_compute in H. discriminate.
Qed.

(* ===================================================================== *)
(** ** Annotation store: identifiers *)
(* ===================================================================== *)

Section Identifiers.

(** The ids given by one seeding are [now], [now + 1], ... *)
Lemma seeded_ids (now : Z) (words : list WordItem.t) :
  map Annotation.id (imap (CalibrationApp.seedAnnotation now) words)
  = map (fun i => now + Z.of_nat i) (seq 0 (length words)).
Proof.
  assert (H : forall k,
             map Annotation.id
               (imap (fun i => CalibrationApp.seedAnnotation now (k + i)) words)
             = map (fun i => now + Z.of_nat i) (seq k (length words))).
  { induction words as [| w ws IH]; intros k; [reflexivity |].
    cbn [imap map length seq]. f_equal.
    - cbn. rewrite Nat.add_0_r. reflexivity.
    - rewrite <- IH. f_equal. apply imap_ext. intros i x _. cbn.
      rewrite Nat.add_succ_r. reflexivity. }
  apply (H 0%nat).
Qed.

(** Within one seeding the ids are pairwise distinct. *)
Lemma seeded_ids_distinct (now : Z) (words : list WordItem.t) :
  NoDup (map Annotation.id (imap (CalibrationApp.seedAnnotation now) words)).
Proof.
  rewrite seeded_ids. apply NoDup_fmap_2; [| apply NoDup_seq].
  intros i j H. lia.
Qed.

(** Deleting keeps the ids distinct. *)
Lemma delete_ids_distinct (annotationId : Z) (l : list Annotation.t) :
  NoDup (map Annotation.id l) ->
  NoDup (map Annotation.id
           (filter (fun ann => Annotation.id ann <> annotationId) l)).
Proof.
  induction l as [| a l IH]; intros H; [constructor |].
  cbn in H. apply NoDup_cons in H as [Hnotin Hl].
  rewrite filter_cons. destruct (decide (Annotation.id a <> annotationId)).
  - cbn. apply NoDup_cons. split; [| auto].
    intros Hin. apply Hnotin.
    apply list_elem_of_fmap in Hin as (b & -> & Hb).
    apply list_elem_of_filter in Hb as [_ Hb].
    apply list_elem_of_fmap. eauto.
  - auto.
Qed.

(** Appending an annotation keeps the ids distinct exactly when its id is
    not in use. *)
Lemma add_ids_distinct (a : Annotation.t) (l : list Annotation.t) :
  NoDup (map Annotation.id (l ++ [a]))
  <-> NoDup (map Annotation.id l) /\ Annotation.id a ∉ map Annotation.id l.
Proof.
  rewrite map_app. cbn. rewrite NoDup_app.
  split.
  - intros (Hl & Hdisj & _). split; [exact Hl |].
    intros Hin. apply (Hdisj _ Hin). apply list_elem_of_singleton. reflexivity.
  - intros (Hl & Hnotin). split; [exact Hl |]. split.
    + intros x Hx Hx'. apply list_elem_of_singleton in Hx'. subst. auto.
    + apply NoDup_singleton.
Qed.

End Identifiers.

(** C8, the claim on the code.  An image is seeded with three words at
    clock reading 1000, which gives them the ids 1000, 1001 and 1002.  A
    click on "add text" at reading 1002 creates a fourth annotation with id
    1002, and a box drawn at reading 1001 creates one with id 1001: in both
    cases two annotations of the list share an id.  Deleting the manual
    annotation by its id then also deletes the seeded one. *)
Theorem annotation_ids_collide :
  let seeded :=
    CalibrationApp.loadImageAnnotations 1000 "a.jpg"
      (sample_app [sample_word "one" 10; sample_word "two" 40;
                   sample_word "three" 70]) in
  let added := CalibrationApp.addNewTextItem 1002 seeded in
  let drawn :=
    CalibrationApp.handleMouseUp 1001 (num_of_Z 120) (num_of_Z 90)
      (CalibrationApp.handleMouseDown (num_of_Z 20) (num_of_Z 20) seeded) in
  map Annotation.id (CalibrationApp.get_annotations seeded "a.jpg")
  = [1000; 1001; 1002]
  /\ map Annotation.id (CalibrationApp.get_annotations added "a.jpg")
     = [1000; 1001; 1002; 1002]
  /\ ~ NoDup (map Annotation.id (CalibrationApp.get_annotations added "a.jpg"))
  /\ map Annotation.id (CalibrationApp.get_annotations drawn "a.jpg")
     = [1000; 1001; 1002; 1001]
  /\ ~ NoDup (map Annotation.id (CalibrationApp.get_annotations drawn "a.jpg"))
  /\ map Annotation.id
       (CalibrationApp.get_annotations
          (CalibrationApp.deleteAnnotation 1002 added) "a.jpg")
     = [1000; 1001].
Proof.
  cbv zeta.
  assert (Hdup : forall l : list Z,
             bool_decide (NoDup l) = false -> ~ NoDup l).
  { intros l H Hl. apply (bool_decide_eq_true_2 _) in Hl. congruence. }
  repeat split; try (vm_compute; reflexivity);
    apply Hdup; vm_compute; reflexivity.
Qed.

(* ===================================================================== *)
(** ** Export: the diff summary *)
(* ===================================================================== *)

Section JSONInjective.
Import JSON.

Lemma string_app_assoc (s1 s2 s3 : string) :
  (s1 +:+ s2) +:+ s3 = s1 +:+ (s2 +:+ s3).
Proof.
  induction s1 as [| c s1 IH]; [reflexivity |].
  change (String c ((s1 +:+ s2) +:+ s3) = String c (s1 +:+ s2 +:+ s3)).
  f_equal. exact IH.
Qed.

Lemma unescape_quote_char (c : ascii) (s : string) :
  unescape (quote_char c +:+ s)
  = match unescape s with
    | Some (t, r) => Some (String c t, r)
    | None => None
    end.
Proof.
  destruct c as [[] [] [] [] [] [] [] []]; reflexivity.
Qed.

Lemma unescape_escape (s rest : string) :
  unescape (escape s +:+ String dquote rest) = Some (s, rest).
Proof.
  induction s as [| c s IH]; [reflexivity |].
  cbn [escape]. rewrite string_app_assoc, unescape_quote_char, IH.
  reflexivity.
Qed.

Lemma element_inj (x1 x2 : option string) (r1 r2 : string) :
  element x1 +:+ r1 = element x2 +:+ r2 -> x1 = x2 /\ r1 = r2.
Proof.
  destruct x1 as [s1 |], x2 as [s2 |]; cbn [element].
  - change (String dquote ((escape s1 +:+ String dquote "") +:+ r1)
            = String dquote ((escape s2 +:+ String dquote "") +:+ r2)
            -> Some s1 = Some s2 /\ r1 = r2).
    rewrite !string_app_assoc. intros [= H].
    change (String dquote "" +:+ r1) with (String dquote r1) in H.
    change (String dquote "" +:+ r2) with (String dquote r2) in H.
    apply (f_equal unescape) in H. rewrite !unescape_escape in H.
    injection H as -> ->. auto.
  - intros H. cbv [String.append dquote] in H. discriminate.
  - intros H. cbv [String.append dquote] in H. discriminate.
  - intros H. cbv [String.append] in H. injection H as ->. auto.
Qed.

Lemma elements_cons (x : option string) (l : list (option string))
    (r : string) :
  elements (x :: l) +:+ r = element x +:+ elements_tail l r.
Proof.
  revert x. induction l as [| y l IH]; intros x; [reflexivity |].
  change (elements (x :: y :: l))
    with (element x +:+ "," +:+ elements (y :: l)).
  rewrite !string_app_assoc, IH. reflexivity.
Qed.

Lemma elements_tail_inj (l1 l2 : list (option string)) :
  elements_tail l1 "]" = elements_tail l2 "]" -> l1 = l2.
Proof.
  revert l2. induction l1 as [| x1 l1 IH]; intros [| x2 l2] H.
  - reflexivity.
  - cbv [elements_tail String.append] in H. discriminate.
  - cbv [elements_tail String.append] in H. discriminate.
  - cbn [elements_tail] in H.
    change ("," +:+ element x1 +:+ elements_tail l1 "]")
      with (String "," (element x1 +:+ elements_tail l1 "]")) in H.
    change ("," +:+ element x2 +:+ elements_tail l2 "]")
      with (String "," (element x2 +:+ elements_tail l2 "]")) in H.
    injection H as H.
    apply element_inj in H as [-> H].
    f_equal. apply IH, H.
Qed.

(** [JSON.stringify] separates distinct arrays of texts, and [undefined]
    from every array. *)
Lemma stringify_inj (a b : option (list (option string))) :
  stringify a = stringify b -> a = b.
Proof.
  destruct a as [l1 |], b as [l2 |]; cbn [stringify];
    try discriminate; [| reflexivity].
  intros [= H]. f_equal.
  destruct l1 as [| x1 l1], l2 as [| x2 l2].
  - reflexivity.
  - rewrite elements_cons in H. destruct x2;
      cbv [elements element String.append dquote] in H; discriminate.
  - rewrite elements_cons in H. destruct x1;
      cbv [elements element String.append dquote] in H; discriminate.
  - rewrite !elements_cons in H.
    apply element_inj in H as [-> H].
    f_equal. apply elements_tail_inj, H.
Qed.

End JSONInjective.

Section ExportSummary.
Import DashboardManager.

(** The three counters of the summary, for an image with an annotation
    list: manual regions, the estimate of deleted regions, and the number
    of edits. *)
Lemma export_counters (originalOCR : option OriginalOCR)
    (textRegions : list Annotation.t) :
  let originalCount :=
    Z.of_nat (match originalOCR with
              | Some o => length (original_textRegions o)
              | None => 0%nat
              end) in
  let calibratedCount := Z.of_nat (length textRegions) in
  let manualCount :=
    Z.of_nat (length (filter (fun r => Annotation.isManual r = true)
                             textRegions)) in
  let m := export_modifications originalOCR textRegions in
  annotationsAdded m = manualCount
  /\ annotationsDeleted m
     = Z.max 0 (originalCount - (calibratedCount - manualCount))
  /\ totalEdits m = Z.abs (originalCount - calibratedCount) + manualCount.
Proof. destruct originalOCR; cbn; auto. Qed.

(** With an OCR result for the image, [textChanged] says that the number
    of regions changed or that the texts of the regions of OCR origin are
    not the original texts. *)
Lemma export_textChanged_with_ocr (o : OriginalOCR)
    (textRegions : list Annotation.t) :
  textChanged (export_modifications (Some o) textRegions) = true
  <-> length (original_textRegions o) <> length textRegions
      \/ map (fun r => Some (ocr_text r)) (original_textRegions o)
         <> map Annotation.text
              (filter (fun r => Annotation.isManual r = false) textRegions).
Proof.
  unfold export_modifications. cbn [textChanged fmap option_fmap option_map
                                    default from_option].
  rewrite orb_true_iff, !negb_true_iff, Z.eqb_neq, bool_decide_eq_false.
  split; intros [H | H].
  - left. unfold id in H. lia.
  - right. intros Heq. apply H. cbn. rewrite Heq. reflexivity.
  - left. unfold id. lia.
  - right. intros Heq. apply stringify_inj in Heq.
    injection Heq as Heq. auto.
Qed.

(** Without an OCR result for the image, [textChanged] is set whatever
    the annotation list is. *)
Lemma export_textChanged_without_ocr (textRegions : list Annotation.t) :
  textChanged (export_modifications None textRegions) = true.
Proof. unfold export_modifications. cbn. apply orb_true_r. Qed.

End ExportSummary.

(** C6, the claim on the code.  A folder whose image [a.jpg] has no OCR
    result is opened on the calibration page and completed without any
    edit.  The folder then stored has an empty annotation list for the
    image.  Its export has no original OCR and no calibrated region for the
    image: both region counts are 0, there is no text on either side and
    the three counters are 0, yet [textChanged] is [true]. *)
Theorem export_textChanged_on_untouched_image :
  let app :=
    CalibrationApp.loadImageAnnotations 1000 "a.jpg"
      (CalibrationApp.loadFolderData (Some unrecognised_db) 1
         CalibrationApp.initial) in
  let db :=
    snd (CalibrationApp.completeCalibration (Some unrecognised_db)
           "t1" "t2" app) in
  StorageManager.getFolderById db 1
  = StorageManager.Resolved (Some unrecognised_folder)
  /\ DashboardManager.images
       (DashboardManager.processExportData unrecognised_folder) !! "a.jpg"
     = Some (DashboardManager.mkImageData None
               (Some (DashboardManager.mkCalibratedText "人工校准确认" [] ""))
               (DashboardManager.mkModifications true 0 0 0)).
Proof. cbv zeta. split; vm_compute; reflexivity. Qed.

(* ===================================================================== *)
(** ** Chunked persistence: the stable sort *)
(* ===================================================================== *)

Section StableSortFacts.
Context {A : Type} (key : A -> nat).

Lemma sort_insert_perm (x : A) (l : list A) :
  Permutation (sort_insert key x l) (x :: l).
Proof.
  induction l as [| y l IH]; cbn; [reflexivity |].
  destruct (key x <=? key y)%nat; [reflexivity |].
  rewrite IH. apply perm_swap.
Qed.

Lemma sort_by_perm (l : list A) : Permutation (sort_by key l) l.
Proof.
  induction l as [| x l IH]; cbn; [reflexivity |].
  rewrite sort_insert_perm. constructor. exact IH.
Qed.

Lemma sort_by_length (l : list A) : length (sort_by key l) = length l.
Proof. apply Permutation_length, sort_by_perm. Qed.

Lemma sort_by_nil (l : list A) : sort_by key l = [] -> l = [].
Proof.
  intros H. apply Permutation_nil. rewrite <- H.
  apply sort_by_perm.
Qed.

(** Insertions of elements with different keys commute. *)
Lemma sort_insert_comm (x y : A) (l : list A) :
  key x <> key y ->
  sort_insert key x (sort_insert key y l)
  = sort_insert key y (sort_insert key x l).
Proof.
  intros Hxy. induction l as [| z l IH]; cbn.
  - destruct (key x <=? key y)%nat eqn:E1, (key y <=? key x)%nat eqn:E2;
      try reflexivity.
    + apply Nat.leb_le in E1, E2. lia.
    + apply Nat.leb_gt in E1, E2. lia.
  - destruct (key y <=? key z)%nat eqn:Eyz, (key x <=? key z)%nat eqn:Exz;
      cbn; rewrite ?Eyz, ?Exz;
      destruct (key x <=? key y)%nat eqn:Exy,
               (key y <=? key x)%nat eqn:Eyx;
      try reflexivity;
      try (apply Nat.leb_le in Exy); try (apply Nat.leb_le in Eyx);
      try (apply Nat.leb_gt in Exy); try (apply Nat.leb_gt in Eyx);
      try (apply Nat.leb_le in Eyz); try (apply Nat.leb_le in Exz);
      try (apply Nat.leb_gt in Eyz); try (apply Nat.leb_gt in Exz);
      try lia; try (rewrite IH; reflexivity).
Qed.

(** On lists without repeated key the result of the sort depends on the
    elements only, not on their order. *)
Lemma sort_by_perm_eq (l1 l2 : list A) :
  Permutation l1 l2 -> NoDup (map key l1) -> sort_by key l1 = sort_by key l2.
Proof.
  induction 1 as [| x l1 l2 Hp IH | x y l | l1 l2 l3 H1 IH1 H2 IH2];
    intros Hnd.
  - reflexivity.
  - cbn. rewrite IH; [reflexivity |].
    cbn in Hnd. apply NoDup_cons in Hnd. tauto.
  - cbn. apply sort_insert_comm.
    cbn in Hnd. apply NoDup_cons in Hnd as [Hnotin _].
    intros Heq. apply Hnotin. rewrite Heq. left.
  - rewrite IH1 by exact Hnd. apply IH2.
    assert (Hp : Permutation (map key l1) (map key l2))
      by (apply Permutation_map; exact H1).
    rewrite <- Hp. exact Hnd.
Qed.

Lemma sort_insert_head (x : A) (l : list A) :
  HdRel (fun a b => (key a <= key b)%nat) x l -> sort_insert key x l = x :: l.
Proof.
  intros H. destruct H as [| y l Hxy]; [reflexivity |].
  cbn. apply Nat.leb_le in Hxy. rewrite Hxy. reflexivity.
Qed.

(** A list already in key order is left as it is. *)
Lemma sort_by_sorted (l : list A) :
  Sorted (fun a b => (key a <= key b)%nat) l -> sort_by key l = l.
Proof.
  induction 1 as [| x l Hs IH Hhd]; [reflexivity |].
  cbn. rewrite IH. apply sort_insert_head, Hhd.
Qed.

End StableSortFacts.

(* ===================================================================== *)
(** ** Chunked persistence: splitting and reassembly *)
(* ===================================================================== *)

Section Chunking.
Import OptimizedStorageManager.

Lemma ceil_div_covers (len chunkSize : nat) :
  (1 <= chunkSize)%nat -> (len <= ceil_div len chunkSize * chunkSize)%nat.
Proof.
  intros HC. unfold ceil_div.
  pose proof (Nat.div_mod_eq len chunkSize) as Hdm.
  pose proof (Nat.mod_upper_bound len chunkSize ltac:(lia)) as Hmod.
  destruct (len mod chunkSize =? 0)%nat eqn:E.
  - apply Nat.eqb_eq in E. nia.
  - nia.
Qed.

Lemma ceil_div_pos (len chunkSize : nat) :
  (1 <= chunkSize)%nat -> (0 < len)%nat -> (0 < ceil_div len chunkSize)%nat.
Proof.
  intros HC Hlen. unfold ceil_div.
  destruct (len mod chunkSize =? 0)%nat eqn:E; [| lia].
  apply Nat.eqb_eq in E.
  pose proof (Nat.div_mod_eq len chunkSize) as Hdm.
  destruct (len / chunkSize)%nat; [lia | lia].
Qed.

(** The slice taken for a chunk is the next [chunkSize] characters. *)
Lemma slice_chunk (start chunkSize : nat) (s : payload) :
  slice start (Nat.min (start + chunkSize) (length s)) s
  = take chunkSize (drop start s).
Proof.
  unfold slice.
  destruct (Nat.le_gt_cases (start + chunkSize) (length s)) as [H | H].
  - rewrite Nat.min_l by exact H. f_equal. lia.
  - rewrite Nat.min_r by lia.
    rewrite !take_ge; [reflexivity | |]; rewrite length_drop; lia.
Qed.

Lemma concat_slices (chunkSize n : nat) (s : payload) :
  concat (map (fun i => take chunkSize (drop (i * chunkSize) s)) (seq 0 n))
  = take (n * chunkSize) s.
Proof.
  induction n as [| n IH]; [reflexivity |].
  rewrite seq_S, map_app, concat_app, IH. cbn [map concat Nat.add].
  rewrite app_nil_r, take_take_drop. f_equal. lia.
Qed.

Lemma image_chunks_length chunkSize now folderId image dataURL imageIndex :
  length (image_chunks chunkSize now folderId image dataURL imageIndex)
  = ceil_div (length dataURL) chunkSize.
Proof. unfold image_chunks. rewrite length_map, length_seq. reflexivity. Qed.

Lemma image_chunks_indices chunkSize now folderId image dataURL imageIndex :
  map ChunkRecord.chunkIndex
    (image_chunks chunkSize now folderId image dataURL imageIndex)
  = seq 0 (ceil_div (length dataURL) chunkSize).
Proof. unfold image_chunks. rewrite map_map. cbn. apply map_id. Qed.

Lemma image_chunks_data chunkSize now folderId image dataURL imageIndex :
  concat (map ChunkRecord.data
            (image_chunks chunkSize now folderId image dataURL imageIndex))
  = take (ceil_div (length dataURL) chunkSize * chunkSize) dataURL.
Proof.
  unfold image_chunks. rewrite map_map. cbn.
  rewrite <- concat_slices. f_equal. apply map_ext. intros i.
  apply slice_chunk.
Qed.

Lemma sorted_map_seq {A : Type} (key : A -> nat) (f : nat -> A) (k n : nat) :
  (forall i, key (f i) = i) ->
  Sorted (fun a b => (key a <= key b)%nat) (map f (seq k n)).
Proof.
  intros Hkey. revert k. induction n as [| n IH]; intros k; cbn.
  - constructor.
  - constructor; [apply IH |].
    destruct n; cbn; constructor. rewrite !Hkey. lia.
Qed.

Lemma image_chunks_sorted chunkSize now folderId image dataURL imageIndex :
  sort_by ChunkRecord.chunkIndex
    (image_chunks chunkSize now folderId image dataURL imageIndex)
  = image_chunks chunkSize now folderId image dataURL imageIndex.
Proof.
  apply sort_by_sorted. unfold image_chunks.
  apply sorted_map_seq. reflexivity.
Qed.

(** The head of the chunk list of a non-empty payload. *)
Lemma image_chunks_head chunkSize now folderId image dataURL imageIndex :
  (1 <= chunkSize)%nat -> dataURL <> [] ->
  exists first rest,
    image_chunks chunkSize now folderId image dataURL imageIndex
    = first :: rest
    /\ ChunkRecord.totalChunks first = ceil_div (length dataURL) chunkSize
    /\ ChunkRecord.imageIndex first = imageIndex
    /\ ChunkRecord.metadata first
       = ChunkMeta.mk (ImageFile.type image) (ImageFile.size image)
                      (ImageFile.lastModified image).
Proof.
  intros HC Hne.
  assert (Hpos : (0 < ceil_div (length dataURL) chunkSize)%nat).
  { apply ceil_div_pos; [exact HC |].
    destruct dataURL; [congruence | cbn; lia]. }
  unfold image_chunks.
  destruct (ceil_div (length dataURL) chunkSize) as [| n] eqn:E; [lia |].
  cbn [seq map]. eexists _, _. split; [reflexivity |]. cbn. auto.
Qed.

End Chunking.

(** Reassembling the chunks of a non-empty payload, read in any order,
    gives back the image. *)
Lemma reconstruct_image_chunks (chunkSize : nat) (now : nat -> Z)
    (folderId : Z)
    (image : ImageFile.t) (dataURL : payload) (imageIndex : nat)
    (stored : list ChunkRecord.t) :
  (1 <= chunkSize)%nat ->
  dataURL <> [] ->
  Permutation stored
    (OptimizedStorageManager.image_chunks chunkSize now folderId image
       dataURL imageIndex) ->
  OptimizedStorageManager.reconstructImageFromChunks (ImageFile.name image)
    stored
  = Some (StoredImage.mk (ImageFile.name image) (ImageFile.type image)
            (ImageFile.size image) (ImageFile.lastModified image)
            dataURL imageIndex).
Proof.
  intros HC Hne Hperm.
  unfold OptimizedStorageManager.reconstructImageFromChunks,
    OptimizedStorageManager.reconstruct_body.
  assert (Hs : sort_by ChunkRecord.chunkIndex stored
               = OptimizedStorageManager.image_chunks chunkSize now folderId
                   image dataURL imageIndex).
  { rewrite <- (sort_by_perm_eq _ _ _ (Permutation_sym Hperm)).
    - apply image_chunks_sorted.
    - rewrite image_chunks_indices. apply NoDup_seq. }
  rewrite Hs.
  pose proof (image_chunks_length chunkSize now folderId image dataURL
                imageIndex) as Hlen.
  pose proof (image_chunks_data chunkSize now folderId image dataURL
                imageIndex) as Hdata.
  destruct (image_chunks_head chunkSize now folderId image dataURL imageIndex
              HC Hne) as (first & rest & E & Htotal & Hindex & Hmeta).
  rewrite E in *. rewrite Htotal, Hlen, Nat.eqb_refl. cbn [negb].
  rewrite Hdata, Hindex, Hmeta. cbn.
  rewrite take_ge by (apply ceil_div_covers; exact HC). reflexivity.
Qed.


(* ===================================================================== *)
(** ** Chunked persistence: reading a folder back *)
(* ===================================================================== *)

Section Grouping.
Import OptimizedStorageManager.

Lemma chunks_get_push (n k : string) (c : ChunkRecord.t)
    (m : list (string * list ChunkRecord.t)) :
  chunks_get n (chunks_push k c m)
  = if decide (k = n) then Some (default [] (chunks_get n m) ++ [c])
    else chunks_get n m.
Proof.
  induction m as [| [k' cs] m IH]; cbn.
  - destruct (decide (k = n)); reflexivity.
  - destruct (decide (k' = k)) as [-> | Hne]; cbn.
    + destruct (decide (k = n)); reflexivity.
    + destruct (decide (k' = n)) as [-> | Hne'].
      * destruct (decide (k = n)); [congruence | reflexivity].
      * exact IH.
Qed.

Lemma chunks_keys_push (k : string) (c : ChunkRecord.t)
    (m : list (string * list ChunkRecord.t)) :
  map fst (chunks_push k c m)
  = if decide (k ∈ map fst m) then map fst m else map fst m ++ [k].
Proof.
  induction m as [| [k' cs] m IH]; cbn.
  - destruct (decide (k ∈ [])) as [H | H]; [inversion H | reflexivity].
  - destruct (decide (k' = k)) as [-> | Hne]; cbn.
    + destruct (decide (k ∈ k :: map fst m)) as [H | H]; [reflexivity |].
      exfalso. apply H. left.
    + rewrite IH.
      destruct (decide (k ∈ map fst m)) as [H | H],
               (decide (k ∈ k' :: map fst m)) as [H' | H'];
        try reflexivity.
      * exfalso. apply H'. right. exact H.
      * exfalso. apply H. inversion H'; subst; [congruence | assumption].
Qed.

Lemma chunks_keys_push_NoDup (k : string) (c : ChunkRecord.t)
    (m : list (string * list ChunkRecord.t)) :
  NoDup (map fst m) -> NoDup (map fst (chunks_push k c m)).
Proof.
  intros H. rewrite chunks_keys_push.
  destruct (decide (k ∈ map fst m)) as [Hin | Hnotin]; [exact H |].
  apply NoDup_app. split; [exact H |]. split; [| apply NoDup_singleton].
  intros x Hx Hx'. apply list_elem_of_singleton in Hx'. subst. auto.
Qed.

Lemma chunks_get_elem (n : string) (cs : list ChunkRecord.t)
    (m : list (string * list ChunkRecord.t)) :
  NoDup (map fst m) -> ((n, cs) ∈ m <-> chunks_get n m = Some cs).
Proof.
  induction m as [| [k cs'] m IH]; cbn; intros Hnd.
  - split; [intros H; inversion H | discriminate].
  - apply NoDup_cons in Hnd as [Hk Hnd].
    destruct (decide (k = n)) as [-> | Hne].
    + split.
      * intros H. apply elem_of_cons in H as [[= ->] | H]; [reflexivity |].
        exfalso. apply Hk. change n with (fst (n, cs)).
        apply list_elem_of_fmap_2 with (f := fst). exact H.
      * intros [= ->]. left.
    + rewrite <- (IH Hnd). split.
      * intros H. apply elem_of_cons in H as [[= -> ->] | H];
          [congruence | exact H].
      * intros H. right. exact H.
Qed.

(** The map built from a cursor holds, for each image name, the chunks of
    that name in cursor order, and no entry for a name without chunk. *)
Lemma group_chunks_spec (cursor : list ChunkRecord.t) :
  NoDup (map fst (group_chunks cursor))
  /\ forall n,
       chunks_get n (group_chunks cursor)
       = match filter (fun c => ChunkRecord.imageName c = n) cursor with
         | [] => None
         | cs => Some cs
         end.
Proof.
  unfold group_chunks.
  assert (H : forall rest m,
             NoDup (map fst m) ->
             (forall n cs, chunks_get n m = Some cs -> cs <> []) ->
             NoDup (map fst (fold_left
                               (fun chunks chunk =>
                                  chunks_push (ChunkRecord.imageName chunk)
                                    chunk chunks) rest m))
             /\ forall n,
                  chunks_get n
                    (fold_left
                       (fun chunks chunk =>
                          chunks_push (ChunkRecord.imageName chunk)
                            chunk chunks) rest m)
                  = match default [] (chunks_get n m)
                          ++ filter (fun c => ChunkRecord.imageName c = n) rest
                    with
                    | [] => None
                    | cs => Some cs
                    end).
  { induction rest as [| c rest IH]; intros m Hnd Hne.
    - cbn. split; [exact Hnd |]. intros n. rewrite ?filter_nil, app_nil_r.
      destruct (chunks_get n m) as [cs |] eqn:E; [| reflexivity].
      cbn. destruct cs; [exfalso; eapply Hne; eauto | reflexivity].
    - cbn [fold_left].
      destruct (IH (chunks_push (ChunkRecord.imageName c) c m)) as [Hnd' Hget].
      + apply chunks_keys_push_NoDup, Hnd.
      + intros n cs. rewrite chunks_get_push.
        destruct (decide (ChunkRecord.imageName c = n)).
        * intros [= <-]. destruct (default [] (chunks_get n m)); discriminate.
        * apply Hne.
      + split; [exact Hnd' |]. intros n. rewrite Hget, chunks_get_push.
        rewrite filter_cons.
        destruct (decide (ChunkRecord.imageName c = n)) as [Heq | Hneq].
        * cbn [default from_option id]. rewrite <- app_assoc. reflexivity.
        * reflexivity. }
  destruct (H cursor [] ltac:(constructor) ltac:(discriminate)) as [Hnd Hget].
  split; [exact Hnd |]. intros n. rewrite Hget. reflexivity.
Qed.

Lemma collect_images_all (chunks : list (string * list ChunkRecord.t)) :
  collect_images None chunks
  = Normal (omap (fun p => reconstructImageFromChunks (fst p) (snd p)) chunks).
Proof.
  induction chunks as [| [n cs] chunks IH]; [reflexivity |].
  cbn. rewrite IH.
  destruct (reconstructImageFromChunks n cs); reflexivity.
Qed.

(** What a successful reassembly returns. *)
Lemma reconstruct_Some (n : string) (cs : list ChunkRecord.t)
    (f : StoredImage.t) :
  reconstructImageFromChunks n cs = Some f ->
  exists first rest,
    sort_by ChunkRecord.chunkIndex cs = first :: rest
    /\ length cs = ChunkRecord.totalChunks first
    /\ StoredImage.name f = n
    /\ StoredImage.dataURL f
       = concat (map ChunkRecord.data (sort_by ChunkRecord.chunkIndex cs)).
Proof.
  unfold reconstructImageFromChunks, reconstruct_body.
  destruct (sort_by ChunkRecord.chunkIndex cs) as [| first rest] eqn:E;
    [discriminate |].
  destruct (length (first :: rest) =? ChunkRecord.totalChunks first)%nat
    eqn:El; cbn [negb]; [| discriminate].
  intros [= <-]. exists first, rest. split; [reflexivity |].
  apply Nat.eqb_eq in El.
  split; [rewrite <- El, <- E; symmetry; apply sort_by_length |].
  split; reflexivity.
Qed.

Lemma reconstruct_complete (n : string) (cs : list ChunkRecord.t) :
  cs <> [] ->
  (forall c, c ∈ cs -> length cs = ChunkRecord.totalChunks c) ->
  exists f,
    reconstructImageFromChunks n cs = Some f
    /\ StoredImage.name f = n
    /\ StoredImage.dataURL f
       = concat (map ChunkRecord.data (sort_by ChunkRecord.chunkIndex cs)).
Proof.
  intros Hne Hall.
  unfold reconstructImageFromChunks, reconstruct_body.
  destruct (sort_by ChunkRecord.chunkIndex cs) as [| first rest] eqn:E.
  { apply sort_by_nil in E. contradiction. }
  assert (Hin : first ∈ cs).
  { rewrite <- (sort_by_perm ChunkRecord.chunkIndex cs), E. left. }
  assert (Hlen : length (first :: rest) = length cs)
    by (rewrite <- E; apply sort_by_length).
  rewrite Hlen, (Hall first Hin), Nat.eqb_refl.
  cbn [negb]. eexists. split; [reflexivity |]. cbn. auto.
Qed.

End Grouping.

Section ReadingBack.
Import OptimizedStorageManager.

Lemma getImageFiles_spec (store : list ChunkRecord.t) (folderId : Z) :
  exists files,
    getImageFiles store folderId None = Normal files
    /\ (forall n cs,
          cs = chunks_of store folderId n -> cs <> [] ->
          (forall c, c ∈ cs -> length cs = ChunkRecord.totalChunks c) ->
          exists f,
            f ∈ files /\ StoredImage.name f = n
            /\ reconstructImageFromChunks n cs = Some f)
    /\ (forall f,
          f ∈ files ->
          exists first,
            first ∈ chunks_of store folderId (StoredImage.name f)
            /\ length (chunks_of store folderId (StoredImage.name f))
               = ChunkRecord.totalChunks first).
Proof.
  unfold getImageFiles. rewrite collect_images_all.
  eexists. split; [reflexivity |].
  set (cursor := filter (fun c => ChunkRecord.folderId c = folderId) store).
  destruct (group_chunks_spec cursor) as [Hnd Hget].
  split.
  - intros n cs -> Hne Hall.
    destruct (reconstruct_complete n _ Hne Hall) as (f & Hf & Hname & _).
    exists f. split; [| auto].
    rewrite sort_by_perm. apply list_elem_of_omap.
    exists (n, chunks_of store folderId n). split; [| exact Hf].
    apply (chunks_get_elem _ _ _ Hnd). rewrite Hget.
    unfold chunks_of in *. subst cursor.
    destruct (filter _ (filter _ store)); [contradiction | reflexivity].
  - intros f Hf. rewrite sort_by_perm in Hf.
    apply list_elem_of_omap in Hf as ([n cs] & Hin & Hrec). cbn in Hrec.
    apply (chunks_get_elem _ _ _ Hnd) in Hin. rewrite Hget in Hin.
    assert (cs = chunks_of store folderId n) as ->.
    { unfold chunks_of. subst cursor.
      destruct (filter _ (filter _ store)); congruence. }
    apply reconstruct_Some in Hrec as (first & rest & E & Hlen & Hname & _).
    rewrite Hname. exists first. split; [| exact Hlen].
    rewrite <- (sort_by_perm ChunkRecord.chunkIndex), E. left.
Qed.


End ReadingBack.

(** C3.  Reading a folder back always resolves.  Every image of the folder
    whose chunk set is complete is returned, reassembled from its chunks in
    [chunkIndex] order; every image whose chunk set is incomplete is
    omitted. *)
Theorem partial_chunk_isolation (store : list ChunkRecord.t) (folderId : Z) :
  exists files,
    OptimizedStorageManager.getImageFiles store folderId None
    = OptimizedStorageManager.Normal files
    /\ (forall n,
          complete store folderId n ->
          exists f,
            f ∈ files /\ StoredImage.name f = n
            /\ StoredImage.dataURL f
               = concat (map ChunkRecord.data
                           (sort_by ChunkRecord.chunkIndex
                              (chunks_of store folderId n))))
    /\ (forall n,
          incomplete store folderId n ->
          forall f, f ∈ files -> StoredImage.name f <> n).
Proof.
  destruct (getImageFiles_spec store folderId) as (files & E & Hin & Hout).
  exists files. split; [exact E |]. split.
  - intros n [Hne Hall].
    destruct (Hin n _ eq_refl Hne Hall) as (f & Hf & Hname & Hrec).
    exists f. split; [exact Hf |]. split; [exact Hname |].
    apply reconstruct_Some in Hrec. destruct Hrec as (_ & _ & _ & _ & _ & H).
    exact H.
  - intros n [_ Hall] f Hf Hname.
    destruct (Hout f Hf) as (first & Hfirst & Hlen).
    rewrite Hname in *. specialize (Hall first Hfirst). lia.
Qed.

(** The scenario of the specification: the two intact images are
    returned, in image order, and the damaged one is left out. *)
Example damaged_store_read :
  OptimizedStorageManager.getImageFiles damaged_store 1 None
  = OptimizedStorageManager.Normal
      [StoredImage.mk "a.jpg" "image/jpeg" 7 0
         (list_ascii_of_string "aaaaAAA") 0;
       StoredImage.mk "c.jpg" "image/jpeg" 2 0
         (list_ascii_of_string "cc") 2].
Proof. vm_compute. reflexivity. Qed.

Section SaveThenRead.
Import OptimizedStorageManager.

Lemma filter_none {A : Type} (P : A -> Prop) `{!forall x, Decision (P x)}
    (l : list A) :
  (forall x, x ∈ l -> ~ P x) -> filter P l = [].
Proof.
  induction l as [| x l IH]; intros Hall; [reflexivity |].
  rewrite filter_cons. destruct (decide (P x)) as [HP | _].
  - exfalso. apply (Hall x); [left | exact HP].
  - apply IH. intros y Hy. apply Hall. right. exact Hy.
Qed.

Lemma filter_all {A : Type} (P : A -> Prop) `{!forall x, Decision (P x)}
    (l : list A) :
  (forall x, x ∈ l -> P x) -> filter P l = l.
Proof.
  induction l as [| x l IH]; intros Hall; [reflexivity |].
  rewrite filter_cons. destruct (decide (P x)) as [_ | HP].
  - f_equal. apply IH. intros y Hy. apply Hall. right. exact Hy.
  - exfalso. apply HP, Hall. left.
Qed.

Lemma image_chunks_elem chunkSize now folderId image dataURL imageIndex c :
  c ∈ image_chunks chunkSize now folderId image dataURL imageIndex ->
  ChunkRecord.folderId c = folderId
  /\ ChunkRecord.imageName c = ImageFile.name image
  /\ ChunkRecord.totalChunks c = ceil_div (length dataURL) chunkSize.
Proof.
  unfold image_chunks. intros H.
  apply list_elem_of_fmap in H as (i & -> & _). cbn. auto.
Qed.


End SaveThenRead.



(* ===================================================================== *)
(** * Further properties *)
(* ===================================================================== *)

(* ===================================================================== *)
(** ** Canvas: fitting the image and redrawing the boxes *)
(* ===================================================================== *)

Section Fitting.
Local Open Scope Q_scope.




End Fitting.





Section Boxes.
Import CanvasManager.



Lemma boxes_get_set (id id' : Z) (b : Box) (boxes : list (Z * Box)) :
  boxes_get id' (boxes_set id b boxes)
  = if decide (id = id') then Some b else boxes_get id' boxes.
Proof.
  induction boxes as [| [k b'] rest IH]; cbn.
  - destruct (decide (id = id')); reflexivity.
  - destruct (decide (k = id)) as [-> | Hk]; cbn.
    + destruct (decide (id = id')); reflexivity.
    + destruct (decide (k = id')) as [-> | Hk'].
      * destruct (decide (id = id')); [congruence | reflexivity].
      * exact IH.
Qed.



End Boxes.



(* ===================================================================== *)
(** ** Folder store: reads, updates, deletion and import *)
(* ===================================================================== *)

Section FolderStoreOperations.
Import StorageManager.

(** What a successful [saveFolder] does to the store. *)
Lemma saveFolder_effect (db : DB) (now : string) (fd : Folder.t)
    (db' : DB) (id : Z) (r : FolderRecord) :
  saveFolder (Some db) now fd = Resolved (db', id, r) ->
  folders db' = <[id := r]> (folders db)
  /\ keyGenerator db <= keyGenerator db'
  /\ match Folder.id fd with
     | Some i =>
         if i =? 0 then id = keyGenerator db /\ folders db !! id = None
         else id = i
     | None => id = keyGenerator db /\ folders db !! id = None
     end.
Proof.
  unfold saveFolder.
  set (r0 := mkFolderRecord _ _ _ _ _ _ _ _).
  assert (Hadd : forall db1 key,
             store_add db r0 = Resolved (db1, key) ->
             folders db1 = <[key := r0]> (folders db)
             /\ keyGenerator db <= keyGenerator db1
             /\ key = keyGenerator db /\ folders db !! key = None).
  { intros db1 key Hadd0.
    apply store_add_effect in Hadd0 as (-> & _ & Hnone & ->).
    cbn. repeat split; [lia | exact Hnone]. }
  destruct (Folder.id fd) as [i |].
  - destruct (i =? 0).
    + destruct (store_add db r0) as [[db1 key] | e] eqn:E; [| discriminate].
      intros [= <- <- <-]. destruct (Hadd _ _ eq_refl) as (? & ? & ? & ?).
      auto.
    + intros [= <- <- <-]. unfold store_put. cbn.
      repeat split.
      destruct (keyGenerator db <=? Z.min i maxGeneratedKey) eqn:E; lia.
  - destruct (store_add db r0) as [[db1 key] | e] eqn:E; [| discriminate].
    intros [= <- <- <-]. destruct (Hadd _ _ eq_refl) as (? & ? & ? & ?).
    auto.
Qed.

(** Saving back a folder object read from the store. *)
Lemma saveFolder_stored (db : DB) (now : string) (id : Z) (stored : FolderRecord)
    (status updatedAt : option string) :
  id <> 0 ->
  saveFolder (Some db) now
    (Folder.mk (Some id) None (folderName stored) status
       (Some (imageFiles stored)) (Some (ocrResults stored))
       (Some (annotations stored)) (Some (createdAt stored)) updatedAt
       (Some (metadata stored)))
  = Resolved
      (store_put db id
         (mkFolderRecord None (or_string status "unprocessed")
            (imageFiles stored) (ocrResults stored) (annotations stored)
            (or_string (Some (createdAt stored)) now) now
            (Metadata.mk (length (imageFiles stored))
               (size (ocrResults stored)) (size (annotations stored)))),
       id,
       mkFolderRecord None (or_string status "unprocessed")
         (imageFiles stored) (ocrResults stored) (annotations stored)
         (or_string (Some (createdAt stored)) now) now
         (Metadata.mk (length (imageFiles stored))
            (size (ocrResults stored)) (size (annotations stored)))).
Proof.
  intros Hid. unfold saveFolder. cbn.
  destruct (id =? 0) eqn:E; [apply Z.eqb_eq in E; contradiction |].
  reflexivity.
Qed.

Lemma reachable_ok (db : DB) :
  reachable db ->
  0 < keyGenerator db /\ db_wf db
  /\ forall k r, folders db !! k = Some r -> counters_ok r.
Proof.
  induction 1 as [| db now fd db' id r Hreach (Hpos & Hwf & Hcnt) Hsave
                  | db id db' Hreach (Hpos & Hwf & Hcnt) Hdel
                  | db db' Hreach (Hpos & Hwf & Hcnt) Hclr].
  - split; [reflexivity |]. split; [apply emptyDB_wf |].
    intros k r H. cbn in H. rewrite lookup_empty in H. discriminate.
  - destruct (saveFolder_wf db now fd db' id r Hwf Hpos Hsave)
      as (Hwf1 & Hpos1).
    split; [exact Hpos1 |]. split; [exact Hwf1 |].
    destruct (saveFolder_effect _ _ _ _ _ _ Hsave) as (Hf & _ & _).
    destruct (saveFolder_record _ _ _ _ _ _ Hsave) as (_ & Hr).
    clear Hsave. revert Hf Hr. generalize id r. clear id r.
    intros id1 r1 Hf Hr.
    intros k r Hk. rewrite Hf in Hk.
    destruct (decide (id1 = k)) as [<- | Hne].
    + rewrite lookup_insert_eq in Hk. injection Hk as <-.
      rewrite Hr. unfold counters_ok. cbn.
      destruct (Folder.imageFiles fd); cbn; auto.
    + rewrite lookup_insert_ne in Hk by exact Hne. eapply Hcnt, Hk.
  - injection Hdel as <-. cbn. split; [exact Hpos |]. split.
    + intros k r Hk. cbn in Hk |- *.
      apply lookup_delete_Some in Hk as [_ Hk]. apply Hwf in Hk. exact Hk.
    + intros k r Hk. apply lookup_delete_Some in Hk as [_ Hk].
      eapply Hcnt, Hk.
  - injection Hclr as <-. cbn. split; [exact Hpos |]. split.
    + intros k r Hk. cbn in Hk. rewrite lookup_empty in Hk. discriminate.
    + intros k r Hk. rewrite lookup_empty in Hk. discriminate.
Qed.

End FolderStoreOperations.

(** What is saved can be read back, and nothing else moves.  After a
    successful [saveFolder], reading the returned key gives the record just
    written, and every other key reads as before.  A folder object carrying
    a non-zero id is written under that id; one without id, or with id 0,
    is written under the next key of the key generator, which no record
    held before. *)
Theorem saveFolder_then_getFolderById (db db' : StorageManager.DB)
    (now : string) (fd : Folder.t) (id : Z)
    (r : StorageManager.FolderRecord) :
  StorageManager.saveFolder (Some db) now fd
  = StorageManager.Resolved (db', id, r) ->
  StorageManager.getFolderById (Some db') id
  = StorageManager.Resolved (Some (StorageManager.to_folder id r))
  /\ (forall k, k <> id ->
        StorageManager.getFolderById (Some db') k
        = StorageManager.getFolderById (Some db) k)
  /\ (forall i, Folder.id fd = Some i -> i <> 0 -> id = i)
  /\ (Folder.id fd = None \/ Folder.id fd = Some 0 ->
      id = StorageManager.keyGenerator db
      /\ StorageManager.getFolderById (Some db) id
         = StorageManager.Resolved None).
Proof.
  intros Hsave.
  destruct (saveFolder_effect _ _ _ _ _ _ Hsave) as (Hf & _ & Hid).
  unfold StorageManager.getFolderById. rewrite Hf.
  split; [rewrite lookup_insert_eq; reflexivity |].
  split; [intros k Hk; rewrite lookup_insert_ne by congruence; reflexivity |].
  split.
  - intros i Hi Hi0. rewrite Hi in Hid.
    destruct (i =? 0) eqn:E; [apply Z.eqb_eq in E; contradiction |].
    exact Hid.
  - intros [Hi | Hi]; rewrite Hi in Hid; cbn in Hid;
      destruct Hid as [-> Hnone]; rewrite Hnone; auto.
Qed.

(** A first upload into the empty store. *)
Lemma saveFolder_then_getFolderById_witness :
  let r :=
    StorageManager.mkFolderRecord (Some "scans"%string) "unprocessed"
      [ImageFile.mk "a.jpg" "image/jpeg" 10 0 None;
       ImageFile.mk "b.jpg" "image/jpeg" 12 0 None]
      {["a.jpg"%string := OcrResult.mk 0 (Some [])]} ∅ "t0" "t0"
      (Metadata.mk 2 1 0) in
  let db' := StorageManager.mkDB {[1 := r]} 2 in
  StorageManager.getFolderById (Some db') 1
  = StorageManager.Resolved (Some (StorageManager.to_folder 1 r))
  /\ (forall k, k <> 1 ->
        StorageManager.getFolderById (Some db') k
        = StorageManager.getFolderById (Some StorageManager.emptyDB) k)
  /\ (forall i, Folder.id sample_folder = Some i -> i <> 0 -> 1 = i)
  /\ (Folder.id sample_folder = None \/ Folder.id sample_folder = Some 0 ->
      1 = StorageManager.keyGenerator StorageManager.emptyDB
      /\ StorageManager.getFolderById (Some StorageManager.emptyDB) 1
         = StorageManager.Resolved None).
Proof.
  apply (saveFolder_then_getFolderById StorageManager.emptyDB
           (StorageManager.mkDB
              {[1 := StorageManager.mkFolderRecord (Some "scans"%string)
                       "unprocessed"
                       [ImageFile.mk "a.jpg" "image/jpeg" 10 0 None;
                        ImageFile.mk "b.jpg" "image/jpeg" 12 0 None]
                       {["a.jpg"%string := OcrResult.mk 0 (Some [])]} ∅
                       "t0" "t0" (Metadata.mk 2 1 0)]} 2)
           "t0" sample_folder 1).
  vm_compute. reflexivity.
Defined.



(** A store whose key generator is exhausted: a folder was imported under
    the id [2^53].  Folders with an id are still saved; an upload is
    rejected. *)
Lemma exhausted_store_rejects_uploads :
  let imported :=
    Folder.mk (Some (2 ^ 53)) (Some "scans"%string) None None None None None
      None None None in
  exists db r,
    StorageManager.saveFolder (Some StorageManager.emptyDB) "t0" imported
    = StorageManager.Resolved (db, 2 ^ 53, r)
    /\ reachable db
    /\ StorageManager.saveFolder (Some db) "t1" sample_folder
       = StorageManager.Rejected StorageManager.ConstraintError.
Proof.
  intros imported.
  destruct (saveFolder_put StorageManager.emptyDB "t0" imported (2 ^ 53)
              eq_refl) as (r & E & _); [discriminate |].
  eexists _, r. split; [exact E |]. split.
  - eapply reachable_save; [exact reachable_empty | exact E].
  - apply saveFolder_exhausted; [left; reflexivity |].
    vm_compute. reflexivity.
Qed.

(** [updateFolderStatus] on a folder the store holds under a non-zero key:
    the record is rewritten under the same key with the new status (or
    ['unprocessed'] when the new status is empty), the same images, OCR
    results, annotations and creation time, counters recomputed from them
    and the time of the save as update time.  The folder name is lost: the
    object read from the store has no [name] field, which is the field
    [saveFolder] takes the name from.  No other record changes. *)
Theorem updateFolderStatus_effect (db : StorageManager.DB)
    (now now_save : string) (id : Z) (status : string)
    (stored : StorageManager.FolderRecord) :
  StorageManager.folders db !! id = Some stored ->
  id <> 0 ->
  StorageManager.createdAt stored <> ""%string ->
  exists db' r,
    StorageManager.updateFolderStatus (Some db) now now_save id status
    = StorageManager.Resolved (db', id, r)
    /\ StorageManager.folders db' = <[id := r]> (StorageManager.folders db)
    /\ StorageManager.status r
       = (if String.eqb status "" then "unprocessed"%string else status)
    /\ StorageManager.imageFiles r = StorageManager.imageFiles stored
    /\ StorageManager.ocrResults r = StorageManager.ocrResults stored
    /\ StorageManager.annotations r = StorageManager.annotations stored
    /\ StorageManager.createdAt r = StorageManager.createdAt stored
    /\ StorageManager.updatedAt r = now_save
    /\ counters_ok r
    /\ StorageManager.folderName r = None.
Proof.
  intros Hstored Hid Hcreated.
  unfold StorageManager.updateFolderStatus, StorageManager.getFolderById.
  rewrite Hstored. cbn [fmap option_fmap option_map].
  unfold StorageManager.to_folder.
  cbn [Folder.id Folder.name Folder.folderName Folder.imageFiles
         Folder.ocrResults Folder.annotations Folder.createdAt
         Folder.metadata].
  rewrite (saveFolder_stored db now_save id stored (Some status) (Some now)
             Hid).
  eexists _, _. split; [reflexivity |].
  rewrite (or_string_Some _ _ Hcreated). cbn.
  repeat split; reflexivity.
Qed.

(** A stored folder is marked as calibrated. *)
Lemma updateFolderStatus_effect_witness :
  exists db' r,
    StorageManager.updateFolderStatus
      (Some (StorageManager.mkDB {[1 := sample_stored]} 2)) "t1" "t2" 1
      "calibrated"
    = StorageManager.Resolved (db', 1, r)
    /\ StorageManager.folders db'
       = <[1 := r]>
           (StorageManager.folders
              (StorageManager.mkDB {[1 := sample_stored]} 2))
    /\ StorageManager.status r
       = (if String.eqb "calibrated" "" then "unprocessed"%string
          else "calibrated"%string)
    /\ StorageManager.imageFiles r = StorageManager.imageFiles sample_stored
    /\ StorageManager.ocrResults r = StorageManager.ocrResults sample_stored
    /\ StorageManager.annotations r = StorageManager.annotations sample_stored
    /\ StorageManager.createdAt r = StorageManager.createdAt sample_stored
    /\ StorageManager.updatedAt r = "t2"%string
    /\ counters_ok r
    /\ StorageManager.folderName r = None.
Proof.
  apply (updateFolderStatus_effect
           (StorageManager.mkDB {[1 := sample_stored]} 2) "t1" "t2" 1
           "calibrated" sample_stored).
  - reflexivity.
  - lia.
  - discriminate.
Defined.

(** A deleted folder is gone and its key is not given out again.  After
    [deleteFolder] on a reachable store, reading the key finds nothing while
    every other key reads as before.  A folder saved afterwards without an
    id is either rejected, when the key generator is exhausted, or receives
    a key above the deleted one, so that the deleted key stays absent; it
    is saved whenever the generator has not passed [2^53]. *)
Theorem deleted_key_not_reused (db : StorageManager.DB) (id : Z)
    (stored : StorageManager.FolderRecord) :
  reachable db ->
  StorageManager.folders db !! id = Some stored ->
  exists db1,
    StorageManager.deleteFolder (Some db) id = StorageManager.Resolved db1
    /\ StorageManager.getFolderById (Some db1) id
       = StorageManager.Resolved None
    /\ (forall k, k <> id ->
          StorageManager.getFolderById (Some db1) k
          = StorageManager.getFolderById (Some db) k)
    /\ (forall now fd db2 id2 r2,
          Folder.id fd = None ->
          StorageManager.saveFolder (Some db1) now fd
          = StorageManager.Resolved (db2, id2, r2) ->
          id < id2
          /\ StorageManager.getFolderById (Some db2) id
             = StorageManager.Resolved None)
    /\ (forall now fd,
          Folder.id fd = None ->
          StorageManager.keyGenerator db <= StorageManager.maxGeneratedKey ->
          exists db2 id2 r2,
            StorageManager.saveFolder (Some db1) now fd
            = StorageManager.Resolved (db2, id2, r2)).
Proof.
  intros Hreach Hstored.
  destruct (reachable_ok db Hreach) as (Hpos & Hwf & _).
  destruct (Hwf id stored Hstored) as (_ & Hlt & _).
  eexists. split; [reflexivity |].
  set (db1 := StorageManager.mkDB _ _).
  assert (Hreach1 : reachable db1)
    by (eapply reachable_delete; [exact Hreach | reflexivity]).
  destruct (reachable_ok db1 Hreach1) as (Hpos1 & Hwf1 & _).
  unfold StorageManager.getFolderById. cbn [StorageManager.folders db1].
  split; [rewrite lookup_delete_eq; reflexivity |].
  split; [intros k Hk; rewrite lookup_delete_ne by congruence; reflexivity |].
  split.
  - intros now fd db2 id2 r2 Hfd E2.
    destruct (saveFolder_effect _ _ _ _ _ _ E2) as (Hf & _ & _).
    destruct (saveFolder_generated _ _ _ _ _ _ (or_introl Hfd) E2)
      as (Hid2 & Hmax & _).
    cbn [StorageManager.keyGenerator db1] in Hid2.
    assert (Hlt' : id < id2) by lia.
    split; [exact Hlt' |].
    rewrite Hf. rewrite lookup_insert_ne by lia.
    cbn. rewrite lookup_delete_eq. reflexivity.
  - intros now fd Hfd Hmax.
    destruct (saveFolder_add db1 now fd (or_introl Hfd) Hwf1 Hpos1 Hmax)
      as (db2 & r2 & E2 & _).
    eauto.
Qed.

(** The folder uploaded first is deleted; the next upload receives
    key 2. *)
Lemma deleted_key_not_reused_witness :
  let db :=
    StorageManager.mkDB
      {[1 := StorageManager.mkFolderRecord (Some "scans"%string)
               "unprocessed"
               [ImageFile.mk "a.jpg" "image/jpeg" 10 0 None;
                ImageFile.mk "b.jpg" "image/jpeg" 12 0 None]
               {["a.jpg"%string := OcrResult.mk 0 (Some [])]} ∅
               "t0" "t0" (Metadata.mk 2 1 0)]} 2 in
  exists db1 db2 id2 r2,
    StorageManager.deleteFolder (Some db) 1 = StorageManager.Resolved db1
    /\ StorageManager.getFolderById (Some db1) 1
       = StorageManager.Resolved None
    /\ StorageManager.saveFolder (Some db1) "t1" sample_folder
       = StorageManager.Resolved (db2, id2, r2)
    /\ 1 < id2
    /\ StorageManager.getFolderById (Some db2) 1
       = StorageManager.Resolved None.
Proof.
  intros db.
  assert (Hreach : reachable db).
  { eapply (reachable_save _ "t0" sample_folder _ 1).
    - exact reachable_empty.
    - vm_compute. reflexivity. }
  destruct (deleted_key_not_reused db 1 _ Hreach eq_refl)
    as (db1 & Hdel & Hgone & _ & Hlater & Hsaves).
  destruct (Hsaves "t1"%string sample_folder eq_refl) as (db2 & id2 & r2 & E2).
  { vm_compute. discriminate. }
  destruct (Hlater "t1"%string sample_folder db2 id2 r2 eq_refl E2)
    as (Hlt & Habsent).
  exists db1, db2, id2, r2. auto.
Defined.

Section Statistics.
Import StorageManager.

Lemma sum_counter_spec (counter : Metadata.t -> nat) (fs : list Folder.t) :
  Forall (fun f => is_Some (Folder.metadata f)) fs ->
  sum_counter counter fs
  = Resolved
      (sum_list_with (fun f => default 0%nat (counter <$> Folder.metadata f))
         fs).
Proof.
  unfold sum_counter. intros Hall.
  set (g := fun f => default 0%nat (counter <$> Folder.metadata f)).
  enough (Hgen : forall a,
            fold_left
              (fun sum f =>
                 match sum, Folder.metadata f with
                 | Resolved sum, Some metadata =>
                     Resolved (sum + counter metadata)%nat
                 | Resolved _, None => Rejected TypeError
                 | Rejected e, _ => Rejected e
                 end)
              fs (Resolved a)
            = Resolved (a + sum_list_with g fs)%nat)
    by exact (Hgen 0%nat).
  induction Hall as [| f fs [m Hm] _ IH]; intros a; cbn [fold_left].
  - cbn. f_equal. lia.
  - rewrite Hm. rewrite IH. cbn. unfold g at 2. rewrite Hm. cbn.
    f_equal. lia.
Qed.

Lemma sum_list_with_fmap {A B : Type} (f : B -> nat) (g : A -> B)
    (l : list A) :
  sum_list_with f (map g l) = sum_list_with (fun a => f (g a)) l.
Proof. induction l as [| a l IH]; cbn; [reflexivity | rewrite IH; reflexivity]. Qed.

Lemma sum_list_with_ext_Forall {A : Type} (f g : A -> nat) (l : list A) :
  Forall (fun a => f a = g a) l -> sum_list_with f l = sum_list_with g l.
Proof. induction 1 as [| a l Ha _ IH]; cbn; [reflexivity | lia]. Qed.

Lemma count_status_cons (status : string) (f : Folder.t) (fs : list Folder.t) :
  count_status status (f :: fs)
  = ((if decide (Folder.status f = Some status) then 1 else 0)
     + count_status status fs)%nat.
Proof.
  unfold count_status. rewrite filter_cons.
  destruct (decide (Folder.status f = Some status)); reflexivity.
Qed.

(** The three status counts against the number of folders. *)
Lemma count_status_total (fs : list Folder.t) :
  (count_status "unprocessed" fs + count_status "processed" fs
   + count_status "calibrated" fs <= length fs)%nat
  /\ ((count_status "unprocessed" fs + count_status "processed" fs
       + count_status "calibrated" fs = length fs)%nat
      <-> Forall known_status fs).
Proof.
  induction fs as [| f fs [IHle IHeq]].
  - cbn. split; [lia |]. split; [constructor | reflexivity].
  - rewrite !count_status_cons. cbn [length].
    destruct (decide (Folder.status f = Some "unprocessed"%string)) as [E1 | E1];
      destruct (decide (Folder.status f = Some "processed"%string)) as [E2 | E2];
      destruct (decide (Folder.status f = Some "calibrated"%string)) as [E3 | E3];
      try (rewrite E1 in E2; discriminate);
      try (rewrite E1 in E3; discriminate);
      try (rewrite E2 in E3; discriminate).
    + split; [lia |]. rewrite Forall_cons. unfold known_status at 1.
      split; [intros H; split; [auto | apply IHeq; lia]
             | intros [_ H]; apply IHeq in H; lia].
    + split; [lia |]. rewrite Forall_cons. unfold known_status at 1.
      split; [intros H; split; [auto | apply IHeq; lia]
             | intros [_ H]; apply IHeq in H; lia].
    + split; [lia |]. rewrite Forall_cons. unfold known_status at 1.
      split; [intros H; split; [auto | apply IHeq; lia]
             | intros [_ H]; apply IHeq in H; lia].
    + split; [lia |]. rewrite Forall_cons. unfold known_status at 1.
      split; [intros H; lia | intros [[H | [H | H]] _]; contradiction].
Qed.

End Statistics.

(** The statistics of a reachable store, computed from the folders listed
    in any order: the number of folders is the number of records, the three
    image totals are the numbers of images, of OCR results and of
    annotation entries the records hold, and the three status counts never
    add up to more than the number of folders; they add up to exactly that
    number if and only if every folder has one of the statuses
    ['unprocessed'], ['processed'] and ['calibrated']. *)
Theorem statistics_of_store (db : StorageManager.DB) (fs : list Folder.t) :
  reachable db ->
  Permutation fs (listing db) ->
  exists st,
    StorageManager.getStatistics fs = StorageManager.Resolved st
    /\ StorageManager.totalFolders st = size (StorageManager.folders db)
    /\ StorageManager.totalImages st
       = sum_list_with
           (fun p => length (StorageManager.imageFiles (snd p)))
           (map_to_list (StorageManager.folders db))
    /\ StorageManager.processedImages st
       = sum_list_with
           (fun p => size (StorageManager.ocrResults (snd p)))
           (map_to_list (StorageManager.folders db))
    /\ StorageManager.calibratedImages st
       = sum_list_with
           (fun p => size (StorageManager.annotations (snd p)))
           (map_to_list (StorageManager.folders db))
    /\ (StorageManager.unprocessedFolders st
        + StorageManager.processedFolders st
        + StorageManager.calibratedFolders st
        <= StorageManager.totalFolders st)%nat
    /\ ((StorageManager.unprocessedFolders st
         + StorageManager.processedFolders st
         + StorageManager.calibratedFolders st
         = StorageManager.totalFolders st)%nat
        <-> Forall known_status fs).
Proof.
  intros Hreach Hperm.
  destruct (reachable_ok db Hreach) as (_ & _ & Hcnt).
  assert (Hmeta : Forall (fun f => is_Some (Folder.metadata f)) fs).
  { rewrite Hperm. unfold listing. rewrite Forall_forall. intros f Hf.
    apply list_elem_of_fmap in Hf as ([k r] & -> & _). cbn. eauto. }
  assert (Hsum : forall (counter : Metadata.t -> nat)
                        (g : StorageManager.FolderRecord -> nat),
             (forall r, counters_ok r ->
                        counter (StorageManager.metadata r) = g r) ->
             sum_list_with
               (fun f => default 0%nat (counter <$> Folder.metadata f)) fs
             = sum_list_with (fun p => g (snd p))
                 (map_to_list (StorageManager.folders db))).
  { intros counter g Hg. rewrite Hperm. unfold listing.
    rewrite sum_list_with_fmap. apply sum_list_with_ext_Forall.
    rewrite Forall_forall. intros [k r] Hkr. cbn.
    apply elem_of_map_to_list in Hkr. apply Hg. eapply Hcnt, Hkr. }
  unfold StorageManager.getStatistics.
  rewrite !(sum_counter_spec _ fs Hmeta).
  eexists. split; [reflexivity |].
  cbn [StorageManager.totalFolders StorageManager.totalImages
         StorageManager.processedImages StorageManager.calibratedImages
         StorageManager.unprocessedFolders StorageManager.processedFolders
         StorageManager.calibratedFolders].
  split.
  { rewrite Hperm. unfold listing. rewrite length_map.
    apply length_map_to_list. }
  split.
  { apply (Hsum Metadata.totalImages
             (fun r => length (StorageManager.imageFiles r))).
    intros r (H & _ & _). exact H. }
  split.
  { apply (Hsum Metadata.processedImages
             (fun r => size (StorageManager.ocrResults r))).
    intros r (_ & H & _). exact H. }
  split.
  { apply (Hsum Metadata.calibratedImages
             (fun r => size (StorageManager.annotations r))).
    intros r (_ & _ & H). exact H. }
  apply count_status_total.
Qed.

(** The store after two uploads, the second folder then marked with a
    status the dashboard has no column for. *)
Lemma statistics_of_store_witness :
  let r1 :=
    StorageManager.mkFolderRecord (Some "scans"%string) "unprocessed"
      [ImageFile.mk "a.jpg" "image/jpeg" 10 0 None;
       ImageFile.mk "b.jpg" "image/jpeg" 12 0 None]
      {["a.jpg"%string := OcrResult.mk 0 (Some [])]} ∅ "t0" "t0"
      (Metadata.mk 2 1 0) in
  let r2 :=
    StorageManager.mkFolderRecord None "archived"
      [ImageFile.mk "a.jpg" "image/jpeg" 10 0 None;
       ImageFile.mk "b.jpg" "image/jpeg" 12 0 None]
      {["a.jpg"%string := OcrResult.mk 0 (Some [])]} ∅ "t1" "t3"
      (Metadata.mk 2 1 0) in
  let db := StorageManager.mkDB {[1 := r1; 2 := r2]} 3 in
  let fs := [StorageManager.to_folder 2 r2; StorageManager.to_folder 1 r1] in
  exists st,
    StorageManager.getStatistics fs = StorageManager.Resolved st
    /\ StorageManager.totalFolders st = size (StorageManager.folders db)
    /\ StorageManager.totalImages st
       = sum_list_with
           (fun p => length (StorageManager.imageFiles (snd p)))
           (map_to_list (StorageManager.folders db))
    /\ StorageManager.processedImages st
       = sum_list_with
           (fun p => size (StorageManager.ocrResults (snd p)))
           (map_to_list (StorageManager.folders db))
    /\ StorageManager.calibratedImages st
       = sum_list_with
           (fun p => size (StorageManager.annotations (snd p)))
           (map_to_list (StorageManager.folders db))
    /\ (StorageManager.unprocessedFolders st
        + StorageManager.processedFolders st
        + StorageManager.calibratedFolders st
        <= StorageManager.totalFolders st)%nat
    /\ ((StorageManager.unprocessedFolders st
         + StorageManager.processedFolders st
         + StorageManager.calibratedFolders st
         = StorageManager.totalFolders st)%nat
        <-> Forall known_status fs).
Proof.
  eapply statistics_of_store.
  - eapply (reachable_save _ "t3"
              (Folder.mk (Some 2) None None (Some "archived"%string)
                 (Some [ImageFile.mk "a.jpg" "image/jpeg" 10 0 None;
                        ImageFile.mk "b.jpg" "image/jpeg" 12 0 None])
                 (Some {["a.jpg"%string := OcrResult.mk 0 (Some [])]})
                 (Some ∅) (Some "t1"%string) (Some "t2"%string) None) _ 2).
    + eapply (reachable_save _ "t1" sample_folder _ 2).
      * eapply (reachable_save _ "t0" sample_folder _ 1).
        -- exact reachable_empty.
        -- vm_compute. reflexivity.
      * vm_compute. reflexivity.
    + vm_compute. reflexivity.
  - vm_compute. apply perm_swap || reflexivity.
Defined.

Section ImportExport.
Import StorageManager.

Lemma saveFolder_to_folder (db : DB) (now : string) (k : Z) (r : FolderRecord) :
  k <> 0 -> status r <> ""%string ->
  saveFolder (Some db) now (to_folder k r)
  = Resolved (store_put db k (resaved now r), k, resaved now r).
Proof.
  intros Hk Hst. unfold to_folder.
  rewrite (saveFolder_stored db now k r (Some (status r)) (Some (updatedAt r))
             Hk).
  unfold resaved. rewrite (or_string_Some _ _ Hst). reflexivity.
Qed.

Lemma importData_loop_spec (now : nat -> string) (l : list (Z * FolderRecord)) :
  Forall (fun p => fst p <> 0 /\ status (snd p) <> ""%string) l ->
  NoDup (map fst l) ->
  forall (i0 : nat) (db : DB) (results : list ImportResult),
  exists db',
    importData_loop now i0 (map (fun p => to_folder (fst p) (snd p)) l)
      (Some db) results
    = (results
       ++ imap (fun j p => ImportSuccess (fst p) (resaved (now (i0 + j)%nat)
                                                    (snd p))) l,
       Some db')
    /\ (forall j k r,
          l !! j = Some (k, r) ->
          folders db' !! k = Some (resaved (now (i0 + j)%nat) r))
    /\ (forall k, k ∉ map fst l -> folders db' !! k = folders db !! k).
Proof.
  induction l as [| [k r] l IH]; intros Hall Hnd i0 db results.
  - exists db. cbn. rewrite app_nil_r. split; [reflexivity |].
    split; [intros j k r H; discriminate | reflexivity].
  - apply Forall_cons in Hall as [[Hk Hst] Hall]. cbn in Hk, Hst.
    cbn [map fst] in Hnd. apply NoDup_cons in Hnd as [Hnotin Hnd].
    cbn [map importData_loop fst snd].
    rewrite (saveFolder_to_folder db (now i0) k r Hk Hst).
    destruct (IH Hall Hnd (S i0) (store_put db k (resaved (now i0) r))
                (results ++ [ImportSuccess k (resaved (now i0) r)]))
      as (db' & Eloop & Hin & Hout).
    exists db'. split; [| split].
    + rewrite Eloop. rewrite <- app_assoc. cbn [app imap fst snd].
      rewrite Nat.add_0_r. do 3 f_equal.
      apply imap_ext. intros j p _. cbn. rewrite Nat.add_succ_r. reflexivity.
    + intros [| j] k' r' Hj; cbn in Hj.
      * injection Hj as <- <-. rewrite Nat.add_0_r.
        rewrite (Hout k Hnotin). cbn. apply lookup_insert_eq.
      * rewrite Nat.add_succ_r. apply (Hin j k' r' Hj).
    + intros k' Hk'. cbn [map fst] in Hk'.
      apply not_elem_of_cons in Hk' as [Hne Hk'].
      rewrite (Hout k' Hk'). cbn. apply lookup_insert_ne. congruence.
Qed.

End ImportExport.

(** Importing what was exported.  The records of a reachable store, listed
    in any order and handed back to [importData] as the folder objects an
    export holds, are all saved successfully, whatever the receiving store
    holds: each goes under the key it had, with its status, images, OCR
    results, annotations and creation time, with counters recomputed and
    the time of the import as update time, and without its folder name.
    Records of the receiving store under other keys stay as they are. *)
Theorem import_of_export (src db : StorageManager.DB) (now : nat -> string)
    (exported : list (Z * StorageManager.FolderRecord)) :
  reachable src ->
  Permutation exported (map_to_list (StorageManager.folders src)) ->
  exists db',
    StorageManager.importData (Some db) now
      (map (fun p => StorageManager.to_folder (fst p) (snd p)) exported)
    = (imap (fun i p =>
               StorageManager.ImportSuccess (fst p) (resaved (now i) (snd p)))
            exported,
       Some db')
    /\ (forall i k r,
          exported !! i = Some (k, r) ->
          StorageManager.folders db' !! k = Some (resaved (now i) r))
    /\ (forall k,
          StorageManager.folders src !! k = None ->
          StorageManager.folders db' !! k = StorageManager.folders db !! k).
Proof.
  intros Hreach Hperm.
  destruct (reachable_ok src Hreach) as (_ & Hwf & Hcnt).
  assert (Hall : Forall (fun p => fst p <> 0
                                  /\ StorageManager.status (snd p) <> ""%string)
                   exported).
  { rewrite Hperm. rewrite Forall_forall. intros [k r] Hkr.
    apply elem_of_map_to_list in Hkr. destruct (Hwf k r Hkr) as (? & _ & ?).
    cbn. auto. }
  assert (Hnd : NoDup (map fst exported)).
  { rewrite Hperm. apply NoDup_fst_map_to_list. }
  destruct (importData_loop_spec now exported Hall Hnd 0%nat db [])
    as (db' & Eloop & Hin & Hout).
  exists db'. split; [exact Eloop |]. split; [exact Hin |].
  intros k Hk. apply Hout. rewrite Hperm. intros Hel.
  apply list_elem_of_fmap in Hel as ([k' r] & -> & Hkr).
  apply elem_of_map_to_list in Hkr. cbn in Hk. congruence.
Qed.

(** The store after one upload is exported and imported into an empty
    store. *)
Lemma import_of_export_witness :
  exists db',
    StorageManager.importData (Some StorageManager.emptyDB)
      (fun i => pretty i)
      (map (fun p => StorageManager.to_folder (fst p) (snd p))
         [(1, sample_stored)])
    = (imap (fun i p =>
               StorageManager.ImportSuccess (fst p)
                 (resaved (pretty i) (snd p)))
            [(1, sample_stored)],
       Some db')
    /\ (forall i k r,
          [(1, sample_stored)] !! i = Some (k, r) ->
          StorageManager.folders db' !! k = Some (resaved (pretty i) r))
    /\ (forall k,
          StorageManager.folders
            (StorageManager.mkDB {[1 := sample_stored]} 2) !! k = None ->
          StorageManager.folders db' !! k
          = StorageManager.folders StorageManager.emptyDB !! k).
Proof.
  eapply (import_of_export (StorageManager.mkDB {[1 := sample_stored]} 2)).
  - eapply (reachable_save _ "t0"
              (Folder.mk None (Some "scans"%string) None None
                 (Some [ImageFile.mk "a.jpg" "image/jpeg" 10 0 None;
                        ImageFile.mk "b.jpg" "image/jpeg" 12 0 None])
                 (Some {["a.jpg"%string := OcrResult.mk 0 (Some [])]})
                 None None None None) _ 1).
    + exact reachable_empty.
    + vm_compute. reflexivity.
  - vm_compute. reflexivity.
Defined.

(* ===================================================================== *)
(** ** Optimised store: paging, the memory cache and record keys *)
(* ===================================================================== *)

Section Paging.
Import OptimizedStorageManager.
Context {F : Type}.

Lemma page_loop_spec (page pageSize : nat) (passes : F -> bool)
    (cursor results : list F) (skipped collected : nat) :
  page_loop page pageSize passes cursor results skipped collected
  = results
    ++ take (pageSize - collected)
         (drop (page * pageSize - skipped) (List.filter passes cursor)).
Proof.
  revert results skipped collected.
  induction cursor as [| folder rest IH]; intros results skipped collected;
    cbn [page_loop List.filter].
  - rewrite drop_nil, take_nil, app_nil_r. reflexivity.
  - destruct (collected <? pageSize)%nat eqn:Ec.
    + apply Nat.ltb_lt in Ec. destruct (passes folder).
      * destruct (page * pageSize <=? skipped)%nat eqn:Es.
        -- apply Nat.leb_le in Es. rewrite IH.
           replace (page * pageSize - skipped)%nat with 0%nat by lia.
           replace (pageSize - collected)%nat
             with (S (pageSize - S collected)) by lia.
           rewrite !drop_0. cbn [take]. rewrite <- app_assoc. reflexivity.
        -- apply Nat.leb_gt in Es. rewrite IH.
           replace (page * pageSize - skipped)%nat
             with (S (page * pageSize - S skipped)) by lia.
           reflexivity.
      * apply IH.
    + apply Nat.ltb_ge in Ec.
      replace (pageSize - collected)%nat with 0%nat by lia.
      rewrite take_0, app_nil_r. reflexivity.
Qed.

End Paging.

(** Paging over the folders.  The page a call returns is the slice of the
    folders passing the filter, in cursor order, that starts after
    [page * pageSize] of them and holds at most [pageSize]; the first
    [pages] pages put end to end are the first [pages * pageSize] folders
    passing the filter, in that order. *)
Theorem getAllFolders_page {F : Type} (pageSize : nat) (passes : F -> bool)
    (cursor : list F) :
  (forall page,
      OptimizedStorageManager.getAllFolders page pageSize passes cursor
      = take pageSize (drop (page * pageSize) (List.filter passes cursor)))
  /\ (forall pages,
        concat (map (fun page =>
                       OptimizedStorageManager.getAllFolders page pageSize
                         passes cursor)
                    (seq 0 pages))
        = take (pages * pageSize) (List.filter passes cursor)).
Proof.
  assert (Hpage : forall page,
      OptimizedStorageManager.getAllFolders page pageSize passes cursor
      = take pageSize (drop (page * pageSize) (List.filter passes cursor))).
  { intros page. unfold OptimizedStorageManager.getAllFolders.
    rewrite page_loop_spec. rewrite !Nat.sub_0_r. reflexivity. }
  split; [exact Hpage |].
  intros pages. induction pages as [| n IH]; [reflexivity |].
  rewrite seq_S, map_app, concat_app, IH. cbn [map concat Nat.add].
  rewrite app_nil_r, Hpage, take_take_drop. f_equal. lia.
Qed.

Section MemoryCacheFacts.
Import OptimizedStorageManager.
Context {D : Type}.

Lemma cache_get_set (key k : string) (e : CacheEntry (D := D))
    (cache : list (string * CacheEntry)) :
  cache_get k (cache_set key e cache)
  = if decide (key = k) then Some e else cache_get k cache.
Proof.
  induction cache as [| [k' e'] rest IH]; cbn.
  - destruct (decide (key = k)); reflexivity.
  - destruct (decide (k' = key)) as [-> | Hne]; cbn.
    + destruct (decide (key = k)); reflexivity.
    + destruct (decide (k' = k)) as [-> | Hne'].
      * destruct (decide (key = k)); [congruence | reflexivity].
      * exact IH.
Qed.

Lemma cache_set_keys (key : string) (e : CacheEntry (D := D))
    (cache : list (string * CacheEntry)) :
  map fst (cache_set key e cache)
  = if decide (key ∈ map fst cache) then map fst cache
    else map fst cache ++ [key].
Proof.
  induction cache as [| [k' e'] rest IH]; cbn.
  - destruct (decide (key ∈ [])) as [H | _]; [inversion H | reflexivity].
  - destruct (decide (k' = key)) as [-> | Hne]; cbn.
    + destruct (decide (key ∈ key :: map fst rest)) as [_ | H];
        [reflexivity | exfalso; apply H; left].
    + rewrite IH.
      destruct (decide (key ∈ map fst rest)) as [Hin | Hnotin];
        destruct (decide (key ∈ k' :: map fst rest)) as [Hin' | Hnotin'];
        try reflexivity.
      * exfalso. apply Hnotin'. right. exact Hin.
      * exfalso. apply elem_of_cons in Hin' as [-> | Hin']; contradiction.
Qed.

Lemma cache_get_None (k : string) (cache : list (string * CacheEntry (D := D))) :
  k ∉ map fst cache -> cache_get k cache = None.
Proof.
  induction cache as [| [k' e'] rest IH]; cbn; [reflexivity |].
  intros Hk. apply not_elem_of_cons in Hk as [Hne Hk].
  destruct (decide (k' = k)); [congruence | exact (IH Hk)].
Qed.

Lemma cache_delete_first (k0 : string) (e0 : CacheEntry (D := D))
    (rest : list (string * CacheEntry)) :
  k0 ∉ map fst rest -> cache_delete k0 ((k0, e0) :: rest) = rest.
Proof.
  intros Hk0. unfold cache_delete. rewrite filter_cons. cbn.
  destruct (decide (k0 <> k0)) as [H | _]; [congruence |].
  apply filter_all. intros [k e] Hin. cbn. intros ->.
  apply Hk0. apply list_elem_of_fmap. exists (k0, e). auto.
Qed.

End MemoryCacheFacts.

(** The memory cache stays within its bound.  With a bound of at least one
    entry, an update of a cache that respects the bound leaves a cache that
    respects it; the entry just written can be read back; and every other
    key reads as before, except the oldest key, which is evicted when the
    cache was full. *)
Theorem updateMemoryCache_bounded {D : Type} (maxMemoryCache : nat) (now : Z)
    (key : string) (data : D)
    (cache : list (string * OptimizedStorageManager.CacheEntry)) :
  (1 <= maxMemoryCache)%nat ->
  NoDup (map fst cache) ->
  (length cache <= maxMemoryCache)%nat ->
  let cache' :=
    OptimizedStorageManager.updateMemoryCache maxMemoryCache now key data
      cache in
  let evicted :=
    if (maxMemoryCache <=? length cache)%nat then fst <$> head cache
    else None in
  NoDup (map fst cache')
  /\ (length cache' <= maxMemoryCache)%nat
  /\ OptimizedStorageManager.cache_get key cache'
     = Some (OptimizedStorageManager.mkCacheEntry data now)
  /\ forall k,
       k <> key ->
       OptimizedStorageManager.cache_get k cache'
       = if decide (evicted = Some k) then None
         else OptimizedStorageManager.cache_get k cache.
Proof.
  intros Hmax Hnd Hlen cache' evicted.
  set (e := OptimizedStorageManager.mkCacheEntry data now).
  assert (Hset : forall c,
             NoDup (map fst c) ->
             NoDup (map fst (OptimizedStorageManager.cache_set key e c))
             /\ (length (OptimizedStorageManager.cache_set key e c)
                 <= S (length c))%nat).
  { intros c Hc. rewrite <- (length_map fst), cache_set_keys.
    destruct (decide (key ∈ map fst c)) as [Hin | Hnotin].
    - rewrite length_map. split; [exact Hc | lia].
    - rewrite length_app, length_map. cbn. split; [| lia].
      apply NoDup_app. split; [exact Hc |]. split.
      + intros x Hx Hx'. apply list_elem_of_singleton in Hx'. congruence.
      + apply NoDup_singleton. }
  subst cache' evicted. unfold OptimizedStorageManager.updateMemoryCache.
  fold e. destruct (maxMemoryCache <=? length cache)%nat eqn:Efull.
  - apply Nat.leb_le in Efull.
    destruct cache as [| [k0 e0] rest]; [cbn in Efull; lia |].
    cbn [map fst] in Hnd. apply NoDup_cons in Hnd as [Hk0 Hnd].
    rewrite (cache_delete_first k0 e0 rest Hk0).
    destruct (Hset rest Hnd) as [Hnd' Hlen'].
    split; [exact Hnd' |]. split; [cbn in Hlen; lia |].
    rewrite !cache_get_set.
    split; [destruct (decide (key = key)); [reflexivity | congruence] |].
    intros k Hk. rewrite cache_get_set.
    destruct (decide (key = k)) as [-> | _]; [congruence |].
    cbn [head fmap option_fmap option_map fst].
    cbn [OptimizedStorageManager.cache_get].
    destruct (decide (Some k0 = Some k)) as [[= ->] | Hne].
    + apply cache_get_None. exact Hk0.
    + destruct (decide (k0 = k)); [congruence | reflexivity].
  - apply Nat.leb_gt in Efull.
    destruct (Hset cache Hnd) as [Hnd' Hlen'].
    split; [exact Hnd' |]. split; [lia |].
    rewrite cache_get_set.
    split; [destruct (decide (key = key)); [reflexivity | congruence] |].
    intros k Hk. rewrite cache_get_set.
    destruct (decide (key = k)) as [-> | _]; [congruence |].
    destruct (decide (None = Some k)); [discriminate | reflexivity].
Qed.

(** A full cache of two folders receives a third. *)
Lemma updateMemoryCache_bounded_witness :
  let cache :=
    [("folder_1"%string, OptimizedStorageManager.mkCacheEntry 10%nat 100);
     ("folder_2"%string, OptimizedStorageManager.mkCacheEntry 20%nat 200)] in
  let cache' :=
    OptimizedStorageManager.updateMemoryCache 2 300 "folder_3" 30%nat cache in
  let evicted :=
    if (2 <=? length cache)%nat then fst <$> head cache else None in
  NoDup (map fst cache')
  /\ (length cache' <= 2)%nat
  /\ OptimizedStorageManager.cache_get "folder_3" cache'
     = Some (OptimizedStorageManager.mkCacheEntry 30%nat 300)
  /\ forall k,
       k <> "folder_3"%string ->
       OptimizedStorageManager.cache_get k cache'
       = if decide (evicted = Some k) then None
         else OptimizedStorageManager.cache_get k cache.
Proof.
  apply (updateMemoryCache_bounded 2 300 "folder_3" 30%nat
           [("folder_1"%string, OptimizedStorageManager.mkCacheEntry 10%nat 100);
            ("folder_2"%string, OptimizedStorageManager.mkCacheEntry 20%nat 200)]).
  - lia.
  - cbn. apply NoDup_cons. split; [| apply NoDup_singleton].
    intros H. apply list_elem_of_singleton in H. discriminate.
  - cbn. lia.
Defined.

Section RecordKeys.
Import OptimizedStorageManager.

Lemma free_app (c : ascii) (s t : string) :
  free c (s +:+ t) <-> free c s /\ free c t.
Proof.
  induction s as [| a s IH].
  - change ("" +:+ t)%string with t. cbn. tauto.
  - change (String a s +:+ t)%string with (String a (s +:+ t)).
    cbn. rewrite IH. tauto.
Qed.

Lemma pretty_N_go_free (c : ascii) (x : N) (s : string) :
  (forall d, (d < 10)%N -> pretty_N_char d <> c) ->
  free c s -> free c (pretty_N_go x s).
Proof.
  intros Hc. revert s.
  induction (N.lt_wf_0 x) as [x _ IH]; intros s Hs.
  destruct (decide (x = 0)%N) as [-> | Hx].
  - rewrite pretty_N_go_0. exact Hs.
  - rewrite pretty_N_go_step by lia. apply IH.
    + apply N.div_lt; lia.
    + cbn. split; [| exact Hs]. apply Hc. apply N.mod_lt. lia.
Qed.

Lemma pretty_N_char_not_underscore (d : N) :
  (d < 10)%N -> pretty_N_char d <> "_"%char.
Proof. intros _. unfold pretty_N_char. repeat case_match; discriminate. Qed.

Lemma pretty_N_free (x : N) : free "_" (pretty x).
Proof.
  unfold pretty, pretty_N. destruct (decide (x = 0)%N).
  - cbn. split; [discriminate | exact I].
  - apply pretty_N_go_free; [exact pretty_N_char_not_underscore | exact I].
Qed.

Lemma pretty_nat_free (x : nat) : free "_" (pretty x).
Proof. apply pretty_N_free. Qed.

Lemma pretty_Z_free (x : Z) : free "_" (pretty x).
Proof.
  destruct x as [| p | p].
  - cbn. split; [discriminate | exact I].
  - apply pretty_N_free.
  - change (pretty (Z.neg p)) with (String "-" (pretty (N.pos p))).
    cbn. split; [discriminate | apply pretty_N_free].
Qed.

Lemma append_nil_l (s : string) : ("" +:+ s)%string = s.
Proof. reflexivity. Qed.

Lemma append_cons (a : ascii) (s t : string) :
  (String a s +:+ t)%string = String a (s +:+ t).
Proof. reflexivity. Qed.

(** Two texts that agree up to a separator their first parts do not hold
    have equal parts. *)
Lemma split_at_first (c : ascii) (p1 p2 r1 r2 : string) :
  free c p1 -> free c p2 ->
  (p1 +:+ String c r1 = p2 +:+ String c r2)%string ->
  p1 = p2 /\ r1 = r2.
Proof.
  revert p2. induction p1 as [| a p1 IH]; intros [| b p2] H1 H2 H;
    rewrite ?append_nil_l, ?append_cons in H.
  - injection H as ->. auto.
  - injection H as <- _. cbn in H2. destruct H2 as [H2 _]. congruence.
  - injection H as -> _. cbn in H1. destruct H1 as [H1 _]. congruence.
  - injection H as -> H. cbn in H1, H2.
    destruct (IH p2 (proj2 H1) (proj2 H2) H) as [-> ->]. auto.
Qed.

(** The same for a separator their last parts do not hold. *)
Lemma split_at_last (c : ascii) (n1 n2 d1 d2 : string) :
  free c d1 -> free c d2 ->
  (n1 +:+ String c d1 = n2 +:+ String c d2)%string ->
  n1 = n2 /\ d1 = d2.
Proof.
  intros H1 H2. revert n2. induction n1 as [| a n1 IH]; intros [| b n2] H;
    rewrite ?append_nil_l, ?append_cons in H.
  - injection H as ->. auto.
  - injection H as <- ->. apply free_app in H1 as [_ H1]. cbn in H1.
    destruct H1 as [H1 _]. congruence.
  - injection H as -> <-. apply free_app in H2 as [_ H2]. cbn in H2.
    destruct H2 as [H2 _]. congruence.
  - injection H as -> H. destruct (IH n2 H) as [-> ->]. auto.
Qed.

Lemma annotation_id_inj (f1 f2 : Z) (n1 n2 : string) :
  annotation_id f1 n1 = annotation_id f2 n2 -> f1 = f2 /\ n1 = n2.
Proof.
  unfold annotation_id.
  change ((pretty f1 +:+ String "_" n1)%string
          = (pretty f2 +:+ String "_" n2)%string -> f1 = f2 /\ n1 = n2).
  intros H.
  apply split_at_first in H as [Hf ->]; try apply pretty_Z_free.
  apply (inj pretty) in Hf. auto.
Qed.

Lemma chunk_id_inj (f1 f2 : Z) (n1 n2 : string) (k1 k2 : nat) :
  chunk_id f1 n1 k1 = chunk_id f2 n2 k2 -> f1 = f2 /\ n1 = n2 /\ k1 = k2.
Proof.
  unfold chunk_id.
  change ((pretty f1 +:+ String "_" (n1 +:+ String "_" (pretty k1)))%string
          = (pretty f2 +:+ String "_" (n2 +:+ String "_" (pretty k2)))%string
          -> f1 = f2 /\ n1 = n2 /\ k1 = k2).
  intros H.
  apply split_at_first in H as [Hf H]; try apply pretty_Z_free.
  apply split_at_last in H as [-> Hk]; try apply pretty_nat_free.
  apply (inj pretty) in Hf. apply (inj pretty) in Hk. auto.
Qed.

End RecordKeys.

Section ChunkWrites.
Import OptimizedStorageManager.

Lemma ceil_div_nonzero (len chunkSize : nat) :
  (0 < len)%nat -> (0 < ceil_div len chunkSize)%nat.
Proof.
  intros Hlen. unfold ceil_div.
  destruct (len mod chunkSize =? 0)%nat eqn:E; [| lia].
  apply Nat.eqb_eq in E.
  pose proof (Nat.div_mod_eq len chunkSize) as Hdm.
  destruct (len / chunkSize)%nat; lia.
Qed.

(** The first chunk of a payload that is not empty is never added. *)
Lemma add_chunks_throws chunkSize now folderId image dataURL imageIndex :
  dataURL <> [] ->
  add_chunks (image_chunks chunkSize now folderId image dataURL imageIndex)
  = Throw TransactionInactiveError.
Proof.
  intros Hne. unfold image_chunks.
  assert (Hpos : (0 < ceil_div (length dataURL) chunkSize)%nat).
  { apply ceil_div_nonzero. destruct dataURL; [congruence | cbn; lia]. }
  destruct (ceil_div (length dataURL) chunkSize); [lia |]. reflexivity.
Qed.

Lemma deleteImageChunks_sub folderId imageName store c :
  c ∈ deleteImageChunks folderId imageName store -> c ∈ store.
Proof.
  unfold deleteImageChunks. intros H.
  apply list_elem_of_filter in H. tauto.
Qed.

(** The batch writer up to the first image that has data. *)
Lemma processBatchImages_passes chunkSize now folderId
    (before : list ImageFile.t) (rest : list ImageFile.t) startIndex store :
  Forall without_data before ->
  processBatchImages chunkSize now folderId (before ++ rest) startIndex store
  = processBatchImages chunkSize now folderId rest
      (length before + startIndex) store.
Proof.
  revert startIndex. induction before as [| image before IH];
    intros startIndex Hall; [reflexivity |].
  apply Forall_cons in Hall as [Himage Hall].
  cbn [app processBatchImages length].
  replace (S (length before) + startIndex)%nat
    with (length before + S startIndex)%nat by lia.
  destruct Himage as [-> | ->]; apply IH, Hall.
Qed.

End ChunkWrites.

(** Nothing is ever written to the chunk store.  [saveImageInChunks]
    deletes the chunks the store holds for the image and then, for every
    payload that is not empty and whatever the chunk size, throws a
    [TransactionInactiveError] at its first [add]: the transaction it adds
    through has ended while the deletion was awaited.  [processBatchImages]
    therefore ends normally only when no image of the batch has data, and
    then leaves the store as it is; otherwise it is rejected at the first
    image with data, having deleted the chunks of that image and nothing
    else.  Either way no record is added, and a folder the store held
    nothing of reads back as empty. *)
Theorem chunk_writes_never_land (chunkSize : nat) (now : nat -> Z)
    (folderId : Z) (store : list ChunkRecord.t) :
  (forall image dataURL imageIndex,
      let saved :=
        OptimizedStorageManager.saveImageInChunks chunkSize now folderId
          image dataURL imageIndex store in
      fst saved
      = OptimizedStorageManager.deleteImageChunks folderId
          (ImageFile.name image) store
      /\ chunks_of (fst saved) folderId (ImageFile.name image) = []
      /\ (dataURL <> [] ->
          snd saved
          = OptimizedStorageManager.Throw
              OptimizedStorageManager.TransactionInactiveError)
      /\ (dataURL = [] -> snd saved = OptimizedStorageManager.Normal tt))
  /\ (forall imageBatch startIndex,
        let saved :=
          OptimizedStorageManager.processBatchImages chunkSize now folderId
            imageBatch startIndex store in
        (Forall without_data imageBatch ->
         saved = (store, OptimizedStorageManager.Normal tt))
        /\ (forall before image after,
              imageBatch = before ++ image :: after ->
              Forall without_data before ->
              ~ without_data image ->
              saved
              = (OptimizedStorageManager.deleteImageChunks folderId
                   (ImageFile.name image) store,
                 OptimizedStorageManager.Throw
                   OptimizedStorageManager.TransactionInactiveError))
        /\ (forall c, c ∈ fst saved -> c ∈ store)
        /\ ((forall c, c ∈ store -> ChunkRecord.folderId c <> folderId) ->
            OptimizedStorageManager.getImageFiles (fst saved) folderId None
            = OptimizedStorageManager.Normal [])).
Proof.
  split.
  - intros image dataURL imageIndex saved. subst saved.
    unfold OptimizedStorageManager.saveImageInChunks. cbn [fst snd].
    split; [reflexivity |]. split; [| split].
    + unfold chunks_of, OptimizedStorageManager.deleteImageChunks.
      rewrite !list_filter_filter. apply filter_none.
      intros c _. tauto.
    + apply add_chunks_throws.
    + intros ->.
      unfold OptimizedStorageManager.image_chunks,
        OptimizedStorageManager.ceil_div.
      cbn [length]. rewrite Nat.Div0.mod_0_l, Nat.Div0.div_0_l. reflexivity.
  - intros imageBatch startIndex saved.
    assert (Hnone : Forall without_data imageBatch ->
                    saved = (store, OptimizedStorageManager.Normal tt)).
    { intros Hall. subst saved.
      rewrite <- (app_nil_r imageBatch).
      rewrite (processBatchImages_passes _ _ _ _ [] _ _ Hall). reflexivity. }
    assert (Hfirst : forall before image after,
               imageBatch = before ++ image :: after ->
               Forall without_data before ->
               ~ without_data image ->
               saved
               = (OptimizedStorageManager.deleteImageChunks folderId
                    (ImageFile.name image) store,
                  OptimizedStorageManager.Throw
                    OptimizedStorageManager.TransactionInactiveError)).
    { intros before image after -> Hall Himage. subst saved.
      rewrite (processBatchImages_passes _ _ _ _ _ _ _ Hall).
      cbn [OptimizedStorageManager.processBatchImages].
      destruct (ImageFile.dataURL image) as [[| c s] |] eqn:E.
      - exfalso. apply Himage. right. exact E.
      - unfold OptimizedStorageManager.saveImageInChunks.
        rewrite add_chunks_throws by discriminate. reflexivity.
      - exfalso. apply Himage. left. exact E. }
    assert (Hcases : Forall without_data imageBatch
                     \/ exists before image after,
                          imageBatch = before ++ image :: after
                          /\ Forall without_data before
                          /\ ~ without_data image).
    { clear. induction imageBatch as [| image rest IH]; [left; constructor |].
      assert (Hdec : without_data image \/ ~ without_data image).
      { unfold without_data.
        destruct (ImageFile.dataURL image) as [[| c s] |]; auto.
        right. intros [H | H]; discriminate. }
      destruct Hdec as [Hi | Hi].
      - destruct IH as [IH | (before & image' & after & -> & Hb & Hn)].
        + left. constructor; assumption.
        + right. exists (image :: before), image', after.
          split; [reflexivity |]. split; [constructor; assumption | exact Hn].
      - right. exists [], image, rest. split; [reflexivity |].
        split; [constructor | exact Hi]. }
    assert (Hsub : forall c, c ∈ fst saved -> c ∈ store).
    { destruct Hcases as [Hall | (before & image & after & E & Hb & Hn)].
      - rewrite (Hnone Hall). auto.
      - rewrite (Hfirst _ _ _ E Hb Hn). cbn [fst].
        intros c. apply deleteImageChunks_sub. }
    split; [exact Hnone |]. split; [exact Hfirst |]. split; [exact Hsub |].
    intros Hfresh.
    unfold OptimizedStorageManager.getImageFiles.
    rewrite (filter_none _ (fst saved)); [reflexivity |].
    intros c Hc. apply Hfresh, Hsub, Hc.
Qed.

(** A batch of three images written with chunk size 4 into a store that
    holds two chunks of the second one: the first image has no data, the
    save of the second is rejected after its old chunks have been deleted,
    and the third is never looked at. *)
Lemma chunk_writes_never_land_witness :
  let a := ImageFile.mk "a.jpg" "image/jpeg" 0 0 None in
  let b := ImageFile.mk "b.jpg" "image/jpeg" 6 0
             (Some (list_ascii_of_string "bbbbBB")) in
  let c := ImageFile.mk "c.jpg" "image/jpeg" 2 0
             (Some (list_ascii_of_string "cc")) in
  let old :=
    OptimizedStorageManager.image_chunks 4 (fun _ => 0) 1 b
      (list_ascii_of_string "oldOLD") 1 in
  OptimizedStorageManager.processBatchImages 4 (fun _ => 0) 1 [a; b; c] 0 old
  = ([], OptimizedStorageManager.Throw
           OptimizedStorageManager.TransactionInactiveError).
Proof.
  intros a b c old.
  destruct (chunk_writes_never_land 4 (fun _ => 0) 1 old) as [_ H].
  destruct (H [a; b; c] 0%nat) as (_ & Hfirst & _).
  rewrite (Hfirst [a] b [c] eq_refl).
  - reflexivity.
  - repeat constructor.
  - intros [Hb | Hb]; discriminate.
Defined.

Section AnnotationStore.
Import OptimizedStorageManager.

(** What the cursor loop of [getAnnotationData] leaves under a name: the
    data of the last record of that name. *)
Lemma annotation_fold_lookup (l : list AnnotationRecord.t)
    (m0 : gmap string AnnotationEntry.t) (n : string) :
  fold_left
    (fun annotations record =>
       <[AnnotationRecord.imageName record := AnnotationRecord.data record]>
         annotations)
    l m0 !! n
  = match last (filter (fun r => AnnotationRecord.imageName r = n) l) with
    | Some r => Some (AnnotationRecord.data r)
    | None => m0 !! n
    end.
Proof.
  induction l as [| r l IH] using rev_ind; [reflexivity |].
  rewrite fold_left_app. cbn [fold_left]. rewrite filter_app, filter_cons.
  destruct (decide (AnnotationRecord.imageName r = n)) as [<- | Hne].
  - rewrite lookup_insert_eq. rewrite filter_nil, last_snoc. reflexivity.
  - rewrite lookup_insert_ne by exact Hne.
    rewrite filter_nil, app_nil_r. exact IH.
Qed.

(** Reading a folder's annotations from a store with sound keys. *)
Lemma getAnnotationData_lookup (store : gmap string AnnotationRecord.t)
    (cursor : list AnnotationRecord.t) (folderId : Z) (n : string) :
  annotation_keys_ok store ->
  Permutation cursor (map snd (map_to_list store)) ->
  getAnnotationData cursor folderId !! n
  = AnnotationRecord.data <$> store !! annotation_id folderId n.
Proof.
  intros Hok Hperm. unfold getAnnotationData.
  rewrite annotation_fold_lookup. rewrite lookup_empty.
  set (hits := filter _ (filter _ cursor)).
  assert (Hhit : forall r, r ∈ hits <->
                           store !! annotation_id folderId n = Some r).
  { intros r. unfold hits. rewrite !list_elem_of_filter. rewrite Hperm.
    rewrite list_elem_of_fmap. split.
    - intros (Hn & Hf & [id r'] & -> & Hin). cbn in *.
      apply elem_of_map_to_list in Hin. pose proof (Hok _ _ Hin) as Hid.
      rewrite Hn, Hf in Hid. rewrite <- Hid. exact Hin.
    - intros Hin. pose proof (Hok _ _ Hin) as Hid.
      apply annotation_id_inj in Hid as [Hf Hn].
      split; [auto |]. split; [auto |].
      exists (annotation_id folderId n, r). split; [reflexivity |].
      apply elem_of_map_to_list. exact Hin. }
  destruct (last hits) as [r |] eqn:El.
  - assert (Hr : r ∈ hits).
    { apply last_Some in El as [l' ->]. apply elem_of_app. right. left. }
    apply Hhit in Hr. rewrite Hr. reflexivity.
  - apply last_None in El.
    destruct (store !! annotation_id folderId n) as [r |] eqn:E;
      [| reflexivity].
    assert (Hr : r ∈ hits) by (apply Hhit; reflexivity).
    rewrite El in Hr. inversion Hr.
Qed.

(** What the loop of [saveAnnotationData] leaves in the store. *)
Lemma put_annotations_spec (now : string -> Z) (folderId : Z)
    (l : list (string * AnnotationEntry.t)) :
  NoDup (map fst l) ->
  forall store,
    annotation_keys_ok store ->
    annotation_keys_ok (put_annotations now folderId l store)
    /\ (forall n a,
          (n, a) ∈ l ->
          put_annotations now folderId l store !! annotation_id folderId n
          = Some (annotation_record now folderId (n, a)))
    /\ (forall f n,
          (f <> folderId \/ n ∉ map fst l) ->
          put_annotations now folderId l store !! annotation_id f n
          = store !! annotation_id f n).
Proof.
  induction l as [| [n0 a0] l IH]; intros Hnd store Hok.
  - split; [exact Hok |]. split; [intros n a H; inversion H | reflexivity].
  - cbn [map fst] in Hnd. apply NoDup_cons in Hnd as [Hn0 Hnd].
    set (r0 := annotation_record now folderId (n0, a0)).
    change (put_annotations now folderId ((n0, a0) :: l) store)
      with (put_annotations now folderId l
              (<[annotation_id folderId n0 := r0]> store)).
    assert (Hok1 : annotation_keys_ok
                     (<[annotation_id folderId n0 := r0]> store)).
    { intros id r Hid.
      destruct (decide (annotation_id folderId n0 = id)) as [<- | Hne].
      - rewrite lookup_insert_eq in Hid. injection Hid as <-. reflexivity.
      - rewrite lookup_insert_ne in Hid by exact Hne. apply Hok, Hid. }
    destruct (IH Hnd _ Hok1) as (Hok' & Hin & Hout).
    split; [exact Hok' |]. split.
    + intros n a Hna. apply elem_of_cons in Hna as [[= -> ->] | Hna].
      * rewrite (Hout folderId n0 (or_intror Hn0)).
        apply lookup_insert_eq.
      * apply Hin. exact Hna.
    + intros f n Hfn.
      rewrite Hout.
      * apply lookup_insert_ne. intros Heq.
        apply annotation_id_inj in Heq as [<- <-].
        destruct Hfn as [Hf | Hn]; [congruence |].
        apply Hn. cbn [map fst]. left.
      * destruct Hfn as [Hf | Hn]; [left; exact Hf |].
        right. intros Hin'. apply Hn. cbn [map fst]. right. exact Hin'.
Qed.

End AnnotationStore.

(** Saving and reading the annotations of a folder in the optimised store.
    In a store whose records carry the id built from their folder and image
    name, after [saveAnnotationData] the annotations read for the folder
    are the saved entries together with the entries the store held before
    for other images of the folder: saved entries replace older ones of
    the same image and nothing is ever removed.  The annotations of every
    other folder read as before.  The cursor may visit the records in any
    order. *)
Theorem annotation_data_roundtrip (now : string -> Z) (folderId : Z)
    (annotations : gmap string AnnotationEntry.t)
    (store : gmap string AnnotationRecord.t)
    (cursor cursor' : list AnnotationRecord.t) :
  annotation_keys_ok store ->
  Permutation cursor (map snd (map_to_list store)) ->
  Permutation cursor'
    (map snd
       (map_to_list
          (OptimizedStorageManager.saveAnnotationData now folderId
             (Some annotations) store))) ->
  annotation_keys_ok
    (OptimizedStorageManager.saveAnnotationData now folderId
       (Some annotations) store)
  /\ OptimizedStorageManager.getAnnotationData cursor' folderId
     = annotations ∪ OptimizedStorageManager.getAnnotationData cursor folderId
  /\ forall folderId',
       folderId' <> folderId ->
       OptimizedStorageManager.getAnnotationData cursor' folderId'
       = OptimizedStorageManager.getAnnotationData cursor folderId'.
Proof.
  intros Hok Hperm Hperm'.
  unfold OptimizedStorageManager.saveAnnotationData in *.
  destruct (size annotations =? 0)%nat eqn:Esize.
  - apply Nat.eqb_eq, map_size_empty_iff in Esize. subst annotations.
    split; [exact Hok |]. split.
    + rewrite (left_id_L ∅ (∪)). apply map_eq. intros n.
      rewrite (getAnnotationData_lookup store cursor' folderId n Hok Hperm').
      rewrite (getAnnotationData_lookup store cursor folderId n Hok Hperm).
      reflexivity.
    + intros f _. apply map_eq. intros n.
      rewrite (getAnnotationData_lookup store cursor' f n Hok Hperm').
      rewrite (getAnnotationData_lookup store cursor f n Hok Hperm).
      reflexivity.
  - destruct (put_annotations_spec now folderId (map_to_list annotations)
                (NoDup_fst_map_to_list annotations) store Hok)
      as (Hok' & Hin & Hout).
    split; [exact Hok' |]. split.
    + apply map_eq. intros n.
      rewrite (getAnnotationData_lookup _ cursor' folderId n Hok' Hperm').
      rewrite lookup_union.
      rewrite (getAnnotationData_lookup store cursor folderId n Hok Hperm).
      destruct (annotations !! n) as [a |] eqn:En.
      * assert (Hna : (n, a) ∈ map_to_list annotations)
          by (apply elem_of_map_to_list; exact En).
        rewrite (Hin n a Hna). cbn.
        destruct (store !! _); reflexivity.
      * rewrite (Hout folderId n).
        -- destruct (store !! _); reflexivity.
        -- right. intros Hel.
           apply list_elem_of_fmap in Hel as ([n' a] & -> & Hna).
           apply elem_of_map_to_list in Hna. cbn in En. congruence.
    + intros f Hf. apply map_eq. intros n.
      rewrite (getAnnotationData_lookup _ cursor' f n Hok' Hperm').
      rewrite (getAnnotationData_lookup store cursor f n Hok Hperm).
      rewrite (Hout f n (or_introl Hf)). reflexivity.
Qed.

(** Folder 1 holds annotations for two images and receives a new entry for
    one of them; folder 12 has an image whose name starts like an id. *)
Lemma annotation_data_roundtrip_witness :
  let entry name := AnnotationEntry.mk name (Some []) in
  let entry' name :=
    AnnotationEntry.mk name
      (Some [Annotation.mk 1000 (Some "hello"%string) None true]) in
  let store : gmap string AnnotationRecord.t :=
    OptimizedStorageManager.put_annotations (fun _ => 0) 12
      [("3_a.jpg"%string, entry "3_a.jpg"%string)]
      (OptimizedStorageManager.put_annotations (fun _ => 0) 1
         [("a.jpg"%string, entry "a.jpg"%string);
          ("b.jpg"%string, entry "b.jpg"%string)] ∅) in
  let store' :=
    OptimizedStorageManager.saveAnnotationData (fun _ => 5) 1
      (Some {["a.jpg"%string := entry' "a.jpg"%string]}) store in
  annotation_keys_ok store'
  /\ OptimizedStorageManager.getAnnotationData
       (map snd (map_to_list store')) 1
     = {["a.jpg"%string := entry' "a.jpg"%string]}
       ∪ OptimizedStorageManager.getAnnotationData
           (map snd (map_to_list store)) 1
  /\ forall folderId',
       folderId' <> 1 ->
       OptimizedStorageManager.getAnnotationData
         (map snd (map_to_list store')) folderId'
       = OptimizedStorageManager.getAnnotationData
           (map snd (map_to_list store)) folderId'.
Proof.
  intros entry entry' store store'.
  apply (annotation_data_roundtrip (fun _ => 5) 1
           {["a.jpg"%string := entry' "a.jpg"%string]} store
           (map snd (map_to_list store)) (map snd (map_to_list store'))).
  - subst store.
    apply put_annotations_spec;
      [cbn; apply NoDup_singleton |].
    apply put_annotations_spec.
    + cbn. apply NoDup_cons. split; [| apply NoDup_singleton].
      intros H. apply list_elem_of_singleton in H. discriminate.
    + intros id r H. rewrite lookup_empty in H. discriminate.
  - reflexivity.
  - reflexivity.
Defined.

(* ===================================================================== *)
(** ** Optimised store: reading a range of images *)
(* ===================================================================== *)

Section SortAndFilter.
Context {A : Type} (key : A -> nat).
Context (P : A -> Prop) `{!forall x, Decision (P x)}.

Lemma sort_insert_is_sorted (x : A) (l : list A) :
  Sorted (fun a b => (key a <= key b)%nat) l ->
  Sorted (fun a b => (key a <= key b)%nat) (sort_insert key x l).
Proof.
  induction 1 as [| y l Hs IH Hhd]; cbn.
  - repeat constructor.
  - destruct (key x <=? key y)%nat eqn:E.
    + apply Nat.leb_le in E. repeat constructor; assumption.
    + apply Nat.leb_gt in E. constructor; [exact IH |].
      destruct Hhd as [| z l Hyz]; cbn.
      * constructor. lia.
      * destruct (key x <=? key z)%nat; constructor; [lia | exact Hyz].
Qed.

Lemma sort_by_is_sorted (l : list A) :
  Sorted (fun a b => (key a <= key b)%nat) (sort_by key l).
Proof.
  induction l as [| x l IH]; cbn; [constructor |].
  apply sort_insert_is_sorted, IH.
Qed.

Lemma sorted_key_le (x : A) (l : list A) :
  Sorted (fun a b => (key a <= key b)%nat) (x :: l) ->
  Forall (fun y => (key x <= key y)%nat) l.
Proof.
  intros Hs. apply Sorted_StronglySorted in Hs.
  - apply StronglySorted_inv in Hs as [_ Hall].
    rewrite Forall_forall. rewrite List.Forall_forall in Hall.
    intros y Hy. apply Hall. apply list_elem_of_In. exact Hy.
  - intros a b c Hab Hbc. lia.
Qed.

Lemma filter_sort_insert (x : A) (l : list A) :
  Sorted (fun a b => (key a <= key b)%nat) l ->
  filter P (sort_insert key x l)
  = if decide (P x) then sort_insert key x (filter P l) else filter P l.
Proof.
  induction l as [| y l IH]; intros Hs.
  - cbn [sort_insert]. rewrite filter_cons, filter_nil.
    destruct (decide (P x)); reflexivity.
  - pose proof (sorted_key_le y l Hs) as Hall.
    apply Sorted_inv in Hs as [Hs _]. cbn [sort_insert].
    destruct (key x <=? key y)%nat eqn:E.
    + apply Nat.leb_le in E. rewrite filter_cons.
      destruct (decide (P x)); [| reflexivity].
      symmetry. apply sort_insert_head.
      rewrite filter_cons. destruct (decide (P y)); [constructor; exact E |].
      destruct (filter P l) as [| z l'] eqn:Ef; constructor.
      assert (Hz : z ∈ filter P l) by (rewrite Ef; left).
      apply list_elem_of_filter in Hz as [_ Hz].
      rewrite Forall_forall in Hall. specialize (Hall z Hz). lia.
    + apply Nat.leb_gt in E. rewrite !filter_cons, (IH Hs).
      destruct (decide (P y)); destruct (decide (P x)); try reflexivity.
      cbn [sort_insert].
      destruct (key x <=? key y)%nat eqn:E'; [apply Nat.leb_le in E'; lia |].
      reflexivity.
Qed.

(** Filtering commutes with the stable sort. *)
Lemma sort_by_filter (l : list A) :
  sort_by key (filter P l) = filter P (sort_by key l).
Proof.
  induction l as [| x l IH]; [reflexivity |].
  cbn [sort_by]. rewrite filter_sort_insert by apply sort_by_is_sorted.
  rewrite filter_cons. destruct (decide (P x)); [| exact IH].
  cbn [sort_by]. rewrite IH. reflexivity.
Qed.

End SortAndFilter.

Section ReadingRange.
Import OptimizedStorageManager.

Lemma reconstruct_index (n : string) (cs : list ChunkRecord.t)
    (f : StoredImage.t) :
  reconstructImageFromChunks n cs = Some f ->
  exists first,
    first ∈ cs /\ StoredImage.originalIndex f = ChunkRecord.imageIndex first.
Proof.
  unfold reconstructImageFromChunks, reconstruct_body.
  destruct (sort_by ChunkRecord.chunkIndex cs) as [| first rest] eqn:E;
    [discriminate |].
  destruct (negb _); [discriminate |].
  intros [= <-]. exists first. split; [| reflexivity].
  rewrite <- (sort_by_perm ChunkRecord.chunkIndex), E. left.
Qed.

(** The loop over the groups with a range: what the loop without range
    collects, less the images outside the range. *)
Lemma collect_images_range (range : Range)
    (chunks : list (string * list ChunkRecord.t)) :
  Forall (fun p =>
            snd p <> []
            /\ forall c1 c2, c1 ∈ snd p -> c2 ∈ snd p ->
                 ChunkRecord.imageIndex c1 = ChunkRecord.imageIndex c2)
         chunks ->
  collect_images (Some range) chunks
  = Normal
      (filter (fun f => in_window range (StoredImage.originalIndex f))
         (omap (fun p => reconstructImageFromChunks (fst p) (snd p)) chunks)).
Proof.
  induction 1 as [| [n cs] chunks [Hne Hidx] _ IH]; [reflexivity |].
  cbn [fst snd] in *.
  assert (Hcons :
    omap (fun p => reconstructImageFromChunks (fst p) (snd p))
      ((n, cs) :: chunks)
    = match reconstructImageFromChunks n cs with
      | Some f =>
          f :: omap (fun p => reconstructImageFromChunks (fst p) (snd p))
                 chunks
      | None =>
          omap (fun p => reconstructImageFromChunks (fst p) (snd p)) chunks
      end) by reflexivity.
  rewrite Hcons. clear Hcons.
  cbn [collect_images]. rewrite IH.
  destruct cs as [| first cs']; [contradiction |].
  cbn [in_range].
  set (idx := ChunkRecord.imageIndex first).
  assert (Hrec : forall f,
             reconstructImageFromChunks n (first :: cs') = Some f ->
             StoredImage.originalIndex f = idx).
  { intros f Hf. apply reconstruct_index in Hf as (c & Hc & ->).
    apply Hidx; [exact Hc | left]. }
  destruct (negb _) eqn:Ein.
  - destruct (reconstructImageFromChunks n (first :: cs')) as [f |];
      [| reflexivity].
    rewrite filter_cons. destruct (decide _) as [_ | Hout]; [reflexivity |].
    exfalso. apply Hout. unfold in_window. rewrite (Hrec f eq_refl).
    apply negb_true_iff, orb_false_iff in Ein as [E1 E2].
    apply Nat.ltb_ge in E1. apply Nat.leb_gt in E2. lia.
  - destruct (reconstructImageFromChunks n (first :: cs')) as [f |];
      [| reflexivity].
    rewrite filter_cons. destruct (decide _) as [Hin | _]; [| reflexivity].
    exfalso. unfold in_window in Hin. rewrite (Hrec f eq_refl) in Hin.
    apply negb_false_iff, orb_true_iff in Ein as [E | E].
    + apply Nat.ltb_lt in E. lia.
    + apply Nat.leb_le in E. lia.
Qed.

End ReadingRange.

(** Reading a range of the images of a folder.  When the chunk records of
    each image agree on the index of the image, a read with a range
    resolves with exactly those images of the full read whose index lies
    in the range, in the same order. *)
Theorem getImageFiles_range (store : list ChunkRecord.t) (folderId : Z)
    (range : OptimizedStorageManager.Range) :
  one_index_per_image store folderId ->
  exists files,
    OptimizedStorageManager.getImageFiles store folderId None
    = OptimizedStorageManager.Normal files
    /\ OptimizedStorageManager.getImageFiles store folderId (Some range)
       = OptimizedStorageManager.Normal
           (filter (fun f => in_window range (StoredImage.originalIndex f))
              files).
Proof.
  intros Hone. unfold OptimizedStorageManager.getImageFiles.
  rewrite collect_images_all.
  set (cursor := filter (fun c => ChunkRecord.folderId c = folderId) store).
  destruct (group_chunks_spec cursor) as [Hnd Hget].
  rewrite collect_images_range.
  - eexists. split; [reflexivity |]. rewrite sort_by_filter. reflexivity.
  - rewrite Forall_forall. intros [n cs] Hin. cbn [snd].
    apply (chunks_get_elem _ _ _ Hnd) in Hin. rewrite Hget in Hin.
    destruct (filter (fun c => ChunkRecord.imageName c = n) cursor)
      as [| c0 cs0] eqn:Ef; [discriminate |].
    injection Hin as <-. split; [discriminate |].
    intros c1 c2 Hc1 Hc2. rewrite <- Ef in Hc1, Hc2.
    apply list_elem_of_filter in Hc1 as [Hn1 Hc1].
    apply list_elem_of_filter in Hc2 as [Hn2 Hc2].
    unfold cursor in Hc1, Hc2.
    apply list_elem_of_filter in Hc1 as [Hf1 Hc1].
    apply list_elem_of_filter in Hc2 as [Hf2 Hc2].
    apply Hone; try assumption. congruence.
Qed.

(** The damaged folder of three images, read from its second image on. *)
Lemma getImageFiles_range_witness :
  exists files,
    OptimizedStorageManager.getImageFiles damaged_store 1 None
    = OptimizedStorageManager.Normal files
    /\ OptimizedStorageManager.getImageFiles damaged_store 1
         (Some (OptimizedStorageManager.mkRange 1 5))
       = OptimizedStorageManager.Normal
           (filter (fun f =>
                      in_window (OptimizedStorageManager.mkRange 1 5)
                        (StoredImage.originalIndex f))
              files).
Proof.
  apply (getImageFiles_range damaged_store 1
           (OptimizedStorageManager.mkRange 1 5)).
  intros c1 c2 H1 H2 _ _.
  vm_compute in H1, H2.
  repeat (apply elem_of_cons in H1 as [-> | H1]);
    try (inversion H1; fail);
    repeat (apply elem_of_cons in H2 as [-> | H2]);
    try (inversion H2; fail);
    vm_compute; intros H; first [reflexivity | discriminate H].
Defined.

(* ===================================================================== *)
(** ** Optimised store: reading the chunk records of a batch *)
(* ===================================================================== *)

Section BatchRoundTrip.
Import OptimizedStorageManager.
Context (chunkSize : nat) (now : nat -> Z) (folderId : Z).

Lemma batch_chunks_elem (startIndex : nat) (imageBatch : list ImageFile.t)
    (c : ChunkRecord.t) :
  c ∈ batch_chunks chunkSize now folderId startIndex imageBatch ->
  ChunkRecord.folderId c = folderId
  /\ ChunkRecord.imageName c ∈ map ImageFile.name imageBatch.
Proof.
  revert startIndex. induction imageBatch as [| image rest IH];
    intros startIndex; cbn [batch_chunks]; [intros H; inversion H |].
  intros Hc. apply elem_of_app in Hc as [Hc | Hc].
  - destruct (ImageFile.dataURL image) as [[| ch s] |];
      try (inversion Hc; fail).
    apply image_chunks_elem in Hc as (Hf & Hn & _).
    split; [exact Hf |]. rewrite Hn. cbn [map]. left.
  - destruct (IH _ Hc) as [Hf Hn]. split; [exact Hf |]. cbn [map]. right.
    exact Hn.
Qed.

(** The chunks a saved batch holds for an image name. *)
Lemma batch_chunks_of (imageBatch : list ImageFile.t) :
  NoDup (map ImageFile.name imageBatch) ->
  forall startIndex i image,
    imageBatch !! i = Some image ->
    filter (fun c => ChunkRecord.imageName c = ImageFile.name image)
      (batch_chunks chunkSize now folderId startIndex imageBatch)
    = match ImageFile.dataURL image with
      | Some (c :: s) =>
          image_chunks chunkSize now folderId image (c :: s)
            (startIndex + i)
      | _ => []
      end.
Proof.
  induction imageBatch as [| image0 rest IH]; intros Hnd startIndex i image Hi;
    [discriminate |].
  cbn [map] in Hnd. apply NoDup_cons in Hnd as [Hname Hnd].
  cbn [batch_chunks]. rewrite filter_app. destruct i as [| i]; cbn in Hi.
  - injection Hi as ->. rewrite Nat.add_0_r.
    rewrite (filter_none _ (batch_chunks _ _ _ _ rest)).
    + rewrite app_nil_r.
      destruct (ImageFile.dataURL image) as [[| ch s] |]; try reflexivity.
      apply filter_all. intros c Hc.
      apply image_chunks_elem in Hc as (_ & Hn & _). exact Hn.
    + intros c Hc Hn. apply batch_chunks_elem in Hc as [_ Hc].
      rewrite Hn in Hc. contradiction.
  - rewrite (filter_none _ (match ImageFile.dataURL image0 with
                            | Some (c :: s) => _
                            | _ => []
                            end)).
    + cbn [app]. rewrite (IH Hnd (S startIndex) i image Hi).
      rewrite Nat.add_succ_r. reflexivity.
    + intros c Hc Hn.
      destruct (ImageFile.dataURL image0) as [[| ch s] |];
        try (inversion Hc; fail).
      apply image_chunks_elem in Hc as (_ & Hn0 & _).
      apply Hname. rewrite <- Hn0, Hn.
      apply list_elem_of_fmap. exists image. split; [reflexivity |].
      eapply list_elem_of_lookup_2. exact Hi.
Qed.

Lemma stored_images_elem (imageBatch : list ImageFile.t) (startIndex : nat)
    (f : StoredImage.t) :
  f ∈ stored_images startIndex imageBatch
  <-> exists i image c s,
        imageBatch !! i = Some image
        /\ ImageFile.dataURL image = Some (c :: s)
        /\ f = StoredImage.mk (ImageFile.name image) (ImageFile.type image)
                 (ImageFile.size image) (ImageFile.lastModified image) (c :: s)
                 (startIndex + i).
Proof.
  revert startIndex. induction imageBatch as [| image rest IH];
    intros startIndex; cbn [stored_images].
  - split; [intros H; inversion H | intros (i & ? & ? & ? & H & _)];
      discriminate.
  - split.
    + intros Hf.
      assert (Hrest : f ∈ stored_images (S startIndex) rest ->
                exists i image0 c s,
                  (image :: rest) !! i = Some image0
                  /\ ImageFile.dataURL image0 = Some (c :: s)
                  /\ f = StoredImage.mk (ImageFile.name image0)
                           (ImageFile.type image0) (ImageFile.size image0)
                           (ImageFile.lastModified image0) (c :: s)
                           (startIndex + i)).
      { intros H. apply IH in H as (i & image0 & c & s & Hi & Hd & ->).
        exists (S i), image0, c, s. rewrite Nat.add_succ_r. auto. }
      destruct (ImageFile.dataURL image) as [[| c s] |] eqn:Ed;
        try (apply Hrest; exact Hf).
      apply elem_of_cons in Hf as [-> | Hf]; [| apply Hrest; exact Hf].
      exists 0%nat, image, c, s. rewrite Nat.add_0_r. auto.
    + intros (i & image0 & c & s & Hi & Hd & ->).
      destruct i as [| i]; cbn in Hi.
      * injection Hi as ->. rewrite Hd, Nat.add_0_r. left.
      * assert (Hin : StoredImage.mk (ImageFile.name image0)
                        (ImageFile.type image0) (ImageFile.size image0)
                        (ImageFile.lastModified image0) (c :: s)
                        (startIndex + S i)
                      ∈ stored_images (S startIndex) rest).
        { apply IH. exists i, image0, c, s. rewrite Nat.add_succ_r. auto. }
        destruct (ImageFile.dataURL image) as [[| c' s'] |];
          [exact Hin | right; exact Hin | exact Hin].
Qed.

Lemma stored_images_index (imageBatch : list ImageFile.t) (startIndex : nat) :
  Forall (fun f => (startIndex <= StoredImage.originalIndex f)%nat)
    (stored_images startIndex imageBatch)
  /\ Sorted (fun a b =>
               (StoredImage.originalIndex a <= StoredImage.originalIndex b)%nat)
       (stored_images startIndex imageBatch)
  /\ NoDup (map StoredImage.originalIndex
              (stored_images startIndex imageBatch)).
Proof.
  revert startIndex. induction imageBatch as [| image rest IH];
    intros startIndex; cbn [stored_images].
  - repeat split; constructor.
  - destruct (IH (S startIndex)) as (Hge & Hs & Hnd).
    assert (Hge' : Forall (fun f => (startIndex
                                     <= StoredImage.originalIndex f)%nat)
                     (stored_images (S startIndex) rest)).
    { eapply Forall_impl; [exact Hge |]. cbn. intros; lia. }
    destruct (ImageFile.dataURL image) as [[| c s] |];
      try (split; [exact Hge' | split; assumption]).
    split; [constructor; [cbn; lia | exact Hge'] |]. split.
    + constructor; [exact Hs |].
      destruct (stored_images (S startIndex) rest) as [| f l];
        constructor. cbn. apply Forall_cons in Hge as [Hf _]. lia.
    + cbn [map StoredImage.originalIndex]. apply NoDup_cons.
      split; [| exact Hnd]. intros Hin.
      apply list_elem_of_fmap in Hin as (f & Hf & Hin).
      rewrite Forall_forall in Hge. specialize (Hge f Hin). lia.
Qed.

End BatchRoundTrip.

Section BatchRead.
Import OptimizedStorageManager.

Lemma reconstructed_NoDup (chunks : list (string * list ChunkRecord.t)) :
  NoDup (map fst chunks) ->
  NoDup (omap (fun p => reconstructImageFromChunks (fst p) (snd p)) chunks).
Proof.
  induction chunks as [| [n cs] chunks IH]; intros Hnd; [constructor |].
  cbn [map fst] in Hnd. apply NoDup_cons in Hnd as [Hn Hnd].
  assert (Hcons :
    omap (fun p => reconstructImageFromChunks (fst p) (snd p))
      ((n, cs) :: chunks)
    = match reconstructImageFromChunks n cs with
      | Some f =>
          f :: omap (fun p => reconstructImageFromChunks (fst p) (snd p))
                 chunks
      | None =>
          omap (fun p => reconstructImageFromChunks (fst p) (snd p)) chunks
      end) by reflexivity.
  rewrite Hcons. clear Hcons.
  destruct (reconstructImageFromChunks n cs) as [f |] eqn:Ef;
    [| exact (IH Hnd)].
  apply NoDup_cons. split; [| exact (IH Hnd)].
  intros Hin. apply list_elem_of_omap in Hin as ([n' cs'] & Hin & Hf').
  cbn [fst snd] in Hf'.
  apply reconstruct_Some in Ef as (_ & _ & _ & _ & Hname & _).
  apply reconstruct_Some in Hf' as (_ & _ & _ & _ & Hname' & _).
  apply Hn. apply list_elem_of_fmap. exists (n', cs'). split; [| exact Hin].
  cbn. congruence.
Qed.

End BatchRead.

(** Reading the chunk records of a batch.  For a chunk size of at least
    one and a batch of images with distinct names: a store that holds, for
    the folder, exactly the chunk records built for the images of the batch
    is read, whatever the order in which it lists its records and whatever
    it holds of other folders, as exactly the images of the batch that have
    a non-empty data URL, each with its name, type, size, modification time
    and data, numbered by its position in the batch and in that order. *)
Theorem batch_records_read_back (chunkSize : nat) (now : nat -> Z)
    (folderId : Z) (imageBatch : list ImageFile.t) (startIndex : nat)
    (store stored : list ChunkRecord.t) :
  (1 <= chunkSize)%nat ->
  NoDup (map ImageFile.name imageBatch) ->
  (forall c, c ∈ store -> ChunkRecord.folderId c <> folderId) ->
  Permutation stored
    (store ++ batch_chunks chunkSize now folderId startIndex imageBatch) ->
  OptimizedStorageManager.getImageFiles stored folderId None
  = OptimizedStorageManager.Normal (stored_images startIndex imageBatch).
Proof.
  intros Hsize Hnd Hstore Hperm.
  set (B := batch_chunks chunkSize now folderId startIndex imageBatch) in *.
  unfold OptimizedStorageManager.getImageFiles.
  rewrite collect_images_all.
  set (cursor := filter (fun c => ChunkRecord.folderId c = folderId) stored).
  assert (Hcursor : Permutation cursor B).
  { unfold cursor. rewrite Hperm, filter_app.
    rewrite (filter_none _ store)
      by (intros c Hc Hf; exact (Hstore c Hc Hf)).
    cbn [app]. rewrite filter_all; [reflexivity |].
    intros c Hc. apply batch_chunks_elem in Hc. tauto. }
  destruct (group_chunks_spec cursor) as [Hkeys Hget].
  set (files := omap _ (OptimizedStorageManager.group_chunks cursor)).
  assert (Hgroup : forall i image c s,
             imageBatch !! i = Some image ->
             ImageFile.dataURL image = Some (c :: s) ->
             Permutation
               (filter (fun r => ChunkRecord.imageName r
                                 = ImageFile.name image) cursor)
               (OptimizedStorageManager.image_chunks chunkSize now folderId
                  image (c :: s) (startIndex + i))).
  { intros i image c s Hi Hd. rewrite Hcursor. unfold B.
    rewrite (batch_chunks_of chunkSize now folderId imageBatch Hnd
               startIndex i image Hi), Hd. reflexivity. }
  assert (Hfiles : Permutation files (stored_images startIndex imageBatch)).
  { apply NoDup_Permutation.
    - apply reconstructed_NoDup, Hkeys.
    - eapply NoDup_fmap_1. apply stored_images_index.
    - intros f. rewrite stored_images_elem. split.
      + intros Hf. unfold files in Hf.
        apply list_elem_of_omap in Hf as ([n cs] & Hin & Hrec).
        cbn [fst snd] in Hrec.
        apply (chunks_get_elem _ _ _ Hkeys) in Hin. rewrite Hget in Hin.
        destruct (filter (fun r => ChunkRecord.imageName r = n) cursor)
          as [| c0 cs0] eqn:Ef; [discriminate |].
        injection Hin as <-.
        assert (Hc0 : c0 ∈ B).
        { rewrite <- Hcursor.
          assert (H0 : c0 ∈ filter (fun r => ChunkRecord.imageName r = n)
                              cursor) by (rewrite Ef; left).
          apply list_elem_of_filter in H0. tauto. }
        assert (Hn0 : ChunkRecord.imageName c0 = n).
        { assert (H0 : c0 ∈ filter (fun r => ChunkRecord.imageName r = n)
                              cursor) by (rewrite Ef; left).
          apply list_elem_of_filter in H0. tauto. }
        apply batch_chunks_elem in Hc0 as [_ Hc0]. rewrite Hn0 in Hc0.
        apply list_elem_of_fmap in Hc0 as (image & -> & Himage).
        apply list_elem_of_lookup_1 in Himage as [i Hi].
        exists i, image.
        destruct (ImageFile.dataURL image) as [[| c s] |] eqn:Ed.
        * exfalso.
          assert (Hp : Permutation (c0 :: cs0) []).
          { rewrite <- Ef, Hcursor. unfold B.
            rewrite (batch_chunks_of chunkSize now folderId imageBatch Hnd
                       startIndex i image Hi), Ed. reflexivity. }
          apply Permutation_nil_r in Hp. discriminate.
        * exists c, s. split; [exact Hi |]. split; [reflexivity |].
          pose proof (Hgroup i image c s Hi Ed) as Hp. rewrite Ef in Hp.
          rewrite (reconstruct_image_chunks chunkSize now folderId image
                     (c :: s) (startIndex + i) (c0 :: cs0) Hsize
                     ltac:(discriminate) Hp) in Hrec.
          congruence.
        * exfalso.
          assert (Hp : Permutation (c0 :: cs0) []).
          { rewrite <- Ef, Hcursor. unfold B.
            rewrite (batch_chunks_of chunkSize now folderId imageBatch Hnd
                       startIndex i image Hi), Ed. reflexivity. }
          apply Permutation_nil_r in Hp. discriminate.
      + intros (i & image & c & s & Hi & Hd & ->).
        pose proof (Hgroup i image c s Hi Hd) as Hp.
        unfold files. apply list_elem_of_omap.
        exists (ImageFile.name image,
                filter (fun r => ChunkRecord.imageName r
                                 = ImageFile.name image) cursor).
        cbn [fst snd]. split.
        * apply (chunks_get_elem _ _ _ Hkeys). rewrite Hget.
          destruct (filter (fun r => ChunkRecord.imageName r
                                     = ImageFile.name image) cursor)
            as [| c0 cs0] eqn:Ef; [| reflexivity].
          exfalso. symmetry in Hp. apply Permutation_nil_r in Hp.
          destruct (image_chunks_head chunkSize now folderId image (c :: s)
                      (startIndex + i) Hsize ltac:(discriminate))
            as (first & rest & E & _).
          rewrite E in Hp. discriminate.
        * apply (reconstruct_image_chunks chunkSize now folderId image
                   (c :: s) (startIndex + i) _ Hsize ltac:(discriminate) Hp). }
  f_equal.
  rewrite (sort_by_perm_eq StoredImage.originalIndex files
             (stored_images startIndex imageBatch) Hfiles).
  - apply sort_by_sorted, stored_images_index.
  - rewrite Hfiles. apply stored_images_index.
Qed.

(** Three images, the second without data, in chunks of four characters,
    beside a chunk of another folder; the records are listed in reverse. *)
Lemma batch_records_read_back_witness :
  let imageBatch :=
    [ImageFile.mk "a.jpg" "image/jpeg" 7 0
       (Some (list_ascii_of_string "aaaaAAA"));
     ImageFile.mk "b.jpg" "image/jpeg" 10 0 None;
     ImageFile.mk "c.jpg" "image/png" 2 0
       (Some (list_ascii_of_string "cc"))] in
  let store :=
    [ChunkRecord.mk (OptimizedStorageManager.chunk_id 7 "a.jpg" 0) 7 "a.jpg"
       0 0 1 (list_ascii_of_string "xy") (ChunkMeta.mk "image/jpeg" 2 0) 0] in
  OptimizedStorageManager.getImageFiles
    (rev (store ++ batch_chunks 4 (fun _ => 0) 1 20 imageBatch))
    1 None
  = OptimizedStorageManager.Normal (stored_images 20 imageBatch).
Proof.
  intros imageBatch store.
  apply (batch_records_read_back 4 (fun _ => 0) 1 imageBatch 20 store).
  - lia.
  - cbn [map imageBatch ImageFile.name].
    repeat (apply NoDup_cons; split;
            [intros H; repeat (apply elem_of_cons in H as [H | H];
                               [discriminate H |]); inversion H |]).
    constructor.
  - intros c Hc. apply list_elem_of_singleton in Hc. subst c. cbn. lia.
  - symmetry. apply Permutation_rev.
Defined.

(* ===================================================================== *)
(** ** Batch processor: batches, the OCR queue and retries *)
(* ===================================================================== *)

Section BatchesFacts.
Import BatchProcessor.
Context {A : Type}.

Lemma createBatches_loop_spec (items : list A) (batchSize : nat) :
  (1 <= batchSize)%nat ->
  forall fuel i batches,
    (length items - i <= fuel)%nat ->
    concat batches = take i items ->
    Forall (fun b => (1 <= length b <= batchSize)%nat) batches ->
    ((i < length items)%nat ->
     Forall (fun b => length b = batchSize) batches) ->
    (forall pre last, batches = pre ++ [last] ->
                      Forall (fun b => length b = batchSize) pre) ->
    exists result,
      createBatches_loop fuel items batchSize i batches = Some result
      /\ concat result = items
      /\ Forall (fun b => (1 <= length b <= batchSize)%nat) result
      /\ (forall pre last, result = pre ++ [last] ->
                           Forall (fun b => length b = batchSize) pre).
Proof.
  intros Hbs fuel. induction fuel as [| fuel IH];
    intros i batches Hfuel Hcat Hall Hfull Hlast.
  - cbn [createBatches_loop].
    destruct (i <? length items)%nat eqn:E; [apply Nat.ltb_lt in E; lia |].
    apply Nat.ltb_ge in E. exists batches. split; [reflexivity |].
    split; [rewrite Hcat; apply take_ge; exact E |]. auto.
  - cbn [createBatches_loop].
    destruct (i <? length items)%nat eqn:E.
    + apply Nat.ltb_lt in E.
      replace (i + batchSize - i)%nat with batchSize by lia.
      apply IH.
      * lia.
      * rewrite concat_app, Hcat. cbn [concat]. rewrite app_nil_r.
        apply take_take_drop.
      * apply Forall_app. split; [exact Hall |].
        constructor; [| constructor].
        rewrite length_take, length_drop. lia.
      * intros E'. apply Forall_app. split; [exact (Hfull E) |].
        constructor; [| constructor].
        rewrite length_take, length_drop. lia.
      * intros pre last Heq. apply app_inj_tail in Heq as [<- _].
        exact (Hfull E).
    + apply Nat.ltb_ge in E. exists batches. split; [reflexivity |].
      split; [rewrite Hcat; apply take_ge; exact E |]. auto.
Qed.

Lemma createBatches_loop_zero (items : list A) (fuel : nat)
    (batches : list (list A)) :
  items <> [] -> createBatches_loop fuel items 0 0 batches = None.
Proof.
  intros Hne. revert batches. induction fuel as [| fuel IH]; intros batches;
    cbn [createBatches_loop];
    destruct items as [| x items]; try contradiction; cbn [length Nat.ltb
      Nat.leb]; [reflexivity |].
  cbn [Nat.add]. apply IH.
Qed.

(** With a batch size of at least one the loop ends within its bound. *)
Lemma createBatches_ends (items : list A) (batchSize : nat) :
  (1 <= batchSize)%nat ->
  exists batches,
    createBatches items batchSize = Some batches
    /\ concat batches = items
    /\ Forall (fun b => (1 <= length b <= batchSize)%nat) batches
    /\ (forall pre last,
          batches = pre ++ [last] ->
          Forall (fun b => length b = batchSize) pre).
Proof.
  intros Hbs. unfold createBatches.
  apply createBatches_loop_spec; try assumption.
  - lia.
  - rewrite take_0. reflexivity.
  - constructor.
  - intros _. constructor.
  - intros pre last H. destruct pre; discriminate.
Qed.

End BatchesFacts.

(** Splitting into batches.  With a batch size of at least one the items
    are cut into consecutive batches that, put end to end, give back the
    items in their order; every batch holds at least one and at most
    [batchSize] items, and every batch but the last holds exactly
    [batchSize].  With a batch size of zero and at least one item the loop
    never ends. *)
Theorem createBatches_partition {A : Type} (items : list A)
    (batchSize : nat) :
  ((1 <= batchSize)%nat ->
   exists batches,
     BatchProcessor.createBatches items batchSize = Some batches
     /\ concat batches = items
     /\ Forall (fun b => (1 <= length b <= batchSize)%nat) batches
     /\ (forall pre last,
           batches = pre ++ [last] ->
           Forall (fun b => length b = batchSize) pre))
  /\ (items <> [] -> forall fuel batches,
        BatchProcessor.createBatches_loop fuel items 0 0 batches = None).
Proof.
  split.
  - apply createBatches_ends.
  - intros Hne fuel batches. apply createBatches_loop_zero. exact Hne.
Qed.

(** Five items in batches of two. *)
Lemma createBatches_partition_witness :
  exists batches,
    BatchProcessor.createBatches [1; 2; 3; 4; 5]%nat 2 = Some batches
    /\ concat batches = [1; 2; 3; 4; 5]%nat
    /\ Forall (fun b => (1 <= length b <= 2)%nat) batches.
Proof.
  destruct (createBatches_partition [1; 2; 3; 4; 5]%nat 2) as [H _].
  destruct (H ltac:(lia)) as (batches & H1 & H2 & H3 & _).
  exists batches. split; [exact H1 |]. split; [exact H2 | exact H3].
Defined.

Section QueueFacts.
Import BatchProcessor.

Lemma calculateTotalImages_length (folders : list Folder.t) :
  calculateTotalImages folders
  = length (concat (map (fun f => default [] (Folder.imageFiles f)) folders)).
Proof.
  unfold calculateTotalImages.
  enough (Hgen : forall a,
            fold_left (fun total folder =>
                         (total + default 0
                                    (length <$> Folder.imageFiles folder))%nat)
                      folders a
            = (a + length (concat (map (fun f => default []
                                                   (Folder.imageFiles f))
                                       folders)))%nat)
    by exact (Hgen 0%nat).
  induction folders as [| f folders IH]; intros a; cbn [fold_left map concat].
  - cbn. lia.
  - rewrite IH, length_app. destruct (Folder.imageFiles f); cbn; lia.
Qed.

Lemma job_batch_imap (g : nat -> list ImageFile.t -> Job)
    (batches : list (list ImageFile.t)) :
  (forall i b, job_batch (g i b) = b) ->
  map job_batch (imap g batches) = batches.
Proof.
  revert g. induction batches as [| b batches IH]; intros g Hg;
    [reflexivity |].
  cbn [imap map]. rewrite Hg. f_equal. apply IH. intros i b'. apply Hg.
Qed.

Lemma createOCRQueue_loop_spec (batchSize : nat) (folders : list Folder.t) :
  (1 <= batchSize)%nat ->
  forall queue,
  exists jobs,
    createOCRQueue_loop batchSize folders queue = Some (queue ++ jobs)
    /\ concat (map job_batch jobs)
       = concat (map (fun f => default [] (Folder.imageFiles f)) folders)
    /\ Forall (fun j => (1 <= length (job_batch j) <= batchSize)%nat) jobs.
Proof.
  intros Hbs. induction folders as [| folder rest IH]; intros queue;
    cbn [createOCRQueue_loop map concat].
  - exists []. rewrite app_nil_r. repeat split. constructor.
  - destruct (Folder.imageFiles folder) as [[| image images] |];
      cbn [default app]; try exact (IH queue).
    destruct (createBatches_ends (image :: images) batchSize Hbs)
      as (batches & -> & Hcat & Hall & _).
    set (new := imap _ batches).
    assert (Hnew : map job_batch new = batches)
      by (apply job_batch_imap; reflexivity).
    destruct (IH (queue ++ new)) as (jobs & -> & Hjobs & Hbounds).
    exists (new ++ jobs). rewrite app_assoc. split; [reflexivity |].
    rewrite map_app, concat_app, Hnew, Hcat, Hjobs. split; [reflexivity |].
    apply Forall_app. split; [| exact Hbounds].
    rewrite <- Hnew in Hall. apply Forall_fmap in Hall. exact Hall.
Qed.

Lemma jobs_total (batchSize : nat) (jobs : list Job) :
  Forall (fun j => (1 <= length (job_batch j) <= batchSize)%nat) jobs ->
  sum_list_with (fun j => length (job_batch j)) jobs
  = length (concat (map job_batch jobs))
  /\ (length jobs <= length (concat (map job_batch jobs)))%nat.
Proof.
  induction 1 as [| j jobs Hj _ [IH1 IH2]]; cbn; [split; reflexivity |].
  rewrite length_app. lia.
Qed.

End QueueFacts.

(** The OCR queue holds every image once.  With a batch size of at least
    one the queue is built, and its batches put end to end are the images
    of the folders in their order; so the images in the queue are as many
    as [calculateTotalImages] counts.  Every batch holds at least one and
    at most [batchSize] images, so there are at most as many jobs as
    images. *)
Theorem createOCRQueue_covers (batchSize : nat) (folders : list Folder.t) :
  (1 <= batchSize)%nat ->
  exists queue,
    BatchProcessor.createOCRQueue batchSize folders = Some queue
    /\ concat (map BatchProcessor.job_batch queue)
       = concat (map (fun f => default [] (Folder.imageFiles f)) folders)
    /\ sum_list_with (fun j => length (BatchProcessor.job_batch j)) queue
       = BatchProcessor.calculateTotalImages folders
    /\ Forall (fun j =>
                 (1 <= length (BatchProcessor.job_batch j) <= batchSize)%nat)
         queue
    /\ (length queue <= BatchProcessor.calculateTotalImages folders)%nat.
Proof.
  intros Hbs. unfold BatchProcessor.createOCRQueue.
  destruct (createOCRQueue_loop_spec batchSize folders Hbs [])
    as (jobs & -> & Hcat & Hall).
  exists jobs. split; [reflexivity |]. split; [exact Hcat |].
  destruct (jobs_total batchSize jobs Hall) as [Hsum Hlen].
  rewrite calculateTotalImages_length, <- Hcat. auto.
Qed.

(** Two folders of two images and one without images, in batches of one
    image. *)
Lemma createOCRQueue_covers_witness :
  let folders :=
    [sample_folder;
     Folder.mk (Some 2) None None None None None None None None None;
     unrecognised_folder] in
  exists queue,
    BatchProcessor.createOCRQueue 1 folders = Some queue
    /\ concat (map BatchProcessor.job_batch queue)
       = concat (map (fun f => default [] (Folder.imageFiles f)) folders)
    /\ sum_list_with (fun j => length (BatchProcessor.job_batch j)) queue
       = BatchProcessor.calculateTotalImages folders
    /\ Forall (fun j =>
                 (1 <= length (BatchProcessor.job_batch j) <= 1)%nat)
         queue
    /\ (length queue <= BatchProcessor.calculateTotalImages folders)%nat.
Proof.
  intros folders. apply (createOCRQueue_covers 1 folders). lia.
Defined.

Section RetryFacts.
Import BatchProcessor.
Context {R E : Type}.

Lemma retry_loop_success (retryCount retryDelay : nat)
    (processor : nat -> attempt (R := R) (E := E)) (k : nat) (r : R) :
  processor k = Succeeds r ->
  forall remaining attempt lastError calls slept,
    (attempt + remaining = S retryCount)%nat ->
    (attempt <= k <= retryCount)%nat ->
    (forall j, (attempt <= j < k)%nat -> exists e, processor j = Fails e) ->
    retry_loop retryCount retryDelay processor remaining attempt lastError
      calls slept
    = mkExecution (inl r) (calls + S (k - attempt))
        (slept + sum_list_with (fun a => retryDelay * a)
                   (seq attempt (k - attempt)))%nat.
Proof.
  intros Hk remaining.
  induction remaining as [| remaining IH];
    intros attempt lastError calls slept Hsum Hrange Hfail; [lia |].
  cbn [retry_loop].
  destruct (decide (attempt = k)) as [-> | Hne].
  - rewrite Hk, Nat.sub_diag. cbn. f_equal; lia.
  - destruct (Hfail attempt ltac:(lia)) as [e He]. rewrite He.
    assert (Hlt : (attempt <? retryCount)%nat = true)
      by (apply Nat.ltb_lt; lia).
    rewrite Hlt. rewrite IH; [| lia | lia | intros j Hj; apply Hfail; lia].
    replace (k - attempt)%nat with (S (k - S attempt)) by lia.
    cbn [seq sum_list_with]. f_equal; lia.
Qed.

Lemma retry_loop_failure (retryCount retryDelay : nat)
    (processor : nat -> attempt (R := R) (E := E)) :
  forall remaining attempt lastError calls slept,
    (attempt + remaining = S retryCount)%nat ->
    (forall j, (attempt <= j <= retryCount)%nat ->
               exists e, processor j = Fails e) ->
    retry_loop retryCount retryDelay processor remaining attempt lastError
      calls slept
    = mkExecution
        (inr (match remaining with
              | O => lastError
              | S _ =>
                  match processor retryCount with
                  | Fails e => Some e
                  | Succeeds _ => None
                  end
              end))
        (calls + remaining)
        (slept + sum_list_with (fun a => retryDelay * a)
                   (seq attempt (remaining - 1)))%nat.
Proof.
  intros remaining.
  induction remaining as [| remaining IH];
    intros attempt lastError calls slept Hsum Hfail; cbn [retry_loop].
  - cbn. f_equal; lia.
  - destruct (Hfail attempt ltac:(lia)) as [e He]. rewrite He.
    rewrite IH; [| lia | intros j Hj; apply Hfail; lia].
    destruct remaining as [| remaining].
    + assert (attempt = retryCount) as -> by lia. rewrite He.
      rewrite Nat.ltb_irrefl. cbn. f_equal; lia.
    + assert (Hlt : (attempt <? retryCount)%nat = true)
        by (apply Nat.ltb_lt; lia).
      rewrite Hlt. cbn [Nat.sub seq sum_list_with].
      rewrite Nat.sub_0_r. f_equal; lia.
Qed.

End RetryFacts.

(** Retrying a job.  If attempt [k], one of the [retryCount] allowed, is
    the first to succeed, its result is returned after exactly [k] calls of
    the processor, with a sleep of [retryDelay * a] after each failed
    attempt [a]: the delay grows linearly.  If all allowed attempts fail,
    the error of the last one is thrown after exactly [retryCount] calls,
    with no sleep after the last failure; with no attempt allowed the
    processor is never called and [undefined] is thrown. *)
Theorem executeJobWithRetry_semantics {R E : Type}
    (retryCount retryDelay : nat)
    (processor : nat -> BatchProcessor.attempt (R := R) (E := E)) :
  (forall k r,
      (1 <= k <= retryCount)%nat ->
      processor k = BatchProcessor.Succeeds r ->
      (forall j, (1 <= j < k)%nat ->
                 exists e, processor j = BatchProcessor.Fails e) ->
      BatchProcessor.executeJobWithRetry retryCount retryDelay processor
      = BatchProcessor.mkExecution (inl r) k
          (sum_list_with (fun a => retryDelay * a)%nat (seq 1 (k - 1))))
  /\ ((forall j, (1 <= j <= retryCount)%nat ->
                 exists e, processor j = BatchProcessor.Fails e) ->
      BatchProcessor.executeJobWithRetry retryCount retryDelay processor
      = BatchProcessor.mkExecution
          (inr (match retryCount with
                | O => None
                | S _ =>
                    match processor retryCount with
                    | BatchProcessor.Fails e => Some e
                    | BatchProcessor.Succeeds _ => None
                    end
                end))
          retryCount
          (sum_list_with (fun a => retryDelay * a)%nat
             (seq 1 (retryCount - 1)))).
Proof.
  unfold BatchProcessor.executeJobWithRetry. split.
  - intros k r Hk Hr Hfail.
    rewrite (retry_loop_success retryCount retryDelay processor k r Hr);
      [| lia | lia | exact Hfail].
    f_equal. lia.
  - intros Hfail.
    rewrite (retry_loop_failure retryCount retryDelay processor);
      [| lia | exact Hfail].
    reflexivity.
Qed.

(** Three attempts allowed, a delay of 1000, and a processor that succeeds
    at its third call. *)
Lemma executeJobWithRetry_semantics_witness :
  let processor (k : nat) : BatchProcessor.attempt (R := Z) (E := string) :=
    if (k <? 3)%nat then BatchProcessor.Fails "timeout"%string
    else BatchProcessor.Succeeds 7 in
  BatchProcessor.executeJobWithRetry 3 1000 processor
  = BatchProcessor.mkExecution (inl 7) 3 3000.
Proof.
  intros processor.
  destruct (executeJobWithRetry_semantics 3 1000 processor) as [H _].
  apply (H 3%nat 7).
  - lia.
  - reflexivity.
  - intros j Hj. exists "timeout"%string.
    assert (Hcases : j = 1%nat \/ j = 2%nat) by lia.
    destruct Hcases as [-> | ->]; reflexivity.
Defined.

(* ===================================================================== *)
(** ** API manager: validating files and processing a folder *)
(* ===================================================================== *)

Section APIFiles.
Import APIManager.

Lemma validateImageFile_valid (file : File) :
  valid (validateImageFile file) = true
  <-> file_type file
      ∈ ["image/jpeg"; "image/png"; "image/gif"; "image/bmp"]%string
      /\ (file_size file <= 4194304)%N.
Proof.
  unfold validateImageFile, isFormatSupported, isFileSizeValid,
    getSupportedFormats, getFileSizeLimit.
  change (4 * 1024 * 1024)%N with 4194304%N.
  destruct (bool_decide_reflect
              (file_type file
               ∈ ["image/jpeg"; "image/png"; "image/gif"; "image/bmp"]%string))
    as [Hin | Hout];
    destruct (N.leb_spec (file_size file) 4194304) as [Hle | Hgt];
    cbn [negb app length Nat.eqb valid]; split; try tauto; try discriminate;
    intros [? ?]; try contradiction; lia.
Qed.

Lemma validateImageFiles_snoc (files : list File) (file : File) :
  validateImageFiles (files ++ [file])
  = let results := validateImageFiles files in
    let validation := validateImageFile file in
    if valid validation then
      mkValidations (valid_files results ++ [file]) (invalid_files results)
    else
      mkValidations (valid_files results)
        (invalid_files results ++ [(file, errors validation)]).
Proof. unfold validateImageFiles. rewrite fold_left_app. reflexivity. Qed.

Lemma processLocalImageFolder_loop_snoc
    (paddleOCR : File -> OcrResult.t + string) (files : list File)
    (file : File) :
  processLocalImageFolder_loop paddleOCR (files ++ [file])
  = let '(results, errors) := processLocalImageFolder_loop paddleOCR files in
    match paddleOCR file with
    | inl ocrResult =>
        (<[file_name file := mkFolderEntry ocrResult None]> results, errors)
    | inr message =>
        (<[file_name file :=
             mkFolderEntry (OcrResult.mk 0 (Some [])) (Some message)]>
           results,
         errors ++ [(file_name file, message)])
    end.
Proof.
  unfold processLocalImageFolder_loop. rewrite fold_left_app. reflexivity.
Qed.

(** The state the loop of [processLocalImageFolder] reaches on files with
    distinct names. *)
Lemma processLocalImageFolder_loop_spec
    (paddleOCR : File -> OcrResult.t + string) (files : list File) :
  NoDup (map file_name files) ->
  let entry file :=
    match paddleOCR file with
    | inl ocrResult => mkFolderEntry ocrResult None
    | inr message =>
        mkFolderEntry (OcrResult.mk 0 (Some [])) (Some message)
    end in
  let failure file :=
    match paddleOCR file with
    | inl _ => None
    | inr message => Some (file_name file, message)
    end in
  size (fst (processLocalImageFolder_loop paddleOCR files)) = length files
  /\ snd (processLocalImageFolder_loop paddleOCR files) = omap failure files
  /\ (forall file, file ∈ files ->
        fst (processLocalImageFolder_loop paddleOCR files) !! file_name file
        = Some (entry file))
  /\ (forall n, n ∉ map file_name files ->
        fst (processLocalImageFolder_loop paddleOCR files) !! n = None).
Proof.
  intros Hnd entry failure.
  induction files as [| file files IH] using rev_ind.
  - cbn. split; [apply map_size_empty |]. split; [reflexivity |].
    split; [intros f H; inversion H | intros n _; apply lookup_empty].
  - rewrite map_app in Hnd. apply NoDup_app in Hnd as (Hnd & Hdisj & _).
    assert (Hfile : file_name file ∉ map file_name files).
    { intros Hin. apply (Hdisj _ Hin). cbn. left. }
    destruct (IH Hnd) as (Hsize & Herr & Hin & Hout).
    rewrite processLocalImageFolder_loop_snoc.
    destruct (processLocalImageFolder_loop paddleOCR files)
      as [results errs] eqn:Eloop.
    cbn [fst snd] in *.
    assert (Hstep : forall e,
               size (<[file_name file := e]> results)
               = length (files ++ [file])
               /\ (forall f, f ∈ files ++ [file] ->
                     f ∈ files
                     \/ f = file)
               /\ (forall n, n ∉ map file_name (files ++ [file]) ->
                     <[file_name file := e]> results !! n = None)).
    { intros e. split; [| split].
      - rewrite map_size_insert_None by (apply Hout; exact Hfile).
        rewrite length_app, Hsize. cbn. lia.
      - intros f Hf. apply elem_of_app in Hf as [Hf | Hf]; [left; exact Hf |].
        right. apply list_elem_of_singleton in Hf. exact Hf.
      - intros n Hn. rewrite map_app in Hn.
        apply not_elem_of_app in Hn as [Hn Hn'].
        rewrite lookup_insert_ne; [apply Hout; exact Hn |].
        intros <-. apply Hn'. cbn. left. }
    assert (Hentries : forall e,
               e = entry file ->
               forall f, f ∈ files ++ [file] ->
                 <[file_name file := e]> results !! file_name f
                 = Some (entry f)).
    { intros e -> f Hf. apply elem_of_app in Hf as [Hf | Hf].
      - rewrite lookup_insert_ne; [apply Hin; exact Hf |].
        intros Heq. apply Hfile. rewrite Heq.
        apply list_elem_of_fmap. exists f. auto.
      - apply list_elem_of_singleton in Hf. subst f. apply lookup_insert_eq. }
    assert (Hfail : omap failure (files ++ [file])
                    = omap failure files
                      ++ match failure file with
                         | Some x => [x]
                         | None => []
                         end).
    { rewrite omap_app. f_equal. }
    rewrite Hfail. unfold failure at 2. unfold entry in Hentries |- *.
    destruct (paddleOCR file) as [r | m] eqn:Eocr; cbn [fst snd].
    + destruct (Hstep (mkFolderEntry r None)) as (H1 & _ & H3).
      split; [exact H1 |]. split; [rewrite app_nil_r; exact Herr |].
      split; [| exact H3].
      apply Hentries. reflexivity.
    + destruct (Hstep (mkFolderEntry (OcrResult.mk 0 (Some [])) (Some m)))
        as (H1 & _ & H3).
      split; [exact H1 |]. split; [rewrite Herr; reflexivity |].
      split; [| exact H3].
      apply Hentries. reflexivity.
Qed.

End APIFiles.

(** Validating a list of files.  A file is valid exactly when its type is
    one of the four supported ones and it has at most 4 MB.  The valid
    files are those files of the list, in their order; the invalid ones are
    the others, in their order, each with a non-empty list of errors; so
    no file is lost and none is reported twice. *)
Theorem validateImageFiles_partition (files : list APIManager.File) :
  APIManager.valid_files (APIManager.validateImageFiles files)
  = filter (fun file =>
              APIManager.file_type file
              ∈ ["image/jpeg"; "image/png"; "image/gif"; "image/bmp"]%string
              /\ (APIManager.file_size file <= 4194304)%N)
           files
  /\ map fst (APIManager.invalid_files (APIManager.validateImageFiles files))
     = filter (fun file =>
                 ~ (APIManager.file_type file
                    ∈ ["image/jpeg"; "image/png"; "image/gif";
                       "image/bmp"]%string
                    /\ (APIManager.file_size file <= 4194304)%N))
              files
  /\ Forall (fun p => snd p <> [])
       (APIManager.invalid_files (APIManager.validateImageFiles files))
  /\ Permutation
       (APIManager.valid_files (APIManager.validateImageFiles files)
        ++ map fst
             (APIManager.invalid_files (APIManager.validateImageFiles files)))
       files.
Proof.
  assert (Hmain :
    APIManager.valid_files (APIManager.validateImageFiles files)
    = filter (fun file =>
                APIManager.file_type file
                ∈ ["image/jpeg"; "image/png"; "image/gif"; "image/bmp"]%string
                /\ (APIManager.file_size file <= 4194304)%N)
             files
    /\ map fst (APIManager.invalid_files (APIManager.validateImageFiles files))
       = filter (fun file =>
                   ~ (APIManager.file_type file
                      ∈ ["image/jpeg"; "image/png"; "image/gif";
                         "image/bmp"]%string
                      /\ (APIManager.file_size file <= 4194304)%N))
                files
    /\ Forall (fun p => snd p <> [])
         (APIManager.invalid_files (APIManager.validateImageFiles files))).
  { induction files as [| file files (IH1 & IH2 & IH3)] using rev_ind.
    - repeat split. constructor.
    - rewrite validateImageFiles_snoc. cbn zeta.
      rewrite !filter_app, !filter_cons, !filter_nil.
      pose proof (validateImageFile_valid file) as Hvalid.
      destruct (APIManager.valid (APIManager.validateImageFile file)) eqn:Ev.
      + destruct (decide _) as [_ | Hno]; [| destruct Hno; tauto].
        destruct (decide _) as [Hno | _]; [destruct Hno; tauto |].
        cbn [APIManager.valid_files APIManager.invalid_files].
        rewrite IH1, IH2, app_nil_r. auto.
      + destruct (decide _) as [Hyes | _];
          [apply Hvalid in Hyes; discriminate |].
        destruct (decide _) as [_ | Hno]; [| destruct Hno; intros H;
                                              apply Hvalid in H; discriminate].
        cbn [APIManager.valid_files APIManager.invalid_files].
        rewrite map_app, IH1, IH2, app_nil_r. split; [reflexivity |].
        split; [reflexivity |].
        apply Forall_app. split; [exact IH3 |].
        constructor; [| constructor]. cbn [snd].
        intros Herr. unfold APIManager.validateImageFile in Ev, Herr.
        cbn [APIManager.valid APIManager.errors] in Ev, Herr.
        rewrite Herr in Ev. discriminate. }
  destruct Hmain as (H1 & H2 & H3).
  split; [exact H1 |]. split; [exact H2 |]. split; [exact H3 |].
  rewrite H1, H2. clear.
  induction files as [| file files IH]; [reflexivity |].
  rewrite !filter_cons.
  destruct (decide _) as [Hyes | Hno];
    destruct (decide _) as [Hno' | Hyes']; try tauto.
  - cbn [app]. constructor. exact IH.
  - rewrite <- Permutation_middle. constructor. exact IH.
Qed.

(** Processing a folder of files with distinct names.  The run reports as
    many files as were given; the number of successes is the number of
    files whose recognition succeeded, the number of errors the number of
    those whose recognition failed, and the two add up to the number of
    files; every file has an entry under its name, the result of its
    recognition or the empty result with the error message; and the errors
    are listed in the order of the files. *)
Theorem processLocalImageFolder_counts
    (paddleOCR : APIManager.File -> OcrResult.t + string)
    (imageFiles : list APIManager.File) :
  imageFiles <> [] ->
  NoDup (map APIManager.file_name imageFiles) ->
  exists run,
    APIManager.processLocalImageFolder paddleOCR imageFiles = Some run
    /\ APIManager.totalFiles run = length imageFiles
    /\ APIManager.successCount run
       = Z.of_nat (length (filter (fun file => succeeded (paddleOCR file) = true)
                                  imageFiles))
    /\ APIManager.errorCount run
       = length (filter (fun file => succeeded (paddleOCR file) = false) imageFiles)
    /\ APIManager.successCount run + Z.of_nat (APIManager.errorCount run)
       = Z.of_nat (APIManager.totalFiles run)
    /\ (forall file,
          file ∈ imageFiles ->
          APIManager.results run !! APIManager.file_name file
          = Some (match paddleOCR file with
                  | inl ocrResult => APIManager.mkFolderEntry ocrResult None
                  | inr message =>
                      APIManager.mkFolderEntry (OcrResult.mk 0 (Some []))
                        (Some message)
                  end))
    /\ APIManager.run_errors run
       = omap (fun file =>
                 match paddleOCR file with
                 | inl _ => None
                 | inr message => Some (APIManager.file_name file, message)
                 end)
              imageFiles.
Proof.
  intros Hne Hnd.
  destruct (processLocalImageFolder_loop_spec paddleOCR imageFiles Hnd)
    as (Hsize & Herr & Hin & _).
  unfold APIManager.processLocalImageFolder.
  destruct imageFiles as [| file0 files0] eqn:Efiles; [contradiction |].
  rewrite <- Efiles in *. clear Efiles Hne.
  destruct (APIManager.processLocalImageFolder_loop paddleOCR imageFiles)
    as [results errs]. cbn [fst snd] in *.
  eexists. split; [reflexivity |].
  cbn [APIManager.totalFiles APIManager.successCount APIManager.errorCount
         APIManager.results APIManager.run_errors].
  assert (Hcount : length errs
                   = length (filter (fun file => succeeded (paddleOCR file) = false)
                                    imageFiles)
                   /\ (length (filter (fun file => succeeded (paddleOCR file) = true)
                                      imageFiles)
                       + length (filter (fun file => succeeded (paddleOCR file) = false)
                                        imageFiles)
                       = length imageFiles)%nat).
  { rewrite Herr. clear. induction imageFiles as [| file files [IH1 IH2]];
      [split; reflexivity |].
    rewrite !filter_cons.
    assert (Hcons : forall (g : APIManager.File -> option (string * string)),
               omap g (file :: files)
               = match g file with
                 | Some x => x :: omap g files
                 | None => omap g files
                 end) by reflexivity.
    rewrite Hcons. clear Hcons.
    destruct (paddleOCR file) as [r | m]; cbn [succeeded].
    - destruct (decide (true = true)) as [_ | H]; [| congruence].
      destruct (decide (true = false)) as [H | _]; [discriminate |].
      cbn [length]. split; [exact IH1 | lia].
    - destruct (decide (false = true)) as [H | _]; [discriminate |].
      destruct (decide (false = false)) as [_ | H]; [| congruence].
      cbn [length]. split; [lia | lia]. }
  destruct Hcount as [Hc1 Hc2].
  split; [reflexivity |]. split; [lia |]. split; [exact Hc1 |].
  split; [lia |]. split; [exact Hin | exact Herr].
Qed.

(** Three files, the second of which cannot be recognised. *)
Lemma processLocalImageFolder_counts_witness :
  let paddleOCR (file : APIManager.File) : OcrResult.t + string :=
    if String.eqb (APIManager.file_name file) "b.jpg"
    then inr "timeout"%string
    else inl (OcrResult.mk 0 (Some [])) in
  let imageFiles :=
    [APIManager.mkFile "a.jpg" "image/jpeg" 10;
     APIManager.mkFile "b.jpg" "image/jpeg" 12;
     APIManager.mkFile "c.jpg" "image/png" 2] in
  exists run,
    APIManager.processLocalImageFolder paddleOCR imageFiles = Some run
    /\ APIManager.totalFiles run = length imageFiles
    /\ APIManager.successCount run
       = Z.of_nat (length (filter (fun file => succeeded (paddleOCR file) = true)
                                  imageFiles))
    /\ APIManager.errorCount run
       = length (filter (fun file => succeeded (paddleOCR file) = false) imageFiles)
    /\ APIManager.successCount run + Z.of_nat (APIManager.errorCount run)
       = Z.of_nat (APIManager.totalFiles run)
    /\ (forall file,
          file ∈ imageFiles ->
          APIManager.results run !! APIManager.file_name file
          = Some (match paddleOCR file with
                  | inl ocrResult => APIManager.mkFolderEntry ocrResult None
                  | inr message =>
                      APIManager.mkFolderEntry (OcrResult.mk 0 (Some []))
                        (Some message)
                  end))
    /\ APIManager.run_errors run
       = omap (fun file =>
                 match paddleOCR file with
                 | inl _ => None
                 | inr message => Some (APIManager.file_name file, message)
                 end)
              imageFiles.
Proof.
  intros paddleOCR imageFiles.
  apply (processLocalImageFolder_counts paddleOCR imageFiles).
  - discriminate.
  - cbn [map imageFiles APIManager.file_name].
    repeat (apply NoDup_cons; split;
            [intros H; repeat (apply elem_of_cons in H as [H | H];
                               [discriminate H |]); inversion H |]).
    constructor.
Defined.

(* ===================================================================== *)
(** ** Annotation lists: deleting, editing, drawing and navigating *)
(* ===================================================================== *)

Section AnnotationLists.



Lemma update_first_absent (i : Z) (text : string) (l : list Annotation.t) :
  i ∉ map Annotation.id l -> OCRAnnotationTool.update_first i text l = None.
Proof.
  induction l as [| ann l IH]; [reflexivity |]. cbn [map]. intros Hi.
  apply not_elem_of_cons in Hi as [Hne Hi]. cbn.
  destruct (decide (Annotation.id ann = i)); [congruence |].
  rewrite (IH Hi). reflexivity.
Qed.

Lemma update_first_present (i : Z) (text : string)
    (before after : list Annotation.t) (ann : Annotation.t) :
  i ∉ map Annotation.id before -> Annotation.id ann = i ->
  OCRAnnotationTool.update_first i text (before ++ ann :: after)
  = Some (before
          ++ Annotation.mk i (Some text) (Annotation.region ann)
               (Annotation.isManual ann)
             :: after).
Proof.
  intros Hi Hann. induction before as [| b before IH]; cbn.
  - destruct (decide (Annotation.id ann = i)); [| congruence].
    rewrite Hann. reflexivity.
  - cbn [map] in Hi. apply not_elem_of_cons in Hi as [Hne Hi].
    destruct (decide (Annotation.id b = i)); [congruence |].
    rewrite (IH Hi). reflexivity.
Qed.

End AnnotationLists.



Section EditingText.

Lemma update_first_ids (i : Z) (text : string) (l l' : list Annotation.t) :
  OCRAnnotationTool.update_first i text l = Some l' ->
  map Annotation.id l' = map Annotation.id l
  /\ map Annotation.region l' = map Annotation.region l
  /\ map Annotation.isManual l' = map Annotation.isManual l.
Proof.
  revert l'. induction l as [| ann l IH]; intros l'; cbn; [discriminate |].
  destruct (decide (Annotation.id ann = i)).
  - intros [= <-]. cbn. auto.
  - destruct (OCRAnnotationTool.update_first i text l) as [l0 |];
      [| discriminate].
    intros [= <-]. destruct (IH l0 eq_refl) as (H1 & H2 & H3).
    cbn. rewrite H1, H2, H3. auto.
Qed.

End EditingText.

(** Editing a text in the main controller.  The new text goes to the first
    annotation of the current image that carries the id, and to no other;
    the ids, regions and manual flags of the list and their order stay as
    they are; an id the list does not hold leaves the whole state as it is;
    the lists of the other images are never touched. *)
Theorem updateAnnotationText_first (tool : OCRAnnotationTool.t)
    (name : string) (i : Z) (text : string) :
  OCRAnnotationTool.currentFileName tool = Some name ->
  let l := OCRAnnotationTool.get_annotations tool name in
  let tool' := OCRAnnotationTool.updateAnnotationText i text tool in
  let l' := OCRAnnotationTool.get_annotations tool' name in
  (i ∉ map Annotation.id l -> tool' = tool)
  /\ (forall before ann after,
        l = before ++ ann :: after ->
        Annotation.id ann = i ->
        i ∉ map Annotation.id before ->
        l' = before
             ++ Annotation.mk i (Some text) (Annotation.region ann)
                  (Annotation.isManual ann)
                :: after)
  /\ map Annotation.id l' = map Annotation.id l
  /\ map Annotation.region l' = map Annotation.region l
  /\ map Annotation.isManual l' = map Annotation.isManual l
  /\ (forall other,
        other <> name ->
        OCRAnnotationTool.annotations tool' !! other
        = OCRAnnotationTool.annotations tool !! other).
Proof.
  intros Hname l tool' l'. subst tool' l'.
  unfold OCRAnnotationTool.updateAnnotationText. rewrite Hname. fold l.
  split; [| split].
  - intros Hi. rewrite (update_first_absent i text l Hi). reflexivity.
  - intros before ann after Hl Hann Hbefore.
    rewrite Hl, (update_first_present i text before after ann Hbefore Hann).
    apply tool_get_set.
  - destruct (OCRAnnotationTool.update_first i text l) as [l0 |] eqn:E.
    + rewrite tool_get_set.
      destruct (update_first_ids i text l l0 E) as (H1 & H2 & H3).
      repeat split; try assumption.
      intros other Hother. cbn. apply lookup_insert_ne. congruence.
    + fold l. repeat split.
Qed.

(** The second of three annotations is edited. *)
Lemma updateAnnotationText_first_witness :
  let ann i text := Annotation.mk i (Some text) None false in
  let tool :=
    OCRAnnotationTool.mk [ImageFile.mk "a.jpg" "image/jpeg" 10 0 None] 0 ∅
      {["a.jpg"%string :=
          [ann 1000 "one"%string; ann 1001 "two"%string;
           ann 1002 "three"%string]]} in
  let l := OCRAnnotationTool.get_annotations tool "a.jpg" in
  let tool' := OCRAnnotationTool.updateAnnotationText 1001 "zwei" tool in
  let l' := OCRAnnotationTool.get_annotations tool' "a.jpg" in
  (1001 ∉ map Annotation.id l -> tool' = tool)
  /\ (forall before a after,
        l = before ++ a :: after ->
        Annotation.id a = 1001 ->
        1001 ∉ map Annotation.id before ->
        l' = before
             ++ Annotation.mk 1001 (Some "zwei"%string) (Annotation.region a)
                  (Annotation.isManual a)
                :: after)
  /\ map Annotation.id l' = map Annotation.id l
  /\ map Annotation.region l' = map Annotation.region l
  /\ map Annotation.isManual l' = map Annotation.isManual l
  /\ (forall other,
        other <> "a.jpg"%string ->
        OCRAnnotationTool.annotations tool' !! other
        = OCRAnnotationTool.annotations tool !! other).
Proof.
  intros ann tool.
  apply (updateAnnotationText_first tool "a.jpg" 1001 "zwei").
  reflexivity.
Defined.

(** ** The calibration page: saving all lists and loading them again *)

Section SavingAllLists.



End SavingAllLists.



(** ** Drawing a box with the mouse *)

Section DrawingBoxes.





End DrawingBoxes.



(** ** Moving between the images *)

Section Navigation.

Lemma navigateImage_step (direction : Z) (app : OCRAnnotationTool.t) :
  (OCRAnnotationTool.currentImageIndex app
   < length (OCRAnnotationTool.imageFiles app))%nat ->
  let app' := OCRAnnotationTool.navigateImage direction app in
  (OCRAnnotationTool.currentImageIndex app'
   < length (OCRAnnotationTool.imageFiles app'))%nat
  /\ OCRAnnotationTool.imageFiles app' = OCRAnnotationTool.imageFiles app
  /\ OCRAnnotationTool.ocrResults app' = OCRAnnotationTool.ocrResults app
  /\ OCRAnnotationTool.annotations app' = OCRAnnotationTool.annotations app.
Proof.
  intros Hin. unfold OCRAnnotationTool.navigateImage.
  destruct (_ && _) eqn:E; cbn; [| auto].
  apply andb_true_iff in E as [H0 H1].
  apply Z.leb_le in H0. apply Z.ltb_lt in H1.
  repeat split. lia.
Qed.

End Navigation.

(** Moving between the images in the main controller.  Starting from an
    index inside the image list, any sequence of [navigateImage] calls,
    with any steps, leaves the index inside the list, so that there is
    always a current file; the image list, the OCR results and the
    annotation lists are not touched.  A step that would leave the list
    does nothing, and a step that stays inside it is undone by the
    opposite step. *)
Theorem navigateImage_in_range (app : OCRAnnotationTool.t)
    (steps : list Z) :
  (OCRAnnotationTool.currentImageIndex app
   < length (OCRAnnotationTool.imageFiles app))%nat ->
  let app' :=
    fold_left (fun a direction => OCRAnnotationTool.navigateImage direction a)
      steps app in
  (OCRAnnotationTool.currentImageIndex app'
   < length (OCRAnnotationTool.imageFiles app'))%nat
  /\ is_Some (OCRAnnotationTool.currentFileName app')
  /\ OCRAnnotationTool.imageFiles app' = OCRAnnotationTool.imageFiles app
  /\ OCRAnnotationTool.ocrResults app' = OCRAnnotationTool.ocrResults app
  /\ OCRAnnotationTool.annotations app' = OCRAnnotationTool.annotations app
  /\ (forall direction,
        let target :=
          Z.of_nat (OCRAnnotationTool.currentImageIndex app) + direction in
        (target < 0
         \/ Z.of_nat (length (OCRAnnotationTool.imageFiles app)) <= target ->
         OCRAnnotationTool.navigateImage direction app = app)
        /\ (0 <= target
            < Z.of_nat (length (OCRAnnotationTool.imageFiles app)) ->
            OCRAnnotationTool.currentImageIndex
              (OCRAnnotationTool.navigateImage direction app)
            = Z.to_nat target
            /\ OCRAnnotationTool.navigateImage (- direction)
                 (OCRAnnotationTool.navigateImage direction app)
               = app)).
Proof.
  intros Hin app'.
  assert (Hinv :
            (OCRAnnotationTool.currentImageIndex app'
             < length (OCRAnnotationTool.imageFiles app'))%nat
            /\ OCRAnnotationTool.imageFiles app'
               = OCRAnnotationTool.imageFiles app
            /\ OCRAnnotationTool.ocrResults app'
               = OCRAnnotationTool.ocrResults app
            /\ OCRAnnotationTool.annotations app'
               = OCRAnnotationTool.annotations app).
  { subst app'. revert app Hin.
    induction steps as [| d steps IH]; intros app Hin; cbn [fold_left];
      [auto |].
    destruct (navigateImage_step d app Hin) as (H1 & H2 & H3 & H4).
    destruct (IH _ H1) as (I1 & I2 & I3 & I4).
    split; [exact I1 |]. rewrite I2, I3, I4. auto. }
  destruct Hinv as (H1 & H2 & H3 & H4).
  split; [exact H1 |]. split.
  { unfold OCRAnnotationTool.currentFileName.
    destruct (lookup_lt_is_Some_2 _ _ H1) as [f Hf]. rewrite Hf.
    eexists. reflexivity. }
  split; [exact H2 |]. split; [exact H3 |]. split; [exact H4 |].
  intros direction target. subst target.
  unfold OCRAnnotationTool.navigateImage. split.
  - intros Hout.
    destruct (_ && _) eqn:E; [| reflexivity].
    apply andb_true_iff in E as [E0 E1].
    apply Z.leb_le in E0. apply Z.ltb_lt in E1. lia.
  - intros [Hlo Hhi].
    assert (E : (0 <=? Z.of_nat (OCRAnnotationTool.currentImageIndex app)
                       + direction)
                && (Z.of_nat (OCRAnnotationTool.currentImageIndex app)
                    + direction
                    <? Z.of_nat (length (OCRAnnotationTool.imageFiles app)))
                = true).
    { apply andb_true_iff. split; [apply Z.leb_le | apply Z.ltb_lt]; lia. }
    rewrite E. cbn. split; [reflexivity |].
    rewrite Z2Nat.id by lia.
    replace (Z.of_nat (OCRAnnotationTool.currentImageIndex app) + direction
             + - direction)
      with (Z.of_nat (OCRAnnotationTool.currentImageIndex app)) by lia.
    assert (E' : (0 <=? Z.of_nat (OCRAnnotationTool.currentImageIndex app))
                 && (Z.of_nat (OCRAnnotationTool.currentImageIndex app)
                     <? Z.of_nat (length (OCRAnnotationTool.imageFiles app)))
                 = true).
    { apply andb_true_iff. split; [apply Z.leb_le | apply Z.ltb_lt]; lia. }
    rewrite E', Nat2Z.id. destruct app; reflexivity.
Qed.

(** Three images, starting at the second: back, back again (refused),
    forward twice, forward again (refused). *)
Lemma navigateImage_in_range_witness :
  let file n := ImageFile.mk n "image/jpeg" 10 0 None in
  let app :=
    OCRAnnotationTool.mk
      [file "a.jpg"%string; file "b.jpg"%string; file "c.jpg"%string] 1 ∅ ∅ in
  let app' :=
    fold_left (fun a direction => OCRAnnotationTool.navigateImage direction a)
      [-1; -1; 1; 1; 1] app in
  (OCRAnnotationTool.currentImageIndex app'
   < length (OCRAnnotationTool.imageFiles app'))%nat
  /\ is_Some (OCRAnnotationTool.currentFileName app').
Proof.
  intros file app.
  destruct (navigateImage_in_range app [-1; -1; 1; 1; 1]) as (H1 & H2 & _).
  - cbn. lia.
  - split; [exact H1 | exact H2].
Defined.

(** ** Finding the box under the pointer *)

Section HitTest.
Import CanvasManager.

Lemma find_box_set_fresh (x y : num) (id : Z) (box : Box)
    (boxes : list (Z * Box)) :
  id ∉ map fst boxes ->
  find_box x y (boxes_set id box boxes)
  = match find_box x y boxes with
    | Some hit => Some hit
    | None => if box_contains (box_region box) x y then Some id else None
    end.
Proof.
  induction boxes as [| [k b] boxes IH]; intros Hfresh; cbn.
  - reflexivity.
  - rewrite map_cons, not_elem_of_cons in Hfresh. cbn in Hfresh.
    destruct Hfresh as [Hne Hfresh].
    destruct (decide (k = id)) as [-> | _]; [contradiction |].
    cbn. destruct (box_contains (box_region b) x y); [reflexivity |].
    apply IH, Hfresh.
Qed.

Lemma find_box_hit (x y : num) (boxes : list (Z * Box)) (id : Z) :
  find_box x y boxes = Some id ->
  exists box, (id, box) ∈ boxes /\ box_contains (box_region box) x y = true.
Proof.
  induction boxes as [| [k b] boxes IH]; cbn; [discriminate |].
  destruct (box_contains (box_region b) x y) eqn:E.
  - intros [= <-]. exists b. split; [left | exact E].
  - intros H. destruct (IH H) as (box & Hin & Hbox).
    exists box. split; [right; exact Hin | exact Hbox].
Qed.

Lemma find_box_miss (x y : num) (boxes : list (Z * Box)) :
  find_box x y boxes = None ->
  forall id box, (id, box) ∈ boxes -> box_contains (box_region box) x y = false.
Proof.
  induction boxes as [| [k b] boxes IH]; cbn; intros H id box Hin.
  - apply elem_of_nil in Hin. contradiction.
  - destruct (box_contains (box_region b) x y) eqn:E; [discriminate |].
    apply elem_of_cons in Hin as [[= -> ->] | Hin]; [exact E |].
    eapply IH; eassumption.
Qed.

End HitTest.

(** The box under the pointer.  [getAnnotationIdAtPoint] answers with the
    id of a box that contains the point, borders included, and with nothing
    only when no box contains it.  A box drawn under a new id never takes a
    point away from an older box: where an older box was found it is still
    found, and where none was found the new box is found exactly on the
    points of its display rectangle. *)
Theorem getAnnotationIdAtPoint_older_box_wins (st : CanvasManager.t)
    (region : Rect.t) (id : Z) (x y : num) :
  id ∉ map fst (CanvasManager.annotationBoxes st) ->
  let drawn := CanvasManager.drawAnnotationBox region id st in
  let shown :=
    CanvasManager.originalToDisplayCoords (CanvasManager.imageInfo st)
      region in
  (forall hit,
     CanvasManager.getAnnotationIdAtPoint x y st = Some hit ->
     CanvasManager.getAnnotationIdAtPoint x y drawn = Some hit
     /\ exists box,
          (hit, box) ∈ CanvasManager.annotationBoxes st
          /\ CanvasManager.box_contains (CanvasManager.box_region box) x y
             = true)
  /\ (CanvasManager.getAnnotationIdAtPoint x y st = None ->
      (forall k box,
         (k, box) ∈ CanvasManager.annotationBoxes st ->
         CanvasManager.box_contains (CanvasManager.box_region box) x y
         = false)
      /\ CanvasManager.getAnnotationIdAtPoint x y drawn
         = if CanvasManager.box_contains shown x y then Some id else None)
  /\ (x = NaN \/ y = NaN ->
      CanvasManager.getAnnotationIdAtPoint x y drawn = None).
Proof.
  intros Hfresh drawn shown. subst drawn shown.
  unfold CanvasManager.getAnnotationIdAtPoint, CanvasManager.drawAnnotationBox.
  cbn [CanvasManager.annotationBoxes].
  rewrite (find_box_set_fresh x y id _ _ Hfresh).
  cbn [CanvasManager.box_region].
  split; [| split].
  - intros hit Hhit. rewrite Hhit. split; [reflexivity |].
    apply find_box_hit, Hhit.
  - intros Hmiss. rewrite Hmiss. split; [| reflexivity].
    apply find_box_miss, Hmiss.
  - intros Hnan.
    assert (Hnone : forall r, CanvasManager.box_contains r x y = false).
    { intros r. unfold CanvasManager.box_contains.
      destruct Hnan as [-> | ->].
      - destruct (Rect.left r); reflexivity.
      - destruct (num_leb (Rect.left r) x), (Rect.top r);
          cbn; try reflexivity;
          destruct (num_leb x _); reflexivity. }
    destruct (CanvasManager.find_box x y (CanvasManager.annotationBoxes st))
      as [hit |] eqn:E.
    + apply find_box_hit in E as (box & _ & Hbox).
      rewrite Hnone in Hbox. discriminate.
    + rewrite Hnone. reflexivity.
Qed.

(** Two overlapping boxes on an image shown at its own size: the point
    (60, 60) lies in both and the older one answers; (150, 90) lies in the
    new one only. *)
Lemma getAnnotationIdAtPoint_older_box_wins_witness :
  let rect l t w h :=
    Rect.mk (num_of_Z l) (num_of_Z t) (num_of_Z w) (num_of_Z h) in
  let st :=
    CanvasManager.drawAnnotationBox (rect 10 10 100 100) 1
      (CanvasManager.mk None [] None) in
  let drawn := CanvasManager.drawAnnotationBox (rect 50 50 120 60) 2 st in
  CanvasManager.getAnnotationIdAtPoint (num_of_Z 60) (num_of_Z 60) drawn
  = Some 1
  /\ CanvasManager.getAnnotationIdAtPoint (num_of_Z 150) (num_of_Z 90) drawn
     = Some 2.
Proof.
  intros rect st.
  assert (Hfresh : 2 ∉ map fst (CanvasManager.annotationBoxes st)).
  { cbn. intros H. apply list_elem_of_singleton in H. discriminate. }
  split.
  - destruct (getAnnotationIdAtPoint_older_box_wins st (rect 50 50 120 60) 2
                (num_of_Z 60) (num_of_Z 60) Hfresh) as (H & _).
    apply (H 1). reflexivity.
  - destruct (getAnnotationIdAtPoint_older_box_wins st (rect 50 50 120 60) 2
                (num_of_Z 150) (num_of_Z 90) Hfresh) as (_ & H & _).
    destruct (H eq_refl) as [_ H2]. exact H2.
Defined.

(** ** Saving the list of the current image *)

(** Saving before the page moves to another image.  Without pending
    changes [saveCurrentAnnotations] does nothing.  With pending changes,
    for a folder that has its key, the record written under that key holds
    for the current image the list in memory, and for every other image the
    entry the folder object had; its images and OCR results are those of
    the folder object; the pending-changes flag is cleared and the lists in
    memory stay.  The name written is the [name] of the folder object: for
    a folder object as it is read from the store, which has none, the
    stored folder name is erased. *)
Theorem saveCurrentAnnotations_writes_current (db : StorageManager.DB)
    (now : string) (app : CalibrationApp.t) (fd : Folder.t) (id : Z)
    (name : string) :
  CalibrationApp.folderData app = Some fd ->
  Folder.id fd = Some id ->
  id <> 0 ->
  CalibrationApp.currentFileName app = Some name ->
  let saved := CalibrationApp.saveCurrentAnnotations (Some db) now app in
  (CalibrationApp.hasChanges app = false -> saved = (app, Some db))
  /\ (CalibrationApp.hasChanges app = true ->
      CalibrationApp.hasChanges (fst saved) = false
      /\ CalibrationApp.annotations (fst saved)
         = CalibrationApp.annotations app
      /\ exists db' r,
           snd saved = Some db'
           /\ StorageManager.folders db' = <[id := r]> (StorageManager.folders db)
           /\ StorageManager.annotations r !! name
              = Some (AnnotationEntry.mk name
                        (Some (CalibrationApp.get_annotations app name)))
           /\ (forall other,
                 other <> name ->
                 StorageManager.annotations r !! other
                 = default ∅ (Folder.annotations fd) !! other)
           /\ StorageManager.imageFiles r = default [] (Folder.imageFiles fd)
           /\ StorageManager.ocrResults r = default ∅ (Folder.ocrResults fd)
           /\ StorageManager.folderName r = Folder.name fd
           /\ (forall stored,
                 fd = StorageManager.to_folder id stored ->
                 StorageManager.folderName r = None)).
Proof.
  intros Hfd Hid Hne Hname saved. subst saved.
  unfold CalibrationApp.saveCurrentAnnotations. rewrite Hname, Hfd.
  split.
  - intros ->. reflexivity.
  - intros ->. cbn [negb].
    unfold StorageManager.saveFolder.
    cbn [Folder.id Folder.name Folder.status Folder.imageFiles
         Folder.ocrResults Folder.annotations Folder.createdAt
         Folder.metadata Folder.folderName Folder.updatedAt].
    rewrite Hid.
    destruct (id =? 0) eqn:E; [apply Z.eqb_eq in E; contradiction |].
    cbn [fst snd]. split; [reflexivity |]. split; [reflexivity |].
    eexists _, _. split; [reflexivity |]. split; [reflexivity |].
    cbn [StorageManager.annotations StorageManager.imageFiles
         StorageManager.ocrResults StorageManager.folderName default].
    split; [apply lookup_insert_eq |].
    split; [intros other Hother; apply lookup_insert_ne; congruence |].
    split; [reflexivity |]. split; [reflexivity |]. split; [reflexivity |].
    intros stored ->. reflexivity.
Qed.

(** A folder read from the store, with an edit pending on its first
    image. *)
Lemma saveCurrentAnnotations_writes_current_witness :
  let files := [ImageFile.mk "a.jpg" "image/jpeg" 10 0 None;
                ImageFile.mk "b.jpg" "image/jpeg" 10 0 None] in
  let stored := StorageManager.mkFolderRecord (Some "scans"%string)
                  "processed" files ∅ ∅ "t0" "t0" (Metadata.mk 2 0 0) in
  let db := StorageManager.mkDB {[1 := stored]} 2 in
  let app :=
    CalibrationApp.set_hasChanges
      (CalibrationApp.set_annotations
         (CalibrationApp.loadFolderData (Some db) 1 CalibrationApp.initial)
         "a.jpg" [Annotation.mk 1000 (Some "one"%string) None true])
      true in
  let saved := CalibrationApp.saveCurrentAnnotations (Some db) "t1" app in
  CalibrationApp.hasChanges (fst saved) = false
  /\ exists db' r,
       snd saved = Some db'
       /\ StorageManager.folders db' = <[1 := r]> (StorageManager.folders db)
       /\ StorageManager.annotations r !! "a.jpg"%string
          = Some (AnnotationEntry.mk "a.jpg"
                    (Some [Annotation.mk 1000 (Some "one"%string) None true]))
       /\ StorageManager.folderName r = None.
Proof.
  intros files stored db app.
  destruct (saveCurrentAnnotations_writes_current db "t1" app
              (StorageManager.to_folder 1 stored) 1 "a.jpg"
              eq_refl eq_refl ltac:(lia) eq_refl) as (_ & H).
  destruct (H eq_refl)
    as (H1 & _ & db' & r & H2 & H3 & H4 & _ & _ & _ & _ & H5).
  split; [exact H1 |]. exists db', r.
  split; [exact H2 |]. split; [exact H3 |]. split; [exact H4 |].
  apply (H5 stored). reflexivity.
Defined.

(** ** From the calibration page to the export *)


